(** * Grok Insights Processing Platform: rate gate, analysis client, batch scheduler

    Shallow embedding of [rate_limiter.py], [grok_client.py] and
    [batch_processor.py], and the properties of the platform's
    specification that are decided by them.

    Conventions of the embedding.
    - A Python [float] holding a POSIX timestamp or a duration in seconds is
      an exact rational ([Q]); rounding of binary floating point is not
      modelled.  A Python [int] is a [Z].
    - [datetime.now().timestamp()] is an input of every operation that reads
      the clock.
    - [asyncio.Lock] makes [acquire] and [get_retry_after] atomic, so each is
      one state transformer; a sequence of calls is a list of clock readings
      in the order in which the lock was taken.
    - The client runs in a world that holds its clock, the module variable
      [_last_call_times] and the trace of its sleeps and requests. The clock
      moves on when the client sleeps; the time a request takes is not
      modelled. The external service is a function from the number of
      requests made so far, and the conversation text, to what the request
      comes to.
    - Coroutines run one after the other: [asyncio.gather] takes the tasks in
      the order of the batch, and [start] and [stop] are not interleaved. *)

From Stdlib Require Import ZArith QArith Qround List Bool String Lia Lqa.
From Stdlib Require Import Ascii.
From Stdlib Require Import Sorted.
Import ListNotations.

(** ** Numbers as Python computes them *)

(** [x > y] on floats. *)
Definition Qgtb (x y : Q) : bool := negb (Qle_bool x y).

(** [x < y] on floats. *)
Definition Qltb (x y : Q) : bool := negb (Qle_bool y x).

(** [int(x)] for a float [x]: truncation toward zero. *)
Definition python_int (x : Q) : Z := Z.quot (Qnum x) (Zpos (Qden x)).

(** Where [int(x) + 1] and [ceil(x)] part: on whole [x >= 0], and on
    [-1 < x <= 0]. *)
Definition above_ceiling (x : Q) : bool :=
  Qltb (-1) x && (Qle_bool x 0 || Qeq_bool x (inject_Z (Qfloor x))).

(** [len(l)] as a Python int. *)
Definition len {A : Type} (l : list A) : Z := Z.of_nat (List.length l).

(** ** rate_limiter.py *)

Module RateLimiter.

(** [class RateLimiter]: the attributes set by [__init__], without the
    lock. [requests] is the deque, oldest entry first. *)
Record t : Type := mk {
  max_requests : Z;
  time_window : Q;
  requests : list Q
}.

(** [RateLimiter(max_requests, time_window)] *)
Definition init (max_requests : Z) (time_window : Q) : t :=
  mk max_requests time_window [].

Definition set_requests (self : t) (requests : list Q) : t :=
  mk (max_requests self) (time_window self) requests.

(** [while self.requests and now - self.requests[0] > self.time_window:
        self.requests.popleft()] *)
Fixpoint purge (time_window now : Q) (requests : list Q) : list Q :=
  match requests with
  | [] => []
  | oldest :: later =>
      if Qgtb (now - oldest) time_window
      then purge time_window now later
      else requests
  end.

(** [RateLimiter.acquire], called when the clock reads [now]. *)
Definition acquire (now : Q) (self : t) : bool * t :=
  let retained := purge (time_window self) now (requests self) in
  if (len retained >=? max_requests self)%Z
  then (false, set_requests self retained)
  else (true, set_requests self (retained ++ [now])).

(** [RateLimiter.get_retry_after], called when the clock reads [now]. The
    gate is left as it is. *)
Definition get_retry_after (now : Q) (self : t) : Z :=
  match requests self with
  | [] => 0%Z
  | oldest_request :: _ =>
      let elapsed := now - oldest_request in
      Z.max 0 (python_int (time_window self - elapsed) + 1)
  end.

(** A sequence of [acquire] calls, one per clock reading; the log pairs
    each reading with what the call returned. *)
Fixpoint acquire_all (times : list Q) (self : t) : list (Q * bool) * t :=
  match times with
  | [] => ([], self)
  | now :: later =>
      let (admitted, self1) := acquire now self in
      let (log, final) := acquire_all later self1 in
      ((now, admitted) :: log, final)
  end.

(** [inbound_limiter = RateLimiter(max_requests=100, time_window=1.0)] *)
Definition inbound_limiter : t := init 100 1.

(** The states the gate can be in: what [__init__] builds, and whatever
    [acquire] leaves behind, at any clock reading. *)
Inductive reachable (max_requests : Z) (time_window : Q) : t -> Prop :=
| reachable_init : reachable max_requests time_window (init max_requests time_window)
| reachable_acquire (now : Q) (self : t) :
    reachable max_requests time_window self ->
    reachable max_requests time_window (snd (acquire now self)).

End RateLimiter.

(** The clock readings [times] never run backwards, from [start] on. *)
Fixpoint clock_monotone_from (start : Q) (times : list Q) : bool :=
  match times with
  | [] => true
  | now :: later => Qle_bool start now && clock_monotone_from now later
  end.

Definition clock_monotone (times : list Q) : bool :=
  match times with
  | [] => true
  | now :: later => clock_monotone_from now later
  end.

(** [lo <= t <= hi] *)
Definition within (lo hi t : Q) : bool := Qle_bool lo t && Qle_bool t hi.

(** How many of the timestamps [l] lie in [[lo, hi]]. *)
Definition count_within (lo hi : Q) (l : list Q) : nat :=
  List.length (filter (within lo hi) l).

(** How many calls of a log were admitted at a time in [[lo, hi]]. *)
Definition admitted_within (lo hi : Q) (log : list (Q * bool)) : nat :=
  List.length (filter (fun entry => snd entry && within lo hi (fst entry)) log).

(** *** The admission step in the words of the specification

    (a) discard all retained timestamps older than the window relative to
    now, (b) if the retained count is still at or above capacity return
    false, (c) otherwise append the current timestamp and return true. *)
Module AdmitSpec.

Definition discard_older (windowSeconds now : Q) (retained : list Q) : list Q :=
  filter (fun t => Qle_bool (now - t) windowSeconds) retained.

Definition admit_step (capacity : Z) (windowSeconds now : Q) (retained : list Q)
  : bool * list Q :=
  let kept := discard_older windowSeconds now retained in
  if (capacity <=? len kept)%Z then (false, kept) else (true, kept ++ [now]).

Fixpoint admit_all (capacity : Z) (windowSeconds : Q) (times : list Q)
    (retained : list Q) : list (Q * bool) * list Q :=
  match times with
  | [] => ([], retained)
  | now :: later =>
      let (admitted, retained1) := admit_step capacity windowSeconds now retained in
      let (log, final) := admit_all capacity windowSeconds later retained1 in
      ((now, admitted) :: log, final)
  end.

(** [max(0, ceil(windowSeconds - (now - oldestRetainedTimestamp)))], or 0 if
    no timestamps are retained. *)
Definition retryAfterSeconds (windowSeconds now : Q) (retained : list Q) : Z :=
  match retained with
  | [] => 0%Z
  | oldestRetainedTimestamp :: _ =>
      Z.max 0 (Qceiling (windowSeconds - (now - oldestRetainedTimestamp)))
  end.

End AdmitSpec.

(** ** grok_client.py *)

Module GrokClient.

(** A value as [json.loads] builds it; an object keeps its members in an
    association list with one entry per key. *)
#[warnings="-register-all"]
Inductive json : Type :=
| JNull
| JBool (b : bool)
| JNumber (x : Q)
| JString (s : string)
| JArray (items : list json)
| JObject (members : list (string * json)).

(** The dictionary [analyze_conversation] returns. [clusters] and
    [reasoning] are passed through as the service sent them. *)
Record Analysis : Type := mkAnalysis {
  sentiment_score : Q;
  clusters : json;
  confidence : Q;
  reasoning : json
}.

(** [e.response.headers.get("Retry-After")] as [int] reads it: missing,
    text that [int] accepts, or text on which [int] raises. *)
Inductive retry_after_header : Type :=
| NoRetryAfter
| RetryAfterSeconds (n : Z)
| RetryAfterOther (raw : string).

(** The exceptions of the client; every one is an [Exception]. *)
Inductive exn : Type :=
| ValueError (msg : string)
| TypeError (msg : string)
| AttributeError (msg : string)
| JSONDecodeError (msg : string)
| HTTPStatusError (status_code : Z) (retry_after : retry_after_header)
| RequestError (msg : string)
| OtherException (msg : string).

(** What the body of the [try] yields up to and including
    [json.loads(content)]: the loaded document, or the exception raised by
    [client.post], [raise_for_status], [response.json()], the subscripts
    of [result] or [json.loads]. *)
Inductive attempt_outcome : Type :=
| Loaded (analysis : json)
| Failed (e : exn).

(** What a call of a Python function comes to. [Return None] is a function
    that falls off its end. *)
Inductive outcome (A : Type) : Type :=
| Return (value : option A)
| Raise (e : exn).
Arguments Return {A} value.
Arguments Raise {A} e.

Inductive event : Type :=
| Sleep (seconds : Q)
| Post (text : string).

(** The module state and its surroundings: the clock, the global
    [_last_call_times], and the sleeps and requests made so far. *)
Record world : Type := mkWorld {
  clock : Q;
  _last_call_times : list Q;
  trace : list event
}.

Definition M (A : Type) : Type := world -> A * world.
Definition ret {A : Type} (a : A) : M A := fun w => (a, w).
Definition bind {A B : Type} (c : M A) (k : A -> M B) : M B :=
  fun w => let (a, w1) := c w in k a w1.

Notation "x <- c ;; k" := (bind c (fun x => k))
  (at level 61, c at next level, right associativity).
Notation "c ;; k" := (bind c (fun _ => k))
  (at level 61, right associativity).
Notation "' pat <- c ;; k" := (bind c (fun x => match x with pat => k end))
  (at level 61, pat pattern, c at next level, right associativity).

(** [datetime.now().timestamp()] *)
Definition now : M Q := fun w => (clock w, w).

(** The world after [await asyncio.sleep(seconds)]: time passes only when
    [seconds] is positive. *)
Definition slept (seconds : Q) (w : world) : world :=
  mkWorld (if Qgtb seconds 0 then clock w + seconds else clock w)
          (_last_call_times w)
          (trace w ++ [Sleep seconds]).

(** The world after a request for [text] was sent and answered. *)
Definition posted (text : string) (w : world) : world :=
  mkWorld (clock w) (_last_call_times w) (trace w ++ [Post text]).

(** [await asyncio.sleep(seconds)] *)
Definition sleep (seconds : Q) : M unit := fun w => (tt, slept seconds w).

Definition get_last_call_times : M (list Q) := fun w => (_last_call_times w, w).

Definition set_last_call_times (l : list Q) : M unit := fun w =>
  (tt, mkWorld (clock w) l (trace w)).

Definition is_post (e : event) : bool :=
  match e with Post _ => true | Sleep _ => false end.

Definition posts (w : world) : nat := List.length (filter is_post (trace w)).

(** [2 ** attempt] *)
Definition backoff (attempt : Z) : Q := inject_Z (2 ^ attempt).

Definition max_retries : Z := 3.

(** [range(n)] *)
Definition range (n : Z) : list Z := map Z.of_nat (seq 0 (Z.to_nat n)).

Fixpoint dict_lookup (key : string) (members : list (string * json)) : option json :=
  match members with
  | [] => None
  | (k, v) :: rest => if String.eqb k key then Some v else dict_lookup key rest
  end.

(** [analysis.get(key, default)] *)
Definition get (analysis : json) (key : string) (default : json) : json + exn :=
  match analysis with
  | JObject members =>
      inl (match dict_lookup key members with Some v => v | None => default end)
  | _ => inr (AttributeError "object has no attribute 'get'")
  end.

(** The rate limiting at the head of [analyze_conversation]. *)
Definition rate_limit : M unit :=
  current_time <- now ;;
  calls <- get_last_call_times ;;
  let kept := filter (fun t => Qltb (current_time - t) 1) calls in
  set_last_call_times kept ;;
  (if (len kept >=? 10)%Z
   then
     let wait_time := 1 - (current_time - hd 0 kept) in
     if Qgtb wait_time 0 then sleep wait_time else ret tt
   else ret tt) ;;
  calls1 <- get_last_call_times ;;
  t <- now ;;
  set_last_call_times (calls1 ++ [t]).

(** The failures the specification calls transient: network error, timeout,
    or an HTTP error status other than the rate-limit one. *)
Definition transient (e : exn) : bool :=
  match e with
  | RequestError _ => true
  | HTTPStatusError status_code _ => negb (status_code =? 429)%Z
  | _ => false
  end.

(** A rate-limit response whose [Retry-After] header is absent ([None]) or
    holds a whole number of seconds, and the wait it asks for. *)
Definition rate_limited (retry_after : option Z) : attempt_outcome :=
  Failed (HTTPStatusError 429
            (match retry_after with
             | Some n => RetryAfterSeconds n
             | None => NoRetryAfter
             end)).

Definition advised_wait (retry_after : option Z) : Q :=
  match retry_after with
  | Some n => inject_Z n
  | None => 5
  end.

Section Client.

(** [float(s)] for a string: Python's parser of float literals. *)
Variable str_to_float : string -> option Q.

(** [os.getenv("GROK_KEY")] *)
Variable GROK_API_KEY : option string.

(** The external service: what the [n]-th request of the process
    comes to, given the conversation text in its prompt. *)
Variable service : nat -> string -> attempt_outcome.

(** [float(v)] *)
Definition float (v : json) : Q + exn :=
  match v with
  | JNumber x => inl x
  | JBool b => inl (if b then 1 else 0)
  | JString s =>
      match str_to_float s with
      | Some x => inl x
      | None => inr (ValueError "could not convert string to float")
      end
  | _ => inr (TypeError "float() argument must be a string or a real number")
  end.

(** The dictionary built under [# Validate and normalize response]. *)
Definition normalize (analysis : json) : Analysis + exn :=
  match get analysis "sentiment_score" (JNumber 0) with
  | inr e => inr e
  | inl s =>
  match float s with
  | inr e => inr e
  | inl sentiment =>
  match get analysis "clusters" (JArray []) with
  | inr e => inr e
  | inl cl =>
  match get analysis "confidence" (JNumber (1#2)) with
  | inr e => inr e
  | inl c =>
  match float c with
  | inr e => inr e
  | inl conf =>
  match get analysis "reasoning" (JString "Analysis completed") with
  | inr e => inr e
  | inl r => inl (mkAnalysis sentiment cl conf r)
  end end end end end end.

(** The fallback of the [except json.JSONDecodeError] handler. *)
Definition fallback (msg : string) : Analysis :=
  mkAnalysis 0 (JArray [JString "unknown"]) 0
             (JString ("Failed to parse Grok response: " ++ msg)).

(** [await client.post(GROK_API_URL, ...)] and the reading of the response,
    up to [json.loads(content)]. *)
Definition post (text : string) : M attempt_outcome := fun w =>
  (service (posts w) text, posted text w).

(** The body of the [try], from [client.post] to the [return]. *)
Definition try_body (text : string) : M (Analysis + exn) :=
  r <- post text ;;
  match r with
  | Loaded analysis => ret (normalize analysis)
  | Failed e => ret (inr e)
  end.

(** [for attempt in range(max_retries): try: ... except ...], over the
    attempts still to make. *)
Fixpoint for_attempt (text : string) (attempts : list Z) : M (outcome Analysis) :=
  match attempts with
  | [] => ret (Return None)
  | attempt :: later =>
      r <- try_body text ;;
      match r with
      | inl analysis => ret (Return (Some analysis))
      | inr (JSONDecodeError msg) =>
          if (attempt <? max_retries - 1)%Z
          then sleep (backoff attempt) ;; for_attempt text later
          else ret (Return (Some (fallback msg)))
      | inr (HTTPStatusError status_code header) =>
          if (status_code =? 429)%Z
          then
            match header with
            | NoRetryAfter => sleep 5 ;; for_attempt text later
            | RetryAfterSeconds retry_after =>
                sleep (inject_Z retry_after) ;; for_attempt text later
            | RetryAfterOther raw =>
                ret (Raise (ValueError "invalid literal for int() with base 10"))
            end
          else ret (Raise (HTTPStatusError status_code header))
      | inr e =>
          if (attempt <? max_retries - 1)%Z
          then sleep (backoff attempt) ;; for_attempt text later
          else ret (Raise e)
      end
  end.

(** [if not GROK_API_KEY] *)
Definition key_missing : bool :=
  match GROK_API_KEY with
  | None => true
  | Some key => String.eqb key ""
  end.

Definition analyze_conversation (text : string) : M (outcome Analysis) :=
  if key_missing
  then ret (Raise (ValueError "GROK_KEY environment variable not set"))
  else rate_limit ;; for_attempt text (range max_retries).

End Client.

End GrokClient.

(** ** batch_processor.py *)

(** [Conversation.status], one of the four strings of [models.py]. *)
Inductive Status : Type := pending | processing | completed | failed.

(** [models.Conversation], the columns the processor reads or writes. *)
Module Conversation.
Record t : Type := mk {
  id : string;
  text : string;
  timestamp : Z;
  status : Status
}.
Definition set_status (c : t) (s : Status) : t :=
  mk (id c) (text c) (timestamp c) s.
End Conversation.

(** [models.Insight] as [_process_single] fills it. *)
Module Insight.
Record t : Type := mk {
  conversation_id : string;
  timestamp : Z;
  text : string;
  sentiment_score : Q;
  clusters : GrokClient.json;
  confidence : Q;
  reasoning : GrokClient.json;
  grok_analysis : GrokClient.Analysis
}.
End Insight.

(** The [AsyncSession] of one cycle: the objects added and not yet
    committed, the objects committed, and the number of commits. *)
Module Session.
Record t : Type := mk {
  new : list Insight.t;
  stored : list Insight.t;
  commits : nat
}.
Definition empty : t := mk [] [] 0.
(** [db.add(insight)] *)
Definition add (db : t) (insight : Insight.t) : t :=
  mk (new db ++ [insight]) (stored db) (commits db).
(** [await db.commit()] *)
Definition commit (db : t) : t :=
  mk [] (stored db ++ new db) (S (commits db)).
End Session.

Module BatchProcessor.
Import GrokClient.

(** State of a task of the event loop. *)
Inductive task_state : Type := Live | Cancelled.

(** [class BatchProcessor]; [task] is the handle of a task of the loop. *)
Record t : Type := mk {
  batch_size : Z;
  running : bool;
  task : option nat
}.

(** The processor together with the tasks of the event loop that run
    [_process_loop]. *)
Record system : Type := mkSystem {
  self : t;
  tasks : list task_state
}.

(** [BatchProcessor(batch_size)] on a loop without tasks. *)
Definition init (batch_size : Z) : system :=
  mkSystem (mk batch_size false None) [].

(** [task.cancel()] and [await task]. *)
Fixpoint cancel (handle : nat) (tasks : list task_state) {struct tasks}
  : list task_state :=
  match tasks, handle with
  | [], _ => []
  | _ :: rest, O => Cancelled :: rest
  | first :: rest, S h => first :: cancel h rest
  end.

(** [BatchProcessor.start] *)
Definition start (s : system) : system :=
  if running (self s) then s
  else mkSystem (mk (batch_size (self s)) true (Some (List.length (tasks s))))
                (tasks s ++ [Live]).

(** [BatchProcessor.stop] *)
Definition stop (s : system) : system :=
  mkSystem (mk (batch_size (self s)) false (task (self s)))
           (match task (self s) with
            | Some handle => cancel handle (tasks s)
            | None => tasks s
            end).

Inductive call : Type := Start | Stop.

Definition step (s : system) (c : call) : system :=
  match c with Start => start s | Stop => stop s end.

Definition run (calls : list call) (s : system) : system := fold_left step calls s.

Definition is_live (st : task_state) : bool :=
  match st with Live => true | Cancelled => false end.

(** Number of processing loops alive. *)
Definition live_loops (s : system) : nat :=
  List.length (filter is_live (tasks s)).

(** While running, the handle names the one live loop; while stopped, no
    loop is alive. *)
Definition consistent (s : system) : Prop :=
  if running (self s)
  then exists pre post,
         task (self s) = Some (List.length pre)
         /\ tasks s = pre ++ Live :: post
         /\ filter is_live pre = [] /\ filter is_live post = []
  else filter is_live (tasks s) = [].


(** An analysis that hands a result to [_process_single]. *)
Definition succeeded (r : outcome Analysis) : bool :=
  match r with
  | Return (Some _) => true
  | _ => false
  end.

(** The status [_process_single] leaves behind an analysis. *)
Definition status_after (r : outcome Analysis) : Status :=
  if succeeded r then completed else failed.

Definition has_status (s : Status) (c : Conversation.t) : bool :=
  match s, Conversation.status c with
  | pending, pending | processing, processing
  | completed, completed | failed, failed => true
  | _, _ => false
  end.

Definition count_status (s : Status) (conversations : list Conversation.t) : nat :=
  List.length (filter (has_status s) conversations).

Section Processor.

Variable str_to_float : string -> option Q.
Variable GROK_API_KEY : option string.
Variable service : nat -> string -> attempt_outcome.

(** [analysis[key]] on what [analyze_conversation] returned. *)
Definition subscriptable (analysis : option Analysis) : Analysis + exn :=
  match analysis with
  | Some a => inl a
  | None => inr (TypeError "'NoneType' object is not subscriptable")
  end.

(** The [try] block of [_process_single]. *)
Definition process_single_try (db : Session.t) (conversation : Conversation.t)
  : M ((Session.t * Conversation.t) + exn) :=
  r <- analyze_conversation str_to_float GROK_API_KEY service
         (Conversation.text conversation) ;;
  match r with
  | Raise e => ret (inr e)
  | Return value =>
      match subscriptable value with
      | inr e => ret (inr e)
      | inl analysis =>
          let insight :=
            Insight.mk (Conversation.id conversation)
                       (Conversation.timestamp conversation)
                       (Conversation.text conversation)
                       (sentiment_score analysis)
                       (clusters analysis)
                       (confidence analysis)
                       (reasoning analysis)
                       analysis in
          ret (inl (Session.add db insight,
                    Conversation.set_status conversation completed))
      end
  end.

(** [BatchProcessor._process_single]: [except Exception] marks the
    conversation failed. *)
Definition _process_single (db : Session.t) (conversation : Conversation.t)
  : M (Session.t * Conversation.t) :=
  r <- process_single_try db conversation ;;
  match r with
  | inl done => ret done
  | inr _ => ret (db, Conversation.set_status conversation failed)
  end.

(** [await asyncio.gather] over the tasks with [return_exceptions=True],
    the tasks taken in the order of the batch. *)
Fixpoint gather (db : Session.t) (conversations : list Conversation.t)
  : M (Session.t * list Conversation.t) :=
  match conversations with
  | [] => ret (db, [])
  | conv :: rest =>
      '(db1, conv1) <- _process_single db conv ;;
      '(db2, rest1) <- gather db1 rest ;;
      ret (db2, conv1 :: rest1)
  end.

(** [BatchProcessor._process_batch] *)
Definition _process_batch (db : Session.t) (conversations : list Conversation.t)
  : M (Session.t * list Conversation.t) :=
  let tasks := map (fun conv => Conversation.set_status conv processing) conversations in
  '(db1, done) <- gather db tasks ;;
  ret (Session.commit db1, done).

(** The calls of [analyze_conversation] that a batch makes, one per text,
    and what each comes to. *)
Fixpoint analyses (texts : list string) : M (list (outcome Analysis)) :=
  match texts with
  | [] => ret []
  | text :: rest =>
      r <- analyze_conversation str_to_float GROK_API_KEY service text ;;
      rs <- analyses rest ;;
      ret (r :: rs)
  end.

End Processor.

End BatchProcessor.

(** The bounds that the specification sets on an analysis result: sentiment
    in [[-1, 1]], at least one topic label, confidence in [[0, 1]]. *)
Definition nonempty_clusters (c : GrokClient.json) : bool :=
  match c with
  | GrokClient.JArray (_ :: _) => true
  | _ => false
  end.

Definition within_bounds (insight : Insight.t) : bool :=
  Qle_bool (-1) (Insight.sentiment_score insight)
  && Qle_bool (Insight.sentiment_score insight) 1
  && nonempty_clusters (Insight.clusters insight)
  && Qle_bool 0 (Insight.confidence insight)
  && Qle_bool (Insight.confidence insight) 1.

(** ** The two gates of the process *)

(** [rate_limiter.inbound_limiter] and the module state of [grok_client]
    side by side. *)
Record process : Type := mkProcess {
  inbound_limiter : RateLimiter.t;
  grok_client : GrokClient.world
}.

(** The gate of [submit_conversation]: [await inbound_limiter.acquire()]. *)
Definition inbound_admit (now : Q) (p : process) : bool * process :=
  let (admitted, limiter) := RateLimiter.acquire now (inbound_limiter p) in
  (admitted, mkProcess limiter (grok_client p)).

(** The gate of [analyze_conversation]. *)
Definition outbound_gate (p : process) : process :=
  mkProcess (inbound_limiter p) (snd (GrokClient.rate_limit (grok_client p))).

(** ** Python strings: [strip], [startswith], [endswith], slices

    A [str] is the list of its characters. [isspace] is [str.isspace] on one
    character. *)

Module Str.

Section Strip.

Variable isspace : ascii -> bool.

(** [s.lstrip()] *)
Fixpoint lstrip (s : list ascii) : list ascii :=
  match s with
  | [] => []
  | c :: rest => if isspace c then lstrip rest else s
  end.

(** [s.rstrip()] *)
Definition rstrip (s : list ascii) : list ascii := rev (lstrip (rev s)).

(** [s.strip()] *)
Definition strip (s : list ascii) : list ascii := rstrip (lstrip s).

End Strip.

(** [s.startswith(prefix)] *)
Fixpoint startswith (prefix s : list ascii) : bool :=
  match prefix, s with
  | [], _ => true
  | _ :: _, [] => false
  | a :: prefix', b :: s' => Ascii.eqb a b && startswith prefix' s'
  end.

(** [s.endswith(suffix)] *)
Definition endswith (suffix s : list ascii) : bool :=
  startswith (rev suffix) (rev s).

(** [s[:-n]] for a positive [n] *)
Definition drop_last (n : nat) (s : list ascii) : list ascii :=
  firstn (List.length s - n) s.

End Str.

(** The three backticks of a Markdown fence, and the fence with its tag. *)
Definition fence : list ascii := list_ascii_of_string "```".
Definition json_fence : list ascii := list_ascii_of_string "```json".

(** [grok_client.py], between [content = result[...]] and [json.loads]: the
    text that is handed to the parser. *)
Definition unwrap_fences (isspace : ascii -> bool) (content : list ascii)
  : list ascii :=
  let content := Str.strip isspace content in
  let content :=
    if Str.startswith json_fence content then skipn 7 content else content in
  let content :=
    if Str.startswith fence content then skipn 3 content else content in
  let content :=
    if Str.endswith fence content then Str.drop_last 3 content else content in
  Str.strip isspace content.

(** ** schemas.py *)

(** [ConversationRequest.text_not_empty], the validator of [text]: the
    stripped text, or [ValueError]. *)
Definition text_not_empty (isspace : ascii -> bool) (v : list ascii)
  : list ascii + GrokClient.exn :=
  match v with
  | [] => inr (GrokClient.ValueError "text cannot be empty")
  | _ =>
      match Str.strip isspace v with
      | [] => inr (GrokClient.ValueError "text cannot be empty")
      | stripped => inl stripped
      end
  end.

(** ** The database and [BatchProcessor._process_loop] *)

(** The tables [conversations] and [insights]. A conversation is found by
    its primary key [id]. *)
Record database : Type := mkDatabase {
  conversations : list Conversation.t;
  insights : list Insight.t
}.

Module ProcessLoop.
Import GrokClient.

Fixpoint find_by_id (id : string) (rows : list Conversation.t)
  : option Conversation.t :=
  match rows with
  | [] => None
  | row :: rest =>
      if String.eqb (Conversation.id row) id then Some row else find_by_id id rest
  end.

(** [select(Conversation).where(Conversation.status == "pending")
     .limit(batch_size)], the rows in the order of the table; the limit is
    taken to be a count (not negative). *)
Definition fetch_pending (batch_size : Z) (rows : list Conversation.t)
  : list Conversation.t :=
  firstn (Z.to_nat batch_size) (filter (BatchProcessor.has_status pending) rows).

(** What a commit does to the table: each conversation of the session
    replaces the row with its primary key. *)
Definition write_back (done rows : list Conversation.t) : list Conversation.t :=
  map (fun row =>
         match find_by_id (Conversation.id row) done with
         | Some conv => conv
         | None => row
         end)
      rows.

(** What the database does during one cycle: it works, the query for the
    pending conversations raises, or the commit of the batch raises. *)
Inductive store_fault : Type := NoFault | QueryFails | CommitFails.

Section Loop.

Variable str_to_float : string -> option Q.
Variable GROK_API_KEY : option string.
Variable service : nat -> string -> attempt_outcome.

(** One turn of the [while self.running] loop of [_process_loop]. A cycle in
    which the commit raises runs [_process_batch] up to that commit and
    leaves the tables as they were. *)
Definition cycle (fault : store_fault) (self : BatchProcessor.t) (db : database)
  : M database :=
  match fault with
  | QueryFails => sleep 5 ;; ret db
  | _ =>
      match fetch_pending (BatchProcessor.batch_size self) (conversations db) with
      | [] => sleep 5 ;; ret db
      | batch =>
          '(session, done) <-
             BatchProcessor._process_batch str_to_float GROK_API_KEY service
               Session.empty batch ;;
          match fault with
          | CommitFails => sleep 5 ;; ret db
          | _ =>
              sleep 1 ;;
              ret (mkDatabase (write_back done (conversations db))
                              (insights db ++ Session.stored session))
          end
      end
  end.

(** [_process_loop] for as many turns as [faults] is long. *)
Fixpoint _process_loop (faults : list store_fault) (self : BatchProcessor.t)
    (db : database) : M database :=
  match faults with
  | [] => ret db
  | fault :: later =>
      db1 <- cycle fault self db ;;
      _process_loop later self db1
  end.

End Loop.

End ProcessLoop.

(** What a conversation of a batch has become when the batch is over. *)
Definition resolved (before after : Conversation.t) : Prop :=
  after = Conversation.set_status before completed
  \/ after = Conversation.set_status before failed.

(** How often a key occurs in a list of keys. *)
Definition occurrences (id : string) (ids : list string) : nat :=
  List.length (filter (fun j => String.eqb j id) ids).

(** What the loop may do to a row: leave it as it is, or take a pending row
    to completed or failed. *)
Definition advanced (row row' : Conversation.t) : Prop :=
  row' = row \/ (Conversation.status row = pending /\ resolved row row').

(** ** main.py: [submit_conversation] *)

Module Main.

(** [schemas.ConversationRequest], the fields that reach a column the
    processor uses. *)
Record ConversationRequest : Type := mkRequest {
  text : string;
  timestamp : option Z
}.

(** The responses of [POST /api/v1/conversations]: 202 with the key of the
    conversation, 429 with [retry_after], 400 with the details. *)
Inductive response : Type :=
| Accepted (conversation_id : string)
| RateLimited (retry_after : Z)
| BadRequest (details : string).

(** What the session does in the [try]: it stores the row, or [commit]
    raises, or [refresh] raises after the row is stored. *)
Inductive store_outcome : Type :=
| Stored
| CommitRaises (details : string)
| RefreshRaises (details : string).

(** What one call reads from outside: the clock when [acquire] runs and
    when [get_retry_after] runs, [datetime.utcnow()], the key that the
    default of [Conversation.id] draws ([conv_] and eight hexadecimal
    digits), the text of the error that the database raises when that key
    is taken, and what the session does otherwise. *)
Record environment : Type := mkEnvironment {
  now_acquire : Q;
  now_retry : Q;
  utcnow : Z;
  new_id : string;
  integrity_error : string;
  outcome : store_outcome
}.

(** [inbound_limiter] and the database. *)
Record server : Type := mkServer {
  limiter : RateLimiter.t;
  db : database
}.

Definition insert (row : Conversation.t) (d : database) : database :=
  mkDatabase (conversations d ++ [row]) (insights d).

(** [submit_conversation]. A key that is already in the table makes the
    commit raise (primary key). *)
Definition submit_conversation (env : environment) (request : ConversationRequest)
    (s : server) : response * server :=
  let (admitted, limiter1) := RateLimiter.acquire (now_acquire env) (limiter s) in
  if negb admitted
  then (RateLimited (RateLimiter.get_retry_after (now_retry env) limiter1),
        mkServer limiter1 (db s))
  else
    let conversation :=
      Conversation.mk (new_id env) (text request)
        (match timestamp request with
         | Some t => t
         | None => utcnow env
         end)
        pending in
    match ProcessLoop.find_by_id (new_id env) (conversations (db s)) with
    | Some _ => (BadRequest (integrity_error env), mkServer limiter1 (db s))
    | None =>
        match outcome env with
        | Stored => (Accepted (new_id env), mkServer limiter1 (insert conversation (db s)))
        | CommitRaises details => (BadRequest details, mkServer limiter1 (db s))
        | RefreshRaises details =>
            (BadRequest details, mkServer limiter1 (insert conversation (db s)))
        end
    end.

(** Calls of [submit_conversation], one after the other. *)
Fixpoint submit_all (calls : list (environment * ConversationRequest)) (s : server)
  : list response * server :=
  match calls with
  | [] => ([], s)
  | (env, request) :: later =>
      let (r, s1) := submit_conversation env request s in
      let (rs, final) := submit_all later s1 in
      (r :: rs, final)
  end.

Definition is_rate_limited (r : response) : bool :=
  match r with
  | RateLimited _ => true
  | _ => false
  end.

(** How many calls were let through the gate at a time in [[lo, hi]]. *)
Fixpoint served_within (lo hi : Q) (calls : list (environment * ConversationRequest))
    (responses : list response) : nat :=
  match calls, responses with
  | (env, _) :: calls', r :: responses' =>
      ((if negb (is_rate_limited r) && within lo hi (now_acquire env) then 1 else 0)
       + served_within lo hi calls' responses')%nat
  | _, _ => 0%nat
  end.

End Main.

(** The number of insights kept for the conversation [id]. *)
Definition insights_for (id : string) (l : list Insight.t) : nat :=
  List.length (filter (fun i => String.eqb (Insight.conversation_id i) id) l).

(** Every row has at most one insight, and has one exactly when it is
    completed; there is no insight for a conversation that is not in the
    table. *)
Definition one_insight_per_completed (db : database) : Prop :=
  (forall row, In row (conversations db) ->
     insights_for (Conversation.id row) (insights db)
     = if BatchProcessor.has_status completed row then 1%nat else 0%nat)
  /\ (forall i, In i (insights db) ->
        In (Insight.conversation_id i) (map Conversation.id (conversations db))).

(** How long the retry loop sleeps after the outcome [o] of the attempt
    numbered [attempt] before it tries again; [None] when it does not try
    again after [o] whatever the attempt. *)
Definition retry_wait (attempt : Z) (o : GrokClient.attempt_outcome) : option Q :=
  match o with
  | GrokClient.Loaded _ => None
  | GrokClient.Failed (GrokClient.HTTPStatusError status_code header) =>
      if (status_code =? 429)%Z
      then match header with
           | GrokClient.NoRetryAfter => Some 5
           | GrokClient.RetryAfterSeconds n => Some (inject_Z n)
           | GrokClient.RetryAfterOther _ => None
           end
      else None
  | GrokClient.Failed _ => Some (GrokClient.backoff attempt)
  end.

(** The requests and sleeps of a call whose first attempts slept [waits]
    and whose next attempt ended the call. *)
Fixpoint retried_trace (text : string) (waits : list Q) : list GrokClient.event :=
  match waits with
  | [] => [GrokClient.Post text]
  | wait :: later =>
      GrokClient.Post text :: GrokClient.Sleep wait :: retried_trace text later
  end.

(** The clock readings of the admitted calls of a log, in order. *)
Definition admitted_times (log : list (Q * bool)) : list Q :=
  map fst (filter snd log).

(** ** main.py: [get_insights] *)

(** [schemas.SentimentFilter] *)
Module SentimentFilter.
Inductive t : Type := positive | negative | neutral.
End SentimentFilter.

(** The float that the literal [0.1] denotes. *)
Definition tenth : Q := 3602879701896397 # 36028797018963968.

Module Insights.

(** [schemas.GrokAnalysis] and [schemas.InsightItem] *)
Record GrokAnalysis : Type := mkGrokAnalysis {
  sentiment_score : Q;
  clusters : list string;
  confidence : Q;
  reasoning : option string
}.

Record InsightItem : Type := mkInsightItem {
  conversation_id : string;
  timestamp : Z;
  text : string;
  grok_analysis : GrokAnalysis
}.

Record metadata : Type := mkMetadata {
  total_count : nat;
  returned_count : nat;
  start_time : Z;
  end_time : Z
}.

(** 200 with the items and the metadata, or the 400 of [except Exception]. *)
Inductive response : Type :=
| Ok (insights : list InsightItem) (meta : metadata)
| InvalidQuery.

(** The conditions of the [where] clauses; the source builds them twice,
    for [query] and for [count_query]. *)
Definition conditions (start_time end_time : Z) (min_confidence : option Q)
    (sentiment : option SentimentFilter.t) (insight : Insight.t) : bool :=
  ((start_time <=? Insight.timestamp insight)%Z
   && (Insight.timestamp insight <=? end_time)%Z)
  && match min_confidence with
     | Some c => Qle_bool c (Insight.confidence insight)
     | None => true
     end
  && match sentiment with
     | Some SentimentFilter.positive => Qgtb (Insight.sentiment_score insight) tenth
     | Some SentimentFilter.negative => Qltb (Insight.sentiment_score insight) (- tenth)
     | Some SentimentFilter.neutral =>
         Qle_bool (- tenth) (Insight.sentiment_score insight)
         && Qle_bool (Insight.sentiment_score insight) tenth
     | None => true
     end.

(** [order_by(Insight.timestamp.desc())]: rows with the same timestamp are
    kept in the order of the table. *)
Fixpoint insert_desc (insight : Insight.t) (sorted : list Insight.t) : list Insight.t :=
  match sorted with
  | [] => [insight]
  | other :: rest =>
      if (Insight.timestamp other <=? Insight.timestamp insight)%Z
      then insight :: sorted
      else other :: insert_desc insight rest
  end.

Definition order_by_timestamp_desc (rows : list Insight.t) : list Insight.t :=
  fold_right insert_desc [] rows.

Definition query (start_time end_time : Z) (limit : Z) (min_confidence : option Q)
    (sentiment : option SentimentFilter.t) (table : list Insight.t) : list Insight.t :=
  firstn (Z.to_nat limit)
    (order_by_timestamp_desc
       (filter (conditions start_time end_time min_confidence sentiment) table)).

Definition count_query (start_time end_time : Z) (min_confidence : option Q)
    (sentiment : option SentimentFilter.t) (table : list Insight.t) : list Insight.t :=
  filter (conditions start_time end_time min_confidence sentiment) table.

(** [bool(value)] of a value that a JSON column holds. *)
Definition truthy (value : GrokClient.json) : bool :=
  match value with
  | GrokClient.JNull => false
  | GrokClient.JBool b => b
  | GrokClient.JNumber x => negb (Qeq_bool x 0)
  | GrokClient.JString s => negb (String.eqb s EmptyString)
  | GrokClient.JArray items => match items with [] => false | _ => true end
  | GrokClient.JObject members => match members with [] => false | _ => true end
  end.

(** The bounds of [GrokAnalysis]: [ge=-1.0, le=1.0] and [ge=0.0, le=1.0]. *)
Definition in_range (sentiment_score confidence : Q) : bool :=
  (Qle_bool (-1) sentiment_score && Qle_bool sentiment_score 1)
  && (Qle_bool 0 confidence && Qle_bool confidence 1).

Section Validation.

(** What the validation of the fields [clusters: List[str]] and
    [reasoning: Optional[str]] makes of a JSON value; [None] when it
    raises. *)
Variable list_of_str : GrokClient.json -> option (list string).
Variable optional_str : GrokClient.json -> option (option string).

(** One [InsightItem(...)] of the list comprehension; [None] when the
    validation raises. *)
Definition insight_item (insight : Insight.t) : option InsightItem :=
  if in_range (Insight.sentiment_score insight) (Insight.confidence insight)
  then
    match list_of_str (if truthy (Insight.clusters insight)
                       then Insight.clusters insight
                       else GrokClient.JArray []),
          optional_str (Insight.reasoning insight) with
    | Some clusters, Some reasoning =>
        Some (mkInsightItem (Insight.conversation_id insight)
                (Insight.timestamp insight) (Insight.text insight)
                (mkGrokAnalysis (Insight.sentiment_score insight) clusters
                   (Insight.confidence insight) reasoning))
    | _, _ => None
    end
  else None.

Fixpoint insight_items (rows : list Insight.t) : option (list InsightItem) :=
  match rows with
  | [] => Some []
  | insight :: rest =>
      match insight_item insight, insight_items rest with
      | Some item, Some items => Some (item :: items)
      | _, _ => None
      end
  end.

(** [get_insights]; [execute_raises] says whether [db.execute] raises. *)
Definition get_insights (start_time end_time : Z) (limit : Z)
    (min_confidence : option Q) (sentiment : option SentimentFilter.t)
    (execute_raises : bool) (d : database) : response :=
  if execute_raises then InvalidQuery
  else
    match insight_items
            (query start_time end_time limit min_confidence sentiment (insights d)) with
    | None => InvalidQuery
    | Some items =>
        Ok items
           (mkMetadata
              (List.length
                 (count_query start_time end_time min_confidence sentiment (insights d)))
              (List.length items) start_time end_time)
    end.

End Validation.

End Insights.

(** * Properties *)

(** ** Comparisons *)

Lemma Qgtb_true (x y : Q) : Qgtb x y = true <-> y < x.
Proof.
  unfold Qgtb. rewrite negb_true_iff. split.
  - intros H. apply Qnot_le_lt. intros Hle.
    apply Qle_bool_iff in Hle. congruence.
  - intros H. destruct (Qle_bool x y) eqn:E; [| reflexivity].
    apply Qle_bool_iff in E. lra.
Qed.

Lemma Qgtb_false (x y : Q) : Qgtb x y = false <-> x <= y.
Proof.
  unfold Qgtb. rewrite negb_false_iff. apply Qle_bool_iff.
Qed.

Lemma Qltb_true (x y : Q) : Qltb x y = true <-> x < y.
Proof. unfold Qltb. apply (Qgtb_true y x). Qed.

Lemma Qle_bool_false (x y : Q) : Qle_bool x y = false <-> y < x.
Proof.
  rewrite <- (Qgtb_true x y). unfold Qgtb. apply iff_sym, negb_true_iff.
Qed.

Lemma within_true (lo hi t : Q) : within lo hi t = true <-> lo <= t /\ t <= hi.
Proof.
  unfold within. rewrite andb_true_iff, !Qle_bool_iff. tauto.
Qed.

(** ** The rate gate *)

Section Gate.

Import RateLimiter.

Variable capacity : Z.
Variable windowSeconds : Q.

(** What the loop of [acquire] pops is a prefix of the deque, every entry
    of it older than the window. *)
Lemma purge_prefix (now : Q) (l : list Q) :
  exists dropped,
    l = dropped ++ purge windowSeconds now l
    /\ Forall (fun t => windowSeconds < now - t) dropped.
Proof.
  induction l as [| oldest later IH]; simpl.
  - exists []. split; [reflexivity | constructor].
  - destruct (Qgtb (now - oldest) windowSeconds) eqn:E.
    + destruct IH as [dropped [Heq Hold]].
      exists (oldest :: dropped). split.
      * simpl. f_equal. exact Heq.
      * constructor; [apply Qgtb_true; exact E | exact Hold].
    + exists []. split; [reflexivity | constructor].
Qed.

Lemma purge_length (now : Q) (l : list Q) :
  (List.length (purge windowSeconds now l) <= List.length l)%nat.
Proof.
  destruct (purge_prefix now l) as [dropped [Heq _]].
  rewrite Heq at 2. rewrite length_app. lia.
Qed.

Lemma count_within_app (lo hi : Q) (l1 l2 : list Q) :
  count_within lo hi (l1 ++ l2) = (count_within lo hi l1 + count_within lo hi l2)%nat.
Proof. unfold count_within. rewrite filter_app, length_app. reflexivity. Qed.

Lemma count_within_le (lo hi : Q) (l : list Q) :
  (count_within lo hi l <= List.length l)%nat.
Proof. apply filter_length_le. Qed.

(** Timestamps older than the window at [now] lie before every interval of
    one window's length that holds [now]. *)
Lemma count_within_old (start now : Q) (old : list Q) :
  Forall (fun t => windowSeconds < now - t) old ->
  within start (start + windowSeconds) now = true ->
  count_within start (start + windowSeconds) old = 0%nat.
Proof.
  intros Hold Hnow. apply within_true in Hnow.
  unfold count_within.
  induction Hold as [| t old Ht _ IH]; simpl; [reflexivity |].
  assert (E : within start (start + windowSeconds) t = false).
  { unfold within. apply andb_false_iff. left. apply Qle_bool_false. lra. }
  rewrite E. exact IH.
Qed.

Lemma Forall_older (T now : Q) (old : list Q) :
  T <= now ->
  Forall (fun t => windowSeconds < T - t) old ->
  Forall (fun t => windowSeconds < now - t) old.
Proof.
  intros Hle H. eapply Forall_impl; [| exact H].
  simpl. intros t Ht. lra.
Qed.

(** The invariant behind the sliding-window bound: the admitted timestamps
    are [old ++ requests], [old] has left every window that a later call can
    fall in, and no window holds more than [capacity] of them. *)
Lemma acquire_all_bound (times : list Q) :
  forall (T : Q) (old : list Q) (g : t),
    max_requests g = capacity ->
    time_window g = windowSeconds ->
    clock_monotone_from T times = true ->
    Forall (fun t => windowSeconds < T - t) old ->
    (forall start,
        (Z.of_nat (count_within start (start + windowSeconds) (old ++ requests g))
         <= capacity)%Z) ->
    forall start,
      (Z.of_nat (count_within start (start + windowSeconds) (old ++ requests g))
       + Z.of_nat (admitted_within start (start + windowSeconds)
                     (fst (acquire_all times g)))
       <= capacity)%Z.
Proof.
  induction times as [| now later IH]; intros T old g Hcap Hwin Hmono Hold Hinv start.
  - simpl. specialize (Hinv start). unfold admitted_within. simpl. lia.
  - simpl in Hmono. apply andb_true_iff in Hmono. destruct Hmono as [HT Hlater].
    apply Qle_bool_iff in HT.
    simpl. unfold acquire. rewrite Hcap, Hwin.
    destruct (purge_prefix now (requests g)) as [dropped [Heq Hdropped]].
    remember (purge windowSeconds now (requests g)) as retained eqn:Eret.
    clear Eret.
    assert (Hold' : Forall (fun t => windowSeconds < now - t) (old ++ dropped)).
    { apply Forall_app. split; [eapply Forall_older; eassumption | exact Hdropped]. }
    destruct (len retained >=? capacity)%Z eqn:Efull.
    + (* rejected *)
      specialize (IH now (old ++ dropped) (set_requests g retained)).
      destruct (acquire_all later (set_requests g retained)) as [log final] eqn:Erun.
      simpl in *.
      assert (Happ : (old ++ dropped) ++ retained = old ++ requests g).
      { rewrite <- app_assoc. rewrite <- Heq. reflexivity. }
      rewrite Happ in IH.
      unfold admitted_within in *. simpl.
      apply IH; auto.
    + (* admitted *)
      specialize (IH now (old ++ dropped) (set_requests g (retained ++ [now]))).
      destruct (acquire_all later (set_requests g (retained ++ [now])))
        as [log final] eqn:Erun.
      simpl in *.
      assert (Hcount : forall a,
        count_within a (a + windowSeconds) ((old ++ dropped) ++ retained ++ [now])
        = (count_within a (a + windowSeconds) (old ++ requests g)
           + (if within a (a + windowSeconds) now then 1 else 0))%nat).
      { intros a. rewrite Heq.
        rewrite !count_within_app. unfold count_within at 4. simpl.
        destruct (within a (a + windowSeconds) now); simpl; lia. }
      assert (Hinv' : forall a,
        (Z.of_nat (count_within a (a + windowSeconds)
                     ((old ++ dropped) ++ retained ++ [now])) <= capacity)%Z).
      { intros a. destruct (within a (a + windowSeconds) now) eqn:Ein.
        - rewrite (count_within_app a _ (old ++ dropped) (retained ++ [now])).
          rewrite (count_within_old a now (old ++ dropped) Hold' Ein).
          rewrite (count_within_app a _ retained [now]).
          unfold count_within at 2. simpl. rewrite Ein. simpl.
          pose proof (count_within_le a (a + windowSeconds) retained) as Hle.
          rewrite Z.geb_leb in Efull. apply Z.leb_gt in Efull.
          unfold len in Efull. lia.
        - rewrite Hcount, Ein. specialize (Hinv a). lia. }
      specialize (IH Hcap Hwin Hlater Hold' Hinv' start).
      rewrite Hcount in IH.
      unfold admitted_within in *. simpl.
      destruct (within start (start + windowSeconds) now); simpl; lia.
Qed.

(** *** The loop of [acquire] against the filter of the specification *)

Lemma purge_discard_older (now : Q) (l : list Q) :
  StronglySorted Qle l ->
  purge windowSeconds now l = AdmitSpec.discard_older windowSeconds now l.
Proof.
  induction 1 as [| oldest later Hlater IH Hall]; simpl; [reflexivity |].
  unfold Qgtb. destruct (Qle_bool (now - oldest) windowSeconds) eqn:E; simpl.
  - f_equal. apply Qle_bool_iff in E.
    clear IH Hlater. induction Hall as [| t later Ht _ IH]; simpl; [reflexivity |].
    assert (Et : Qle_bool (now - t) windowSeconds = true)
      by (apply Qle_bool_iff; lra).
    rewrite Et. f_equal. exact IH.
  - exact IH.
Qed.

Lemma purge_sorted (now : Q) (l : list Q) :
  StronglySorted Qle l -> StronglySorted Qle (purge windowSeconds now l).
Proof.
  induction 1 as [| oldest later Hlater IH Hall]; simpl; [constructor |].
  destruct (Qgtb (now - oldest) windowSeconds); [exact IH |].
  constructor; assumption.
Qed.

Lemma purge_Forall (P : Q -> Prop) (now : Q) (l : list Q) :
  Forall P l -> Forall P (purge windowSeconds now l).
Proof.
  induction 1 as [| oldest later Ho Hl IH]; simpl; [constructor |].
  destruct (Qgtb (now - oldest) windowSeconds); [exact IH |].
  constructor; assumption.
Qed.

Lemma sorted_append (l : list Q) (now : Q) :
  StronglySorted Qle l ->
  Forall (fun t => t <= now) l ->
  StronglySorted Qle (l ++ [now]).
Proof.
  induction 1 as [| t later Hlater IH Hall]; intros Hle; simpl.
  - constructor; constructor.
  - inversion Hle as [| ? ? Ht Hrest]; subst.
    constructor; [apply IH; exact Hrest |].
    apply Forall_app. split; [exact Hall | constructor; [exact Ht | constructor]].
Qed.

Lemma acquire_all_admit_all (times : list Q) :
  forall (T : Q) (g : t),
    max_requests g = capacity ->
    time_window g = windowSeconds ->
    clock_monotone_from T times = true ->
    StronglySorted Qle (requests g) ->
    Forall (fun t => t <= T) (requests g) ->
    fst (acquire_all times g)
    = fst (AdmitSpec.admit_all capacity windowSeconds times (requests g))
    /\ requests (snd (acquire_all times g))
       = snd (AdmitSpec.admit_all capacity windowSeconds times (requests g)).
Proof.
  induction times as [| now later IH]; intros T g Hcap Hwin Hmono Hsorted Hle;
    [split; reflexivity |].
  simpl in Hmono. apply andb_true_iff in Hmono. destruct Hmono as [HT Hlater].
  apply Qle_bool_iff in HT.
  simpl. unfold acquire, AdmitSpec.admit_step. rewrite Hcap, Hwin.
  rewrite <- (purge_discard_older now (requests g) Hsorted).
  rewrite Z.geb_leb.
  assert (Hle' : Forall (fun t => t <= now) (purge windowSeconds now (requests g))).
  { apply purge_Forall. eapply Forall_impl; [| exact Hle]. simpl. intros; lra. }
  pose proof (purge_sorted now (requests g) Hsorted) as Hsorted'.
  destruct (capacity <=? len (purge windowSeconds now (requests g)))%Z.
  - specialize (IH now (set_requests g (purge windowSeconds now (requests g)))
                  Hcap Hwin Hlater Hsorted' Hle').
    simpl in IH.
    destruct (acquire_all later _) as [log final].
    destruct (AdmitSpec.admit_all _ _ later _) as [log' final'].
    simpl in *. destruct IH as [IHlog IHfinal].
    split; [f_equal; exact IHlog | exact IHfinal].
  - assert (Hs : StronglySorted Qle (purge windowSeconds now (requests g) ++ [now]))
      by (apply sorted_append; assumption).
    assert (Hl : Forall (fun t => t <= now)
                        (purge windowSeconds now (requests g) ++ [now])).
    { apply Forall_app. split; [exact Hle' |]. constructor; [lra | constructor]. }
    specialize (IH now (set_requests g (purge windowSeconds now (requests g) ++ [now]))
                  Hcap Hwin Hlater Hs Hl).
    simpl in IH.
    destruct (acquire_all later _) as [log final].
    destruct (AdmitSpec.admit_all _ _ later _) as [log' final'].
    simpl in *. destruct IH as [IHlog IHfinal].
    split; [f_equal; exact IHlog | exact IHfinal].
Qed.

(** *** The size of the deque *)

Lemma reachable_parameters (g : t) :
  reachable capacity windowSeconds g ->
  max_requests g = capacity /\ time_window g = windowSeconds.
Proof.
  induction 1 as [| now g Hg [IHc IHw]]; [split; reflexivity |].
  unfold acquire. destruct (_ >=? _)%Z; simpl; split; assumption.
Qed.

Lemma reachable_length (g : t) :
  reachable capacity windowSeconds g ->
  (len (requests g) <= Z.max 0 capacity)%Z.
Proof.
  induction 1 as [| now g Hg IH]; [simpl; unfold len; simpl; lia |].
  destruct (reachable_parameters g Hg) as [Hcap Hwin].
  unfold acquire. rewrite Hcap, Hwin.
  pose proof (purge_length now (requests g)) as Hlen.
  destruct (len (purge windowSeconds now (requests g)) >=? capacity)%Z eqn:E; simpl.
  - unfold len in *. lia.
  - rewrite Z.geb_leb in E. apply Z.leb_gt in E.
    unfold len in *. rewrite length_app. simpl. lia.
Qed.

End Gate.

(** ** [int] on floats *)

Lemma python_int_nonneg (n : Z) (d : positive) :
  (0 <= n)%Z -> python_int (n # d) = (n / Zpos d)%Z.
Proof.
  intros Hn. unfold python_int. simpl. apply Z.quot_div_nonneg; lia.
Qed.

Lemma python_int_neg (n : Z) (d : positive) :
  (n < 0)%Z -> python_int (n # d) = (- ((- n) / Zpos d))%Z.
Proof.
  intros Hn. unfold python_int. simpl.
  replace n with (- (- n))%Z at 1 by lia.
  rewrite Z.quot_opp_l by lia.
  rewrite Z.quot_div_nonneg by lia. reflexivity.
Qed.

(** [int(x) + 1] is a whole number strictly above [x]. *)
Lemma python_int_succ_gt (x : Q) : x < inject_Z (python_int x + 1).
Proof.
  destruct x as [n d]. unfold Qlt, inject_Z. simpl.
  destruct (Z_lt_le_dec n 0) as [Hn | Hn].
  - rewrite (python_int_neg n d Hn).
    pose proof (Z.mul_div_le (- n) (Zpos d) ltac:(lia)). nia.
  - rewrite (python_int_nonneg n d Hn).
    pose proof (Z.mul_succ_div_gt n (Zpos d) ltac:(lia)). nia.
Qed.

Lemma python_int_succ_ceiling (x : Q) :
  Z.max 0 (python_int x + 1)
  = (Z.max 0 (Qceiling x) + (if above_ceiling x then 1 else 0))%Z.
Proof.
  destruct x as [n d].
  unfold above_ceiling, Qltb, Qceiling, Qle_bool, Qeq_bool. simpl.
  pose proof (Z.mul_div_le (- n) (Zpos d) ltac:(lia)) as Hc1.
  pose proof (Z.mul_succ_div_gt (- n) (Zpos d) ltac:(lia)) as Hc2.
  pose proof (Z.mul_div_le n (Zpos d) ltac:(lia)) as Hf1.
  pose proof (Z.mul_succ_div_gt n (Zpos d) ltac:(lia)) as Hf2.
  destruct (Z_lt_le_dec n 0) as [Hn | Hn].
  - rewrite (python_int_neg n d Hn).
    destruct (n * 1 <=? Z.neg d)%Z eqn:E1;
      [apply Z.leb_le in E1 | apply Z.leb_gt in E1]; simpl.
    + (* x <= -1 *) nia.
    + (* -1 < x < 0 *)
      assert (E2 : (n * 1 <=? 0)%Z = true) by (apply Z.leb_le; lia).
      rewrite E2. simpl.
      assert (Hc : ((- n) / Zpos d = 0)%Z) by (apply Z.div_small; lia).
      rewrite Hc. reflexivity.
  - rewrite (python_int_nonneg n d Hn).
    assert (E1 : (n * 1 <=? Z.neg d)%Z = false) by (apply Z.leb_gt; lia).
    rewrite E1. simpl.
    destruct (n * 1 <=? 0)%Z eqn:E2;
      [apply Z.leb_le in E2 | apply Z.leb_gt in E2]; simpl.
    + assert (n = 0%Z) by lia. subst n. reflexivity.
    + destruct (n * 1 =? n / Zpos d * Zpos d)%Z eqn:E3;
        [apply Z.eqb_eq in E3 | apply Z.eqb_neq in E3].
      * assert (Hc : ((- n) / Zpos d = - (n / Zpos d))%Z) by nia.
        rewrite Hc. lia.
      * assert (Hc : ((- n) / Zpos d = - (n / Zpos d) - 1)%Z) by nia.
        rewrite Hc. lia.
Qed.

(** ** The rate gate: admission and retry hints *)

(** C1. For every sequence of [acquire] calls on a fresh gate made while the
    clock does not run backwards, with a capacity that is not negative, no
    interval of [time_window] seconds holds more than [max_requests] admitted
    calls; and every call does what the specification says of its admission step: it
    discards the timestamps older than the window, returns false without
    appending when [max_requests] or more remain, and appends the current
    timestamp and returns true otherwise. *)
Theorem acquire_sliding_window
    (max_requests : Z) (time_window : Q) (times : list Q) :
  (0 <= max_requests)%Z ->
  clock_monotone times = true ->
  let log :=
    fst (RateLimiter.acquire_all times (RateLimiter.init max_requests time_window)) in
  (forall start : Q,
      (Z.of_nat (admitted_within start (start + time_window) log) <= max_requests)%Z)
  /\ log = fst (AdmitSpec.admit_all max_requests time_window times [])
  /\ RateLimiter.requests
       (snd (RateLimiter.acquire_all times
               (RateLimiter.init max_requests time_window)))
     = snd (AdmitSpec.admit_all max_requests time_window times []).
Proof.
  intros Hcap Hmono log. subst log.
  destruct times as [| first later].
  - split; [intros start; simpl; exact Hcap | split; reflexivity].
  - assert (Hfrom : clock_monotone_from first (first :: later) = true).
    { simpl. apply andb_true_iff. split; [| exact Hmono].
      apply Qle_bool_iff. apply Qle_refl. }
    split.
    + intros start.
      pose proof (acquire_all_bound max_requests time_window (first :: later) first []
                    (RateLimiter.init max_requests time_window)
                    eq_refl eq_refl Hfrom (Forall_nil _)) as H.
      simpl app in H. specialize (H (fun _ => Hcap) start).
      unfold count_within in H. simpl filter in H. simpl List.length in H. lia.
    + apply (acquire_all_admit_all max_requests time_window (first :: later) first
               (RateLimiter.init max_requests time_window)
               eq_refl eq_refl Hfrom);
        constructor.
Qed.

Lemma acquire_sliding_window_witness :
  (forall start : Q,
      Z.le (Z.of_nat (admitted_within start (start + 1)
                        (fst (RateLimiter.acquire_all [0; 0; 1 # 2; 1; 3 # 2; 2]
                                (RateLimiter.init 2 1)))))
           2)
  /\ fst (RateLimiter.acquire_all [0; 0; 1 # 2; 1; 3 # 2; 2] (RateLimiter.init 2 1))
     = fst (AdmitSpec.admit_all 2 1 [0; 0; 1 # 2; 1; 3 # 2; 2] [])
  /\ RateLimiter.requests
       (snd (RateLimiter.acquire_all [0; 0; 1 # 2; 1; 3 # 2; 2]
               (RateLimiter.init 2 1)))
     = snd (AdmitSpec.admit_all 2 1 [0; 0; 1 # 2; 1; 3 # 2; 2] []).
Proof.
  apply (acquire_sliding_window 2 1 [0; 0; 1 # 2; 1; 3 # 2; 2]).
  - lia.
  - reflexivity.
Defined.

(** The log of the calls above: two admitted at time 0, the next two
    refused, and room again once the first two have left the window. *)
Example acquire_all_log :
  fst (RateLimiter.acquire_all [0; 0; 1 # 2; 1; 3 # 2; 2] (RateLimiter.init 2 1))
  = [(0, true); (0, true); (1 # 2, false); (1, false); (3 # 2, true); (2, true)].
Proof. reflexivity. Qed.

(** Fifteen calls in the same instant on a gate of capacity 10: ten are
    admitted and five refused. *)
Example acquire_fifteen_at_once :
  map snd (fst (RateLimiter.acquire_all (repeat 0 15) (RateLimiter.init 10 1)))
  = repeat true 10 ++ repeat false 5.
Proof. reflexivity. Qed.

(** When the clock runs backwards the bound is lost: three calls are
    admitted at times in [[10, 11]] by a gate of capacity 2. *)
Example acquire_clock_backwards :
  let log := fst (RateLimiter.acquire_all [10; 51 # 5; 23 # 2; 52 # 5]
                    (RateLimiter.init 2 1)) in
  clock_monotone [10; 51 # 5; 23 # 2; 52 # 5] = false
  /\ admitted_within 10 (10 + 1) log = 3%nat.
Proof. split; reflexivity. Qed.

(** C6, as the code has it. [get_retry_after] returns 0 when the deque is
    empty and [max(0, int(time_window - (now - oldest)) + 1)] otherwise,
    [int] truncating toward zero: that is the specification's
    [max(0, ceil(time_window - (now - oldest)))] plus one when the remaining
    time is a whole number at or above 0 or lies in (-1, 0], and equal to it
    everywhere else. *)
Theorem get_retry_after_ceiling (now : Q) (self : RateLimiter.t) :
  RateLimiter.get_retry_after now self
  = (AdmitSpec.retryAfterSeconds (RateLimiter.time_window self) now
       (RateLimiter.requests self)
     + match RateLimiter.requests self with
       | [] => 0
       | oldest :: _ =>
           if above_ceiling (RateLimiter.time_window self - (now - oldest))
           then 1 else 0
       end)%Z.
Proof.
  unfold RateLimiter.get_retry_after, AdmitSpec.retryAfterSeconds.
  destruct (RateLimiter.requests self) as [| oldest later]; [reflexivity |].
  apply python_int_succ_ceiling.
Qed.

(** C6 as the specification states it fails: right after one admission the
    code answers 2 where the formula of the specification gives 1. *)
Lemma get_retry_after_not_ceiling :
  RateLimiter.get_retry_after 0 (RateLimiter.mk 1 1 [0]) = 2%Z
  /\ AdmitSpec.retryAfterSeconds 1 0 [0] = 1%Z
  /\ RateLimiter.mk 1 1 [0] = snd (RateLimiter.acquire 0 (RateLimiter.init 1 1)).
Proof. repeat split; reflexivity. Qed.

(** C7. In every state the gate can reach, [get_retry_after] is never
    negative, and when it is not zero, [acquire] called that many seconds
    later on the same state returns true. *)
Theorem retry_after_then_acquire
    (max_requests : Z) (time_window now : Q) (self : RateLimiter.t) :
  RateLimiter.reachable max_requests time_window self ->
  let wait := RateLimiter.get_retry_after now self in
  (0 <= wait)%Z
  /\ (wait <> 0%Z ->
      fst (RateLimiter.acquire (now + inject_Z wait) self) = true).
Proof.
  intros Hreach wait. subst wait.
  destruct (reachable_parameters max_requests time_window self Hreach) as [Hcap Hwin].
  pose proof (reachable_length max_requests time_window self Hreach) as Hlen.
  unfold RateLimiter.get_retry_after, RateLimiter.acquire.
  destruct (RateLimiter.requests self) as [| oldest later] eqn:Ereq.
  - split; [lia | intros H; contradiction H; reflexivity].
  - split; [apply Z.le_max_l |]. intros Hnz.
    rewrite Hcap, Hwin in *.
    remember (time_window - (now - oldest)) as x eqn:Hx.
    assert (Hwait : Z.max 0 (python_int x + 1) = (python_int x + 1)%Z) by lia.
    rewrite Hwait.
    pose proof (python_int_succ_gt x) as Hgt.
    simpl RateLimiter.purge.
    assert (Eold : Qgtb (now + inject_Z (python_int x + 1) - oldest) time_window = true).
    { apply Qgtb_true.
      assert (Hx' : x == time_window - (now - oldest)) by (rewrite Hx; reflexivity).
      lra. }
    rewrite Eold.
    pose proof (purge_length time_window (now + inject_Z (python_int x + 1)) later)
      as Hpurge.
    assert (E : (len (RateLimiter.purge time_window
                        (now + inject_Z (python_int x + 1)) later)
                 >=? max_requests)%Z = false).
    { rewrite Z.geb_leb. apply Z.leb_gt.
      unfold len in *. simpl List.length in Hlen. lia. }
    rewrite E. reflexivity.
Qed.

Lemma retry_after_then_acquire_witness :
  (0 <= RateLimiter.get_retry_after (1 # 2)
          (snd (RateLimiter.acquire 0 (RateLimiter.init 1 1))))%Z
  /\ RateLimiter.get_retry_after (1 # 2)
       (snd (RateLimiter.acquire 0 (RateLimiter.init 1 1))) = 1%Z
  /\ fst (RateLimiter.acquire ((1 # 2) + inject_Z 1)
            (snd (RateLimiter.acquire 0 (RateLimiter.init 1 1)))) = true.
Proof.
  destruct (retry_after_then_acquire 1 1 (1 # 2)
              (snd (RateLimiter.acquire 0 (RateLimiter.init 1 1)))
              (RateLimiter.reachable_acquire 1 1 0 _ (RateLimiter.reachable_init 1 1)))
    as [Hnonneg Hadmit].
  split; [exact Hnonneg |]. split; [reflexivity |].
  apply Hadmit. discriminate.
Defined.

(** ** The analysis client *)

Section ClientFacts.

Import GrokClient.

Variable str_to_float : string -> option Q.
Variable GROK_API_KEY : option string.
Variable service : nat -> string -> attempt_outcome.

Lemma posts_posted (text : string) (w : world) : posts (posted text w) = S (posts w).
Proof.
  unfold posts, posted. simpl. rewrite filter_app, length_app. simpl. lia.
Qed.

Lemma posts_slept (seconds : Q) (w : world) : posts (slept seconds w) = posts w.
Proof.
  unfold posts, slept. simpl. rewrite filter_app, length_app. simpl. lia.
Qed.

(** What [rate_limit] does to the world. *)
Lemma rate_limit_world (w : world) :
  let kept := filter (fun t => Qltb (clock w - t) 1) (_last_call_times w) in
  let wait_time := 1 - (clock w - hd 0 kept) in
  rate_limit w
  = (tt,
     if (len kept >=? 10)%Z && Qgtb wait_time 0
     then mkWorld (clock w + wait_time) (kept ++ [clock w + wait_time])
                  (trace w ++ [Sleep wait_time])
     else mkWorld (clock w) (kept ++ [clock w]) (trace w)).
Proof.
  unfold rate_limit, bind, now, get_last_call_times, set_last_call_times, sleep, ret.
  simpl.
  destruct (len _ >=? 10)%Z; simpl; [| reflexivity].
  destruct (Qgtb (1 - _) 0) eqn:E; simpl; [| reflexivity].
  unfold slept. simpl. rewrite E. reflexivity.
Qed.

Lemma posts_rate_limit (w : world) : posts (snd (rate_limit w)) = posts w.
Proof.
  rewrite rate_limit_world. simpl.
  destruct (_ && _); simpl; [| reflexivity].
  unfold posts. simpl. rewrite filter_app, length_app. simpl. lia.
Qed.

(** One turn of the retry loop. *)
Lemma for_attempt_step (text : string) (attempt : Z) (later : list Z) (w : world) :
  for_attempt str_to_float service text (attempt :: later) w
  = match
      match service (posts w) text with
      | Loaded analysis => normalize str_to_float analysis
      | Failed e => inr e
      end
    with
    | inl analysis => (Return (Some analysis), posted text w)
    | inr (JSONDecodeError msg) =>
        if (attempt <? max_retries - 1)%Z
        then for_attempt str_to_float service text later
               (slept (backoff attempt) (posted text w))
        else (Return (Some (fallback msg)), posted text w)
    | inr (HTTPStatusError status_code header) =>
        if (status_code =? 429)%Z
        then
          match header with
          | NoRetryAfter =>
              for_attempt str_to_float service text later (slept 5 (posted text w))
          | RetryAfterSeconds retry_after =>
              for_attempt str_to_float service text later
                (slept (inject_Z retry_after) (posted text w))
          | RetryAfterOther _ =>
              (Raise (ValueError "invalid literal for int() with base 10"),
               posted text w)
          end
        else (Raise (HTTPStatusError status_code header), posted text w)
    | inr e =>
        if (attempt <? max_retries - 1)%Z
        then for_attempt str_to_float service text later
               (slept (backoff attempt) (posted text w))
        else (Raise e, posted text w)
    end.
Proof.
  cbn [for_attempt]. unfold try_body, bind, post.
  destruct (service (posts w) text) as [analysis | e]; unfold ret, sleep.
  - destruct (normalize str_to_float analysis) as [a | e]; [reflexivity |].
    destruct e as [m | m | m | m | code header | m | m];
      try (destruct (attempt <? max_retries - 1)%Z; reflexivity).
    destruct (code =? 429)%Z; [destruct header |]; reflexivity.
  - destruct e as [m | m | m | m | code header | m | m];
      try (destruct (attempt <? max_retries - 1)%Z; reflexivity).
    destruct (code =? 429)%Z; [destruct header |]; reflexivity.
Qed.

End ClientFacts.

Section Retries.

Import GrokClient.

Variable str_to_float : string -> option Q.
Variable GROK_API_KEY : option string.
Variable service : nat -> string -> attempt_outcome.
Variable text : string.

Hypothesis key_set : key_missing GROK_API_KEY = false.

Lemma analyze_conversation_loop (w : world) :
  analyze_conversation str_to_float GROK_API_KEY service text w
  = for_attempt str_to_float service text [0; 1; 2]%Z (snd (rate_limit w)).
Proof.
  unfold analyze_conversation. rewrite key_set. unfold bind.
  destruct (rate_limit w) as [[] w1]. reflexivity.
Qed.

Local Arguments for_attempt : simpl never.

Local Ltac attempt_with H :=
  rewrite for_attempt_step;
  repeat (rewrite posts_slept || rewrite posts_posted); rewrite H;
  unfold max_retries; simpl.

(** Three structural-parse failures in a row. *)
Lemma loop_malformed (w : world) (m0 m1 m2 : string) :
  service (posts w) text = Failed (JSONDecodeError m0) ->
  service (S (posts w)) text = Failed (JSONDecodeError m1) ->
  service (S (S (posts w))) text = Failed (JSONDecodeError m2) ->
  for_attempt str_to_float service text [0; 1; 2]%Z w
  = (Return (Some (fallback m2)),
     posted text (slept 2 (posted text (slept 1 (posted text w))))).
Proof.
  intros H0 H1 H2.
  attempt_with H0. attempt_with H1. attempt_with H2. reflexivity.
Qed.

(** Three rate-limit signals in a row. *)
Lemma loop_rate_limited (w : world) (r0 r1 r2 : option Z) :
  service (posts w) text = rate_limited r0 ->
  service (S (posts w)) text = rate_limited r1 ->
  service (S (S (posts w))) text = rate_limited r2 ->
  for_attempt str_to_float service text [0; 1; 2]%Z w
  = (Return None,
     slept (advised_wait r2) (posted text
       (slept (advised_wait r1) (posted text
          (slept (advised_wait r0) (posted text w)))))).
Proof.
  intros H0 H1 H2. unfold rate_limited in *.
  attempt_with H0.
  destruct r0; simpl; attempt_with H1;
    destruct r1; simpl; attempt_with H2;
    destruct r2; reflexivity.
Qed.

(** A network error or timeout on every attempt. *)
Lemma loop_request_error (w : world) (msg : string) :
  (forall n, service n text = Failed (RequestError msg)) ->
  for_attempt str_to_float service text [0; 1; 2]%Z w
  = (Raise (RequestError msg),
     posted text (slept 2 (posted text (slept 1 (posted text w))))).
Proof.
  intros H.
  attempt_with H. attempt_with H. attempt_with H. reflexivity.
Qed.

(** An HTTP error status other than 429. *)
Lemma loop_status_error (w : world) (status_code : Z) (header : retry_after_header)
    (attempts : list Z) (attempt : Z) :
  (status_code =? 429)%Z = false ->
  service (posts w) text = Failed (HTTPStatusError status_code header) ->
  for_attempt str_to_float service text (attempt :: attempts) w
  = (Raise (HTTPStatusError status_code header), posted text w).
Proof.
  intros Hcode H. rewrite for_attempt_step, H. simpl. rewrite Hcode. reflexivity.
Qed.

End Retries.

Lemma trace_three_posts (text : string) (d1 d2 : Q) (w : GrokClient.world) :
  GrokClient.trace
    (GrokClient.posted text
       (GrokClient.slept d2 (GrokClient.posted text
          (GrokClient.slept d1 (GrokClient.posted text w)))))
  = GrokClient.trace w
    ++ [GrokClient.Post text; GrokClient.Sleep d1; GrokClient.Post text;
        GrokClient.Sleep d2; GrokClient.Post text].
Proof. simpl. repeat rewrite <- app_assoc. reflexivity. Qed.

(** C3. When the structural parse fails on each of the three attempts of a
    call, [analyze_conversation] raises nothing: it returns the fallback
    with sentiment 0.0, clusters ["unknown"], confidence 0.0 and a reasoning
    that quotes the last parse error, after three requests with sleeps of
    1 s and 2 s between them. *)
Theorem analyze_conversation_malformed
    (str_to_float : string -> option Q) (GROK_API_KEY : option string)
    (service : nat -> string -> GrokClient.attempt_outcome)
    (text : string) (w : GrokClient.world) (m0 m1 m2 : string) :
  GrokClient.key_missing GROK_API_KEY = false ->
  service (GrokClient.posts w) text = GrokClient.Failed (GrokClient.JSONDecodeError m0) ->
  service (S (GrokClient.posts w)) text
    = GrokClient.Failed (GrokClient.JSONDecodeError m1) ->
  service (S (S (GrokClient.posts w))) text
    = GrokClient.Failed (GrokClient.JSONDecodeError m2) ->
  let result :=
    GrokClient.analyze_conversation str_to_float GROK_API_KEY service text w in
  fst result
  = GrokClient.Return
      (Some (GrokClient.mkAnalysis 0
               (GrokClient.JArray [GrokClient.JString "unknown"]) 0
               (GrokClient.JString ("Failed to parse Grok response: " ++ m2))))
  /\ GrokClient.trace (snd result)
     = GrokClient.trace (snd (GrokClient.rate_limit w))
       ++ [GrokClient.Post text; GrokClient.Sleep 1; GrokClient.Post text;
           GrokClient.Sleep 2; GrokClient.Post text].
Proof.
  intros Hkey H0 H1 H2 result. subst result.
  rewrite (analyze_conversation_loop str_to_float GROK_API_KEY service text Hkey).
  rewrite <- (posts_rate_limit w) in H0, H1, H2.
  rewrite (loop_malformed str_to_float service text _ m0 m1 m2 H0 H1 H2).
  split; [reflexivity | apply trace_three_posts].
Qed.

Lemma analyze_conversation_malformed_witness :
  let result :=
    GrokClient.analyze_conversation (fun _ => None) (Some "key"%string)
      (fun _ _ => GrokClient.Failed (GrokClient.JSONDecodeError "Expecting value"%string))
      "hello"%string (GrokClient.mkWorld 0 [] []) in
  fst result
  = GrokClient.Return
      (Some (GrokClient.mkAnalysis 0
               (GrokClient.JArray [GrokClient.JString "unknown"]) 0
               (GrokClient.JString
                  ("Failed to parse Grok response: " ++ "Expecting value"))))
  /\ GrokClient.trace (snd result)
     = GrokClient.trace (snd (GrokClient.rate_limit (GrokClient.mkWorld 0 [] [])))
       ++ [GrokClient.Post "hello"%string; GrokClient.Sleep 1; GrokClient.Post "hello"%string;
           GrokClient.Sleep 2; GrokClient.Post "hello"%string].
Proof.
  apply (analyze_conversation_malformed (fun _ => None) (Some "key"%string)
           (fun _ _ => GrokClient.Failed (GrokClient.JSONDecodeError "Expecting value"%string))
           "hello"%string (GrokClient.mkWorld 0 [] [])
           "Expecting value"%string "Expecting value"%string
           "Expecting value"%string);
    reflexivity.
Defined.

(** C4, the code at three rate-limit signals in a row. Each signal uses up
    one attempt and is followed by a sleep of the advised number of seconds,
    5 when the header is absent, the third one included; then the loop is
    over and [analyze_conversation] returns [None]: no failure reaches the
    caller. *)
Theorem analyze_conversation_rate_limited
    (str_to_float : string -> option Q) (GROK_API_KEY : option string)
    (service : nat -> string -> GrokClient.attempt_outcome)
    (text : string) (w : GrokClient.world) (r0 r1 r2 : option Z) :
  GrokClient.key_missing GROK_API_KEY = false ->
  service (GrokClient.posts w) text = GrokClient.rate_limited r0 ->
  service (S (GrokClient.posts w)) text = GrokClient.rate_limited r1 ->
  service (S (S (GrokClient.posts w))) text = GrokClient.rate_limited r2 ->
  let result :=
    GrokClient.analyze_conversation str_to_float GROK_API_KEY service text w in
  fst result = GrokClient.Return None
  /\ GrokClient.trace (snd result)
     = GrokClient.trace (snd (GrokClient.rate_limit w))
       ++ [GrokClient.Post text; GrokClient.Sleep (GrokClient.advised_wait r0);
           GrokClient.Post text; GrokClient.Sleep (GrokClient.advised_wait r1);
           GrokClient.Post text; GrokClient.Sleep (GrokClient.advised_wait r2)].
Proof.
  intros Hkey H0 H1 H2 result. subst result.
  rewrite (analyze_conversation_loop str_to_float GROK_API_KEY service text Hkey).
  rewrite <- (posts_rate_limit w) in H0, H1, H2.
  rewrite (loop_rate_limited str_to_float service text _ r0 r1 r2 H0 H1 H2).
  split; [reflexivity |].
  simpl. repeat rewrite <- app_assoc. reflexivity.
Qed.

Lemma analyze_conversation_rate_limited_witness :
  let result :=
    GrokClient.analyze_conversation (fun _ => None) (Some "key"%string)
      (fun n _ => GrokClient.rate_limited (if Nat.eqb n 1 then Some 3%Z else None))
      "hello"%string (GrokClient.mkWorld 0 [] []) in
  fst result = GrokClient.Return None
  /\ GrokClient.trace (snd result)
     = [GrokClient.Post "hello"%string; GrokClient.Sleep 5;
        GrokClient.Post "hello"%string; GrokClient.Sleep 3;
        GrokClient.Post "hello"%string; GrokClient.Sleep 5].
Proof.
  apply (analyze_conversation_rate_limited (fun _ => None) (Some "key"%string)
           (fun n _ => GrokClient.rate_limited (if Nat.eqb n 1 then Some 3%Z else None))
           "hello"%string (GrokClient.mkWorld 0 [] []) None (Some 3%Z) None);
    reflexivity.
Defined.

(** C5, as the code has it. A transient failure raised on every attempt is
    propagated to the caller. A network error or timeout is retried: three
    requests, with sleeps of 1 s and 2 s between them. An HTTP error status
    other than 429 is not retried: it is raised after the first request,
    without any sleep. *)
Theorem analyze_conversation_transient
    (str_to_float : string -> option Q) (GROK_API_KEY : option string)
    (service : nat -> string -> GrokClient.attempt_outcome)
    (text : string) (w : GrokClient.world) (e : GrokClient.exn) :
  GrokClient.key_missing GROK_API_KEY = false ->
  GrokClient.transient e = true ->
  (forall n, service n text = GrokClient.Failed e) ->
  let result :=
    GrokClient.analyze_conversation str_to_float GROK_API_KEY service text w in
  fst result = GrokClient.Raise e
  /\ GrokClient.trace (snd result)
     = GrokClient.trace (snd (GrokClient.rate_limit w))
       ++ match e with
          | GrokClient.HTTPStatusError _ _ => [GrokClient.Post text]
          | _ => [GrokClient.Post text; GrokClient.Sleep 1; GrokClient.Post text;
                  GrokClient.Sleep 2; GrokClient.Post text]
          end.
Proof.
  intros Hkey Htransient Hfail result. subst result.
  rewrite (analyze_conversation_loop str_to_float GROK_API_KEY service text Hkey).
  destruct e as [m | m | m | m | code header | m | m]; try discriminate Htransient.
  - simpl in Htransient. apply negb_true_iff in Htransient.
    rewrite (loop_status_error str_to_float service text _ code header _ _
               Htransient (Hfail _)).
    split; reflexivity.
  - rewrite (loop_request_error str_to_float service text _ m Hfail).
    split; [reflexivity | apply trace_three_posts].
Qed.

Lemma analyze_conversation_transient_witness :
  let result :=
    GrokClient.analyze_conversation (fun _ => None) (Some "key"%string)
      (fun _ _ => GrokClient.Failed (GrokClient.RequestError "timed out"%string))
      "hello"%string (GrokClient.mkWorld 0 [] []) in
  fst result = GrokClient.Raise (GrokClient.RequestError "timed out"%string)
  /\ GrokClient.trace (snd result)
     = [GrokClient.Post "hello"%string; GrokClient.Sleep 1; GrokClient.Post "hello"%string;
        GrokClient.Sleep 2; GrokClient.Post "hello"%string].
Proof.
  apply (analyze_conversation_transient (fun _ => None) (Some "key"%string)
           (fun _ _ => GrokClient.Failed (GrokClient.RequestError "timed out"%string))
           "hello"%string (GrokClient.mkWorld 0 [] [])
           (GrokClient.RequestError "timed out"%string));
    reflexivity.
Defined.

(** C5 as the specification states it fails: a permanent HTTP 500 is a
    transient failure, yet it is raised after one request, with no retry and
    no backoff. *)
Lemma analyze_conversation_status_error_not_retried :
  let e := GrokClient.HTTPStatusError 500 GrokClient.NoRetryAfter in
  let result :=
    GrokClient.analyze_conversation (fun _ => None) (Some "key"%string)
      (fun _ _ => GrokClient.Failed e) "hello"%string (GrokClient.mkWorld 0 [] []) in
  GrokClient.transient e = true
  /\ fst result = GrokClient.Raise e
  /\ GrokClient.trace (snd result) = [GrokClient.Post "hello"%string].
Proof. repeat split; reflexivity. Qed.

(** ** The batch scheduler *)

Section Batches.

Import GrokClient BatchProcessor.

Variable str_to_float : string -> option Q.
Variable GROK_API_KEY : option string.
Variable service : nat -> string -> attempt_outcome.

Local Abbreviation analyze := (analyze_conversation str_to_float GROK_API_KEY service).
Local Abbreviation process_single := (_process_single str_to_float GROK_API_KEY service).

(** [_process_single] in terms of what the analysis came to. *)
Lemma process_single_outcome (db : Session.t) (conv : Conversation.t) (w : world) :
  process_single db conv w
  = (match fst (analyze (Conversation.text conv) w) with
     | Return (Some analysis) =>
         (Session.add db
            (Insight.mk (Conversation.id conv) (Conversation.timestamp conv)
               (Conversation.text conv) (sentiment_score analysis)
               (clusters analysis) (confidence analysis) (reasoning analysis)
               analysis),
          Conversation.set_status conv completed)
     | _ => (db, Conversation.set_status conv failed)
     end,
     snd (analyze (Conversation.text conv) w)).
Proof.
  unfold _process_single, process_single_try, bind.
  destruct (analyze (Conversation.text conv) w) as [r w1]. simpl.
  destruct r as [[analysis |] | e]; reflexivity.
Qed.

Lemma process_single_status (db : Session.t) (conv : Conversation.t) (w : world) :
  Conversation.status (snd (fst (process_single db conv w)))
  = status_after (fst (analyze (Conversation.text conv) w))
  /\ Conversation.id (snd (fst (process_single db conv w))) = Conversation.id conv
  /\ Session.stored (fst (fst (process_single db conv w))) = Session.stored db
  /\ Session.commits (fst (fst (process_single db conv w))) = Session.commits db
  /\ List.length (Session.new (fst (fst (process_single db conv w))))
     = (List.length (Session.new db)
        + if succeeded (fst (analyze (Conversation.text conv) w)) then 1 else 0)%nat.
Proof.
  rewrite process_single_outcome. unfold status_after.
  destruct (fst (analyze (Conversation.text conv) w)) as [[analysis |] | e]; simpl;
    rewrite ?length_app; simpl; repeat split; lia.
Qed.

Lemma gather_outcomes (conversations : list Conversation.t) :
  forall (db : Session.t) (w : world),
    let run := gather str_to_float GROK_API_KEY service db conversations w in
    let outcomes :=
      analyses str_to_float GROK_API_KEY service
        (map Conversation.text conversations) w in
    map Conversation.status (snd (fst run)) = map status_after (fst outcomes)
    /\ map Conversation.id (snd (fst run)) = map Conversation.id conversations
    /\ snd run = snd outcomes
    /\ Session.stored (fst (fst run)) = Session.stored db
    /\ Session.commits (fst (fst run)) = Session.commits db
    /\ List.length (Session.new (fst (fst run)))
       = (List.length (Session.new db)
          + List.length (filter succeeded (fst outcomes)))%nat.
Proof.
  induction conversations as [| conv rest IH]; intros db w; simpl.
  - unfold ret. simpl. repeat split. lia.
  - unfold bind.
    pose proof (process_single_status db conv w) as Hsingle.
    pose proof (process_single_outcome db conv w) as Hout.
    destruct (process_single db conv w) as [[db1 conv1] w1].
    apply (f_equal snd) in Hout. simpl in Hout.
    simpl in Hsingle. destruct Hsingle as [Hst [Hid [Hstored [Hcommits Hnew]]]].
    destruct (analyze (Conversation.text conv) w) as [r w1'].
    simpl in *. subst w1'.
    specialize (IH db1 w1). simpl in IH.
    destruct (gather str_to_float GROK_API_KEY service db1 rest w1)
      as [[db2 rest1] w2].
    destruct (analyses str_to_float GROK_API_KEY service
                (map Conversation.text rest) w1) as [rs w2'].
    simpl in *. destruct IH as [IHst [IHid [IHw [IHstored [IHcommits IHnew]]]]].
    unfold ret. simpl.
    repeat split; try congruence.
    rewrite IHnew, Hnew. destruct (succeeded r); simpl; lia.
Qed.

Lemma count_status_map (s : Status) (outcomes : list (outcome Analysis))
    (conversations : list Conversation.t) :
  map Conversation.status conversations = map status_after outcomes ->
  count_status s conversations
  = List.length (filter (fun r => match s, status_after r with
                                  | pending, pending | processing, processing
                                  | completed, completed | failed, failed => true
                                  | _, _ => false
                                  end) outcomes).
Proof.
  revert outcomes.
  induction conversations as [| c rest IH]; intros [| r rs] H; simpl in *;
    try discriminate; [reflexivity |].
  injection H as Hc Hrest. unfold count_status in *. simpl.
  unfold has_status at 1. rewrite Hc.
  destruct s; destruct (status_after r); simpl; rewrite (IH rs Hrest); reflexivity.
Qed.

End Batches.

(** C2. For every batch, [_process_batch] resolves every conversation and
    commits once. Each conversation ends completed when its own analysis
    handed back a result and failed otherwise, whatever happened to the
    others; so the batch holds as many completed conversations as analyses
    that succeeded, as many failed ones as analyses that did not, and none
    is left pending or processing. *)
Theorem process_batch_isolates_failures
    (str_to_float : string -> option Q) (GROK_API_KEY : option string)
    (service : nat -> string -> GrokClient.attempt_outcome)
    (db : Session.t) (conversations : list Conversation.t) (w : GrokClient.world) :
  let run :=
    BatchProcessor._process_batch str_to_float GROK_API_KEY service db conversations w in
  let outcomes :=
    fst (BatchProcessor.analyses str_to_float GROK_API_KEY service
           (map Conversation.text conversations) w) in
  map Conversation.status (snd (fst run)) = map BatchProcessor.status_after outcomes
  /\ map Conversation.id (snd (fst run)) = map Conversation.id conversations
  /\ BatchProcessor.count_status completed (snd (fst run))
     = List.length (filter BatchProcessor.succeeded outcomes)
  /\ BatchProcessor.count_status failed (snd (fst run))
     = List.length (filter (fun r => negb (BatchProcessor.succeeded r)) outcomes)
  /\ BatchProcessor.count_status pending (snd (fst run)) = 0%nat
  /\ BatchProcessor.count_status processing (snd (fst run)) = 0%nat
  /\ Session.commits (fst (fst run)) = S (Session.commits db)
  /\ Session.new (fst (fst run)) = []
  /\ List.length (Session.stored (fst (fst run)))
     = (List.length (Session.stored db) + List.length (Session.new db)
        + List.length (filter BatchProcessor.succeeded outcomes))%nat.
Proof.
  intros run outcomes. subst run outcomes.
  unfold BatchProcessor._process_batch, GrokClient.bind.
  pose proof (gather_outcomes str_to_float GROK_API_KEY service
                (map (fun conv => Conversation.set_status conv processing) conversations)
                db w) as H.
  assert (Htexts :
    map Conversation.text
      (map (fun conv => Conversation.set_status conv processing) conversations)
    = map Conversation.text conversations)
    by (rewrite map_map; apply map_ext; reflexivity).
  assert (Hids :
    map Conversation.id
      (map (fun conv => Conversation.set_status conv processing) conversations)
    = map Conversation.id conversations)
    by (rewrite map_map; apply map_ext; reflexivity).
  rewrite Htexts, Hids in H. clear Htexts Hids.
  destruct (BatchProcessor.gather _ _ _ db _ w) as [[db1 done] w1].
  simpl in *.
  destruct H as [Hst [Hid [Hw [Hstored [Hcommits Hnew]]]]].
  unfold GrokClient.ret. simpl.
  pose proof (count_status_map completed _ _ Hst) as Hc.
  pose proof (count_status_map failed _ _ Hst) as Hf.
  pose proof (count_status_map pending _ _ Hst) as Hp.
  pose proof (count_status_map processing _ _ Hst) as Hg.
  repeat split; try assumption.
  - rewrite Hc. f_equal. apply filter_ext. intros r.
    unfold BatchProcessor.status_after. destruct (BatchProcessor.succeeded r); reflexivity.
  - rewrite Hf. f_equal. apply filter_ext. intros r.
    unfold BatchProcessor.status_after. destruct (BatchProcessor.succeeded r); reflexivity.
  - rewrite Hp. clear. induction (fst _) as [| r rs IH]; [reflexivity |].
    simpl. unfold BatchProcessor.status_after at 1.
    destruct (BatchProcessor.succeeded r); exact IH.
  - rewrite Hg. clear. induction (fst _) as [| r rs IH]; [reflexivity |].
    simpl. unfold BatchProcessor.status_after at 1.
    destruct (BatchProcessor.succeeded r); exact IH.
  - rewrite Hcommits. reflexivity.
  - rewrite length_app, Hstored, Hnew. lia.
Qed.

(** A batch of ten conversations; the service answers every request for
    the fourth with a connection error and every other request with a
    well-formed document. Nine end completed, one failed, and the batch is
    committed once with nine insights. *)
Lemma process_batch_nine_and_one :
  let service := fun (n : nat) (text : string) =>
    if String.eqb text "c3"
    then GrokClient.Failed (GrokClient.RequestError "connection reset")
    else GrokClient.Loaded
           (GrokClient.JObject
              [("sentiment_score"%string, GrokClient.JNumber (1 # 2));
               ("clusters"%string, GrokClient.JArray [GrokClient.JString "praise"]);
               ("confidence"%string, GrokClient.JNumber (9 # 10));
               ("reasoning"%string, GrokClient.JString "clear praise")]) in
  let batch :=
    map (fun name => Conversation.mk name name 0 pending)
        ["c0"; "c1"; "c2"; "c3"; "c4"; "c5"; "c6"; "c7"; "c8"; "c9"]%string in
  let run :=
    BatchProcessor._process_batch (fun _ => None) (Some "key"%string) service
      Session.empty batch (GrokClient.mkWorld 0 [] []) in
  map Conversation.status (snd (fst run))
  = [completed; completed; completed; failed; completed;
     completed; completed; completed; completed; completed]
  /\ BatchProcessor.count_status completed (snd (fst run)) = 9%nat
  /\ BatchProcessor.count_status failed (snd (fst run)) = 1%nat
  /\ Session.commits (fst (fst run)) = 1%nat
  /\ List.length (Session.stored (fst (fst run))) = 9%nat.
Proof.
  intros service batch run.
  destruct (process_batch_isolates_failures (fun _ => None) (Some "key"%string)
              service Session.empty batch (GrokClient.mkWorld 0 [] []))
    as (Hst & _ & Hcompleted & Hfailed & _ & _ & Hcommits & _ & Hstored).
  fold run in Hst, Hcompleted, Hfailed, Hcommits, Hstored.
  rewrite Hst, Hcompleted, Hfailed, Hcommits, Hstored.
  repeat split; vm_compute; reflexivity.
Defined.

(** C8, as the code has it. When the service answers the request of a
    conversation with a well-formed document in which [sentiment_score],
    [clusters] and [confidence] are absent, [_process_single] completes the
    conversation and hands off one insight for it with sentiment 0.0,
    confidence 0.5 and an empty list of clusters. *)
Theorem process_single_absent_fields
    (str_to_float : string -> option Q) (GROK_API_KEY : option string)
    (service : nat -> string -> GrokClient.attempt_outcome)
    (db : Session.t) (conversation : Conversation.t) (w : GrokClient.world)
    (members : list (string * GrokClient.json)) :
  GrokClient.key_missing GROK_API_KEY = false ->
  service (GrokClient.posts w) (Conversation.text conversation)
    = GrokClient.Loaded (GrokClient.JObject members) ->
  GrokClient.dict_lookup "sentiment_score" members = None ->
  GrokClient.dict_lookup "clusters" members = None ->
  GrokClient.dict_lookup "confidence" members = None ->
  let run :=
    BatchProcessor._process_single str_to_float GROK_API_KEY service db conversation w in
  Conversation.status (snd (fst run)) = completed
  /\ exists insight,
       Session.new (fst (fst run)) = Session.new db ++ [insight]
       /\ Insight.conversation_id insight = Conversation.id conversation
       /\ Insight.sentiment_score insight = 0
       /\ Insight.clusters insight = GrokClient.JArray []
       /\ Insight.confidence insight = 1 # 2.
Proof.
  intros Hkey Hservice Hs Hcl Hc run. subst run.
  rewrite process_single_outcome.
  rewrite (analyze_conversation_loop str_to_float GROK_API_KEY service _ Hkey).
  rewrite for_attempt_step, posts_rate_limit, Hservice.
  unfold GrokClient.normalize, GrokClient.get. rewrite Hs, Hcl, Hc. simpl.
  split; [reflexivity |]. eexists. repeat split.
Qed.

Lemma process_single_absent_fields_witness :
  let run :=
    BatchProcessor._process_single (fun _ => None) (Some "key"%string)
      (fun _ _ => GrokClient.Loaded
                    (GrokClient.JObject
                       [("reasoning"%string, GrokClient.JString "nothing to say")]))
      Session.empty (Conversation.mk "c0" "hello" 0 processing)
      (GrokClient.mkWorld 0 [] []) in
  Conversation.status (snd (fst run)) = completed
  /\ exists insight,
       Session.new (fst (fst run)) = Session.new Session.empty ++ [insight]
       /\ Insight.conversation_id insight = "c0"%string
       /\ Insight.sentiment_score insight = 0
       /\ Insight.clusters insight = GrokClient.JArray []
       /\ Insight.confidence insight = 1 # 2.
Proof.
  apply (process_single_absent_fields (fun _ => None) (Some "key"%string)
           (fun _ _ => GrokClient.Loaded
                         (GrokClient.JObject
                            [("reasoning"%string, GrokClient.JString "nothing to say")]))
           Session.empty (Conversation.mk "c0" "hello" 0 processing)
           (GrokClient.mkWorld 0 [] [])
           [("reasoning"%string, GrokClient.JString "nothing to say")]);
    reflexivity.
Defined.

(** C8 as the specification states it fails: the empty document [{}] is
    well-formed; the conversation is completed and committed with an insight
    that has no topic label. *)
Lemma process_batch_empty_clusters :
  let run :=
    BatchProcessor._process_batch (fun _ => None) (Some "key"%string)
      (fun _ _ => GrokClient.Loaded (GrokClient.JObject []))
      Session.empty [Conversation.mk "c0" "hello" 0 pending]
      (GrokClient.mkWorld 0 [] []) in
  map Conversation.status (snd (fst run)) = [completed]
  /\ map Insight.clusters (Session.stored (fst (fst run))) = [GrokClient.JArray []]
  /\ map within_bounds (Session.stored (fst (fst run))) = [false].
Proof. repeat split; reflexivity. Qed.

(** ** The inbound and the outbound gate *)

Lemma Qle_bool_Qltb (x y : Q) : ~ x == y -> Qle_bool x y = Qltb x y.
Proof.
  intros Hne. unfold Qltb.
  destruct (Qle_bool x y) eqn:E1; destruct (Qle_bool y x) eqn:E2; try reflexivity.
  - apply Qle_bool_iff in E1. apply Qle_bool_iff in E2.
    exfalso. apply Hne. apply Qle_antisym; assumption.
  - apply Qle_bool_false in E1. apply Qle_bool_false in E2. lra.
Qed.

(** C9, as the code has it. The two gates share no state: an inbound
    admission leaves the module state of the client alone and the outbound
    gating leaves the inbound limiter alone. They are two algorithms. The
    outbound gating keeps the timestamps less than 1 s old and always
    appends one more, so it refuses no call. It leaves the timestamps that
    [RateLimiter(10, 1.0)] leaves when the history is in ascending order, no
    timestamp is exactly 1 s old, and fewer than 10 are less than 1 s old. *)
Theorem gates_share_no_state (p : process) (now : Q) :
  grok_client (snd (inbound_admit now p)) = grok_client p
  /\ inbound_limiter (outbound_gate p) = inbound_limiter p
  /\ (exists t,
         GrokClient._last_call_times (grok_client (outbound_gate p))
         = filter (fun t => Qltb (GrokClient.clock (grok_client p) - t) 1)
                  (GrokClient._last_call_times (grok_client p))
           ++ [t])
  /\ (forall (calls : list Q) (tr : list GrokClient.event),
         StronglySorted Qle calls ->
         Forall (fun t => ~ now - t == 1) calls ->
         (len (filter (fun t => Qltb (now - t) 1) calls) < 10)%Z ->
         RateLimiter.acquire now (RateLimiter.mk 10 1 calls)
         = (true,
            RateLimiter.mk 10 1
              (GrokClient._last_call_times
                 (snd (GrokClient.rate_limit (GrokClient.mkWorld now calls tr)))))).
Proof.
  split; [| split; [| split]].
  - unfold inbound_admit.
    destruct (RateLimiter.acquire now (inbound_limiter p)); reflexivity.
  - reflexivity.
  - unfold outbound_gate. simpl. rewrite rate_limit_world. simpl.
    destruct (_ && _); simpl; eexists; reflexivity.
  - intros calls tr Hsorted Hne Hroom.
    rewrite rate_limit_world. simpl.
    assert (Hfilter : RateLimiter.purge 1 now calls
                      = filter (fun t => Qltb (now - t) 1) calls).
    { rewrite (purge_discard_older 1 now calls Hsorted).
      unfold AdmitSpec.discard_older. apply filter_ext_in.
      intros t Hin. apply Qle_bool_Qltb.
      rewrite Forall_forall in Hne. apply Hne. exact Hin. }
    unfold RateLimiter.acquire. simpl. rewrite Hfilter.
    assert (E : (len (filter (fun t => Qltb (now - t) 1) calls) >=? 10)%Z = false)
      by (rewrite Z.geb_leb; apply Z.leb_gt; exact Hroom).
    rewrite E. reflexivity.
Qed.

Lemma gates_share_no_state_witness :
  RateLimiter.acquire (1 # 2) (RateLimiter.mk 10 1 [0])
  = (true,
     RateLimiter.mk 10 1
       (GrokClient._last_call_times
          (snd (GrokClient.rate_limit (GrokClient.mkWorld (1 # 2) [0] []))))).
Proof.
  destruct (gates_share_no_state
              (mkProcess RateLimiter.inbound_limiter (GrokClient.mkWorld 0 [] []))
              (1 # 2)) as (_ & _ & _ & Hagree).
  apply (Hagree [0] []).
  - repeat constructor.
  - constructor; [| constructor]. intros H. vm_compute in H. discriminate H.
  - reflexivity.
Defined.

(** C9 as the specification states it fails: with ten timestamps in the
    window, [RateLimiter(10, 1.0)] refuses the call and leaves ten
    timestamps, while the gating of [analyze_conversation] sleeps one second
    and lets an eleventh call through; and a timestamp exactly 1 s old is
    kept by the first and dropped by the second. *)
Lemma outbound_gate_is_not_acquire :
  RateLimiter.acquire 0 (RateLimiter.mk 10 1 (repeat 0 10))
  = (false, RateLimiter.mk 10 1 (repeat 0 10))
  /\ GrokClient.rate_limit (GrokClient.mkWorld 0 (repeat 0 10) [])
     = (tt, GrokClient.mkWorld 1 (repeat 0 10 ++ [1]) [GrokClient.Sleep 1])
  /\ RateLimiter.requests (snd (RateLimiter.acquire 1 (RateLimiter.mk 10 1 [0])))
     = [0; 1]
  /\ GrokClient._last_call_times
       (snd (GrokClient.rate_limit (GrokClient.mkWorld 1 [0] [])))
     = [1].
Proof. repeat split; reflexivity. Qed.

(** ** Starting and stopping the processor *)

Section Lifecycle.

Import BatchProcessor.

(** Cancelling never brings a loop to life, and ends the loop it names. *)
Lemma cancel_live_le (handle : nat) (l : list task_state) (s s' : t) :
  (live_loops (mkSystem s (cancel handle l)) <= live_loops (mkSystem s' l))%nat.
Proof.
  unfold live_loops. simpl. revert handle.
  induction l as [| first rest IH]; intros handle; simpl; [lia |].
  destruct handle as [| h]; simpl.
  - destruct first; simpl; lia.
  - specialize (IH h). destruct first; simpl; lia.
Qed.

Lemma cancel_the_live_one (pre post : list task_state) :
  cancel (List.length pre) (pre ++ Live :: post) = pre ++ Cancelled :: post.
Proof.
  induction pre as [| first pre IH]; simpl; [reflexivity |].
  rewrite IH. reflexivity.
Qed.

Lemma consistent_init (batch_size : Z) : consistent (init batch_size).
Proof. reflexivity. Qed.

Lemma consistent_step (s : system) (c : call) :
  consistent s -> consistent (step s c).
Proof.
  unfold consistent. destruct s as [[b r h] l]. destruct c; simpl.
  - unfold start. simpl. destruct r; simpl; [tauto |].
    intros Hnone. exists l, []. repeat split; assumption.
  - destruct r; simpl.
    + intros (pre & post & Hh & Hl & Hpre & Hpost). rewrite Hh, Hl.
      rewrite cancel_the_live_one, filter_app. simpl. rewrite Hpre, Hpost.
      reflexivity.
    + intros Hnone. destruct h as [handle |]; [| exact Hnone].
      pose proof (cancel_live_le handle l (mk b false (Some handle))
                    (mk b false (Some handle))) as Hle.
      unfold live_loops in Hle. simpl in Hle.
      fold is_live in Hle. rewrite Hnone in Hle. simpl in Hle.
      destruct (filter is_live (cancel handle l)); [reflexivity | simpl in Hle; lia].
Qed.

Lemma consistent_run (calls : list call) (s : system) :
  consistent s -> consistent (run calls s).
Proof.
  revert s. induction calls as [| c rest IH]; intros s H; simpl; [exact H |].
  apply IH. apply consistent_step. exact H.
Qed.

Lemma consistent_live_loops (s : system) :
  consistent s -> live_loops s = if running (self s) then 1%nat else 0%nat.
Proof.
  unfold consistent, live_loops. fold is_live.
  destruct (running (self s)).
  - intros (pre & post & _ & Hl & Hpre & Hpost).
    rewrite Hl, filter_app. simpl. rewrite Hpre, Hpost. reflexivity.
  - intros H. rewrite H. reflexivity.
Qed.

End Lifecycle.

(** C10. [start] on a running processor changes nothing: the processor, its
    task and the tasks of the loop stay as they are, so [start] twice is
    [start] once; and after any sequence of [start] and [stop] calls on a new
    processor exactly one processing loop is alive while it is running and
    none while it is not, before and after one more [start]. *)
Theorem start_idempotent
    (s : BatchProcessor.system) (batch_size : Z) (calls : list BatchProcessor.call) :
  (BatchProcessor.running (BatchProcessor.self s) = true -> BatchProcessor.start s = s)
  /\ BatchProcessor.start (BatchProcessor.start s) = BatchProcessor.start s
  /\ (let reached := BatchProcessor.run calls (BatchProcessor.init batch_size) in
      BatchProcessor.live_loops reached
      = (if BatchProcessor.running (BatchProcessor.self reached) then 1 else 0)%nat
      /\ BatchProcessor.live_loops (BatchProcessor.start reached) = 1%nat).
Proof.
  split; [| split].
  - intros Hrun. unfold BatchProcessor.start. rewrite Hrun. reflexivity.
  - unfold BatchProcessor.start.
    destruct (BatchProcessor.running (BatchProcessor.self s)) eqn:E; simpl.
    + rewrite E. reflexivity.
    + reflexivity.
  - intros reached.
    assert (H : BatchProcessor.consistent reached)
      by (apply consistent_run, consistent_init).
    split; [apply consistent_live_loops; exact H |].
    assert (H' : BatchProcessor.consistent (BatchProcessor.step reached BatchProcessor.Start))
      by (apply consistent_step; exact H).
    apply consistent_live_loops in H'. simpl in H'. rewrite H'.
    unfold BatchProcessor.start.
    destruct (BatchProcessor.running (BatchProcessor.self reached)) eqn:E; simpl.
    + rewrite E. reflexivity.
    + reflexivity.
Qed.

Lemma start_idempotent_witness :
  let s := BatchProcessor.start (BatchProcessor.init 10) in
  BatchProcessor.start s = s
  /\ s = BatchProcessor.mkSystem (BatchProcessor.mk 10 true (Some 0%nat))
           [BatchProcessor.Live]
  /\ BatchProcessor.live_loops
       (BatchProcessor.run
          [BatchProcessor.Start; BatchProcessor.Start; BatchProcessor.Stop;
           BatchProcessor.Stop; BatchProcessor.Start; BatchProcessor.Start]
          (BatchProcessor.init 10)) = 1%nat.
Proof.
  intros s.
  destruct (start_idempotent s 10
              [BatchProcessor.Start; BatchProcessor.Start; BatchProcessor.Stop;
               BatchProcessor.Stop; BatchProcessor.Start; BatchProcessor.Start])
    as (Hnoop & _ & Hlive & _).
  split; [apply Hnoop; reflexivity |].
  split; [reflexivity |].
  rewrite Hlive. reflexivity.
Defined.

(** * Further properties of the code *)

(** ** rate_limiter.py: what [acquire] keeps *)

Section GateHistory.

Import RateLimiter.

Variable capacity : Z.
Variable windowSeconds : Q.

Lemma acquire_parameters (now : Q) (g : t) :
  max_requests (snd (acquire now g)) = max_requests g
  /\ time_window (snd (acquire now g)) = time_window g.
Proof. unfold acquire. destruct (_ >=? _)%Z; split; reflexivity. Qed.

Lemma acquire_all_parameters (times : list Q) :
  forall g : t,
    max_requests (snd (acquire_all times g)) = max_requests g
    /\ time_window (snd (acquire_all times g)) = time_window g.
Proof.
  induction times as [| now later IH]; intros g; simpl; [split; reflexivity |].
  pose proof (acquire_parameters now g) as [Hc Hw].
  destruct (acquire now g) as [ok g1]. simpl in *.
  specialize (IH g1). destruct (acquire_all later g1) as [log final]. simpl in *.
  destruct IH as [IHc IHw]. split; congruence.
Qed.

(** A deque whose entries are all older than the window is emptied. *)
Lemma purge_all_old (now : Q) (l : list Q) :
  Forall (fun t => windowSeconds < now - t) l -> purge windowSeconds now l = [].
Proof.
  induction 1 as [| t l Ht _ IH]; simpl; [reflexivity |].
  apply Qgtb_true in Ht. rewrite Ht. exact IH.
Qed.

(** A deque whose oldest entry is within the window is left alone. *)
Lemma purge_head_young (now oldest : Q) (later : list Q) :
  now - oldest <= windowSeconds ->
  purge windowSeconds now (oldest :: later) = oldest :: later.
Proof. intros H. simpl. apply Qgtb_false in H. rewrite H. reflexivity. Qed.

(** The oldest entry that [acquire] retains is within the window. *)
Lemma purge_head (now : Q) (l : list Q) (oldest : Q) (later : list Q) :
  purge windowSeconds now l = oldest :: later -> now - oldest <= windowSeconds.
Proof.
  induction l as [| t l IH]; simpl; [discriminate |].
  destruct (Qgtb (now - t) windowSeconds) eqn:E; [exact IH |].
  intros H. injection H as Ht _. subst t. apply Qgtb_false. exact E.
Qed.

Lemma purge_incl (now : Q) (l : list Q) : incl (purge windowSeconds now l) l.
Proof.
  destruct (purge_prefix windowSeconds now l) as [dropped [Heq _]].
  rewrite Heq at 2. apply incl_appr, incl_refl.
Qed.

(** Every retained timestamp is the clock reading of some earlier call. *)
Lemma acquire_all_incl (times : list Q) :
  forall g : t,
    time_window g = windowSeconds ->
    incl (requests (snd (acquire_all times g))) (requests g ++ times).
Proof.
  induction times as [| now later IH]; intros g Hw; simpl.
  - rewrite app_nil_r. apply incl_refl.
  - pose proof (acquire_parameters now g) as [_ Hw1].
    assert (Hstep : incl (requests (snd (acquire now g))) (requests g ++ [now])).
    { unfold acquire. rewrite Hw.
      pose proof (purge_incl now (requests g)) as Hp.
      destruct (_ >=? _)%Z; simpl.
      - apply incl_appl. exact Hp.
      - apply incl_app; [apply incl_appl; exact Hp | apply incl_appr, incl_refl]. }
    destruct (acquire now g) as [ok g1]. simpl in *.
    specialize (IH g1 (eq_trans Hw1 Hw)).
    destruct (acquire_all later g1) as [log final]. simpl in *.
    intros t Ht. apply IH in Ht. apply in_app_or in Ht.
    destruct Ht as [Ht | Ht].
    + apply Hstep in Ht. apply in_app_or in Ht. destruct Ht as [Ht | Ht].
      * apply in_or_app. left. exact Ht.
      * apply in_or_app. right. simpl in *. tauto.
    + apply in_or_app. right. right. exact Ht.
Qed.

(** Calls at one instant on a deque of [k] entries of that instant. *)
Lemma acquire_all_burst (n : nat) :
  forall (now : Q) (k : nat) (g : t),
    max_requests g = capacity ->
    time_window g = windowSeconds ->
    0 <= windowSeconds ->
    requests g = repeat now k ->
    (Z.of_nat k <= capacity)%Z ->
    map snd (fst (acquire_all (repeat now n) g))
    = repeat true (Nat.min n (Z.to_nat capacity - k))
      ++ repeat false (n - (Z.to_nat capacity - k)).
Proof.
  induction n as [| n IH]; intros now k g Hc Hw Hwin Hreq Hk; [reflexivity |].
  simpl repeat. simpl acquire_all. unfold acquire. rewrite Hc, Hw, Hreq.
  assert (Hpurge : purge windowSeconds now (repeat now k) = repeat now k).
  { destruct k as [| k]; [reflexivity |]. simpl repeat.
    apply purge_head_young. lra. }
  rewrite Hpurge. unfold len. rewrite repeat_length.
  destruct (Z.of_nat k >=? capacity)%Z eqn:E.
  - (* full: this call and all the later ones are refused *)
    rewrite Z.geb_leb in E. apply Z.leb_le in E.
    assert (Hfull : (Z.to_nat capacity - k = 0)%nat) by lia.
    specialize (IH now k (set_requests g (repeat now k)) Hc Hw Hwin eq_refl Hk).
    destruct (acquire_all (repeat now n) (set_requests g (repeat now k)))
      as [log final].
    simpl in *. rewrite IH, Hfull. rewrite Nat.min_0_r, Nat.sub_0_r. reflexivity.
  - rewrite Z.geb_leb in E. apply Z.leb_gt in E.
    assert (Hsnoc : repeat now k ++ [now] = repeat now (S k)).
    { clear. induction k as [| k IHk]; simpl; [reflexivity | f_equal; exact IHk]. }
    specialize (IH now (S k) (set_requests g (repeat now k ++ [now])) Hc Hw Hwin
                  Hsnoc ltac:(lia)).
    destruct (acquire_all (repeat now n) (set_requests g (repeat now k ++ [now])))
      as [log final].
    simpl in *. rewrite IH.
    destruct (Z.to_nat capacity - k)%nat as [| room] eqn:Eroom; [lia |].
    replace (Z.to_nat capacity - S k)%nat with room by lia.
    reflexivity.
Qed.

End GateHistory.

Section GateWindow.

Import RateLimiter.

Variable capacity : Z.
Variable windowSeconds : Q.

Lemma purge_within_window (now : Q) (l : list Q) :
  StronglySorted Qle l ->
  Forall (fun t => now - t <= windowSeconds) (purge windowSeconds now l).
Proof.
  induction 1 as [| oldest later Hlater IH Hall]; simpl; [constructor |].
  destruct (Qgtb (now - oldest) windowSeconds) eqn:E; [exact IH |].
  apply Qgtb_false in E. constructor; [exact E |].
  eapply Forall_impl; [| exact Hall]. simpl. intros t Ht. lra.
Qed.

Lemma filter_window_old (T : Q) (old : list Q) :
  Forall (fun t => windowSeconds < T - t) old ->
  filter (fun t => Qle_bool (T - t) windowSeconds) old = [].
Proof.
  induction 1 as [| t old Ht _ IH]; simpl; [reflexivity |].
  apply Qle_bool_false in Ht. rewrite Ht. exact IH.
Qed.

Lemma filter_window_young (T : Q) (l : list Q) :
  Forall (fun t => T - t <= windowSeconds) l ->
  filter (fun t => Qle_bool (T - t) windowSeconds) l = l.
Proof.
  induction 1 as [| t l Ht _ IH]; simpl; [reflexivity |].
  apply Qle_bool_iff in Ht. rewrite Ht, IH. reflexivity.
Qed.

Lemma last_cons (now T : Q) (later : list Q) :
  last (now :: later) T = last later now.
Proof.
  revert now T. induction later as [| t later IH]; intros now T; [reflexivity |].
  change (last (now :: t :: later) T) with (last (t :: later) T).
  rewrite (IH t T). symmetry. apply IH.
Qed.

(** With a clock that does not run backwards and a window that is not
    negative, the deque holds the admitted calls that are within the window
    of the last call, and nothing else. *)
Lemma acquire_all_window (times : list Q) :
  forall (T : Q) (old : list Q) (g : t),
    time_window g = windowSeconds ->
    0 <= windowSeconds ->
    clock_monotone_from T times = true ->
    Forall (fun t => windowSeconds < T - t) old ->
    StronglySorted Qle (requests g) ->
    Forall (fun t => t <= T) (requests g) ->
    Forall (fun t => T - t <= windowSeconds) (requests g) ->
    requests (snd (acquire_all times g))
    = filter (fun t => Qle_bool (last times T - t) windowSeconds)
        (old ++ requests g ++ admitted_times (fst (acquire_all times g))).
Proof.
  induction times as [| now later IH];
    intros T old g Hw Hwin Hmono Hold Hsorted Hle Hyoung.
  - simpl. unfold admitted_times. simpl. rewrite app_nil_r, filter_app.
    rewrite (filter_window_old T old Hold), (filter_window_young T _ Hyoung).
    reflexivity.
  - simpl in Hmono. apply andb_true_iff in Hmono. destruct Hmono as [HT Hlater].
    apply Qle_bool_iff in HT.
    rewrite last_cons. simpl acquire_all. unfold acquire. rewrite Hw.
    destruct (purge_prefix windowSeconds now (requests g)) as [dropped [Heq Hdropped]].
    pose proof (purge_sorted windowSeconds now _ Hsorted) as Hsorted1.
    pose proof (purge_within_window now _ Hsorted) as Hyoung1.
    assert (Hle1 : Forall (fun t => t <= now) (purge windowSeconds now (requests g))).
    { apply purge_Forall. eapply Forall_impl; [| exact Hle]. simpl. intros; lra. }
    remember (purge windowSeconds now (requests g)) as retained eqn:Eret.
    clear Eret.
    assert (Hold1 : Forall (fun t => windowSeconds < now - t) (old ++ dropped)).
    { apply Forall_app. split; [| exact Hdropped].
      eapply Forall_impl; [| exact Hold]. simpl. intros; lra. }
    destruct (len retained >=? max_requests g)%Z.
    + specialize (IH now (old ++ dropped) (set_requests g retained)
                    Hw Hwin Hlater Hold1 Hsorted1 Hle1 Hyoung1).
      destruct (acquire_all later (set_requests g retained)) as [log final].
      simpl in *. rewrite IH. unfold admitted_times. simpl.
      rewrite Heq, <- !app_assoc. reflexivity.
    + assert (Hs : StronglySorted Qle (retained ++ [now]))
        by (apply sorted_append; assumption).
      assert (Hl : Forall (fun t => t <= now) (retained ++ [now])).
      { apply Forall_app. split; [exact Hle1 | constructor; [lra | constructor]]. }
      assert (Hy : Forall (fun t => now - t <= windowSeconds) (retained ++ [now])).
      { apply Forall_app. split; [exact Hyoung1 | constructor; [lra | constructor]]. }
      specialize (IH now (old ++ dropped) (set_requests g (retained ++ [now]))
                    Hw Hwin Hlater Hold1 Hs Hl Hy).
      destruct (acquire_all later (set_requests g (retained ++ [now])))
        as [log final].
      simpl in *. rewrite IH. unfold admitted_times. simpl.
      rewrite Heq, <- !app_assoc. reflexivity.
Qed.

End GateWindow.

(** X1. In every state a gate can reach its parameters are those it was
    built with and the deque holds at most [max(0, max_requests)]
    timestamps. *)
Theorem acquire_keeps_capacity
    (max_requests : Z) (time_window : Q) (self : RateLimiter.t) :
  RateLimiter.reachable max_requests time_window self ->
  RateLimiter.max_requests self = max_requests
  /\ RateLimiter.time_window self = time_window
  /\ (len (RateLimiter.requests self) <= Z.max 0 max_requests)%Z.
Proof.
  intros H.
  destruct (reachable_parameters max_requests time_window self H) as [Hc Hw].
  repeat split; try assumption.
  apply (reachable_length max_requests time_window self H).
Qed.

Lemma acquire_keeps_capacity_witness :
  let self :=
    snd (RateLimiter.acquire (1 # 4)
           (snd (RateLimiter.acquire 0
                   (snd (RateLimiter.acquire 0 (RateLimiter.init 2 1)))))) in
  RateLimiter.requests self = [0; 0]
  /\ RateLimiter.max_requests self = 2%Z
  /\ RateLimiter.time_window self = 1
  /\ (len (RateLimiter.requests self) <= Z.max 0 2)%Z.
Proof.
  intros self. split; [reflexivity |].
  apply (acquire_keeps_capacity 2 1 self).
  repeat apply RateLimiter.reachable_acquire. apply RateLimiter.reachable_init.
Defined.

(** X2. [n] calls at one instant on a new gate whose capacity and window
    are not negative: the first [min(n, max_requests)] are admitted and all
    the others are refused. *)
Theorem acquire_burst
    (max_requests : Z) (time_window now : Q) (n : nat) :
  (0 <= max_requests)%Z ->
  0 <= time_window ->
  map snd (fst (RateLimiter.acquire_all (repeat now n)
                  (RateLimiter.init max_requests time_window)))
  = repeat true (Nat.min n (Z.to_nat max_requests))
    ++ repeat false (n - Z.to_nat max_requests).
Proof.
  intros Hcap Hwin.
  rewrite (acquire_all_burst max_requests time_window n now 0
             (RateLimiter.init max_requests time_window)
             eq_refl eq_refl Hwin eq_refl Hcap).
  rewrite Nat.sub_0_r. reflexivity.
Qed.

Lemma acquire_burst_witness :
  map snd (fst (RateLimiter.acquire_all (repeat (7 # 2) 15) RateLimiter.inbound_limiter))
  = repeat true (Nat.min 15 (Z.to_nat 100)) ++ repeat false (15 - Z.to_nat 100).
Proof.
  apply (acquire_burst 100 1 (7 # 2) 15).
  - lia.
  - discriminate.
Defined.

(** X3. A gate with room for at least one call admits a call that comes
    more than [time_window] seconds after every earlier call, and is left
    with that call alone in its deque. *)
Theorem acquire_after_quiet
    (max_requests : Z) (time_window now : Q) (times : list Q) :
  (1 <= max_requests)%Z ->
  Forall (fun t => t + time_window < now) times ->
  RateLimiter.acquire now
    (snd (RateLimiter.acquire_all times (RateLimiter.init max_requests time_window)))
  = (true, RateLimiter.mk max_requests time_window [now]).
Proof.
  intros Hcap Hquiet.
  pose proof (acquire_all_parameters times (RateLimiter.init max_requests time_window))
    as [Hc Hw].
  pose proof (acquire_all_incl time_window times
                (RateLimiter.init max_requests time_window) eq_refl) as Hincl.
  simpl in Hc, Hw, Hincl.
  destruct (snd (RateLimiter.acquire_all times
                   (RateLimiter.init max_requests time_window)))
    as [c w reqs].
  simpl in *. subst c w.
  unfold RateLimiter.acquire. simpl.
  assert (Hold : Forall (fun t => time_window < now - t) reqs).
  { apply Forall_forall. intros t Ht. apply Hincl in Ht.
    rewrite Forall_forall in Hquiet. specialize (Hquiet t Ht). lra. }
  rewrite (purge_all_old time_window now reqs Hold). simpl.
  assert (E : (0 >=? max_requests)%Z = false)
    by (rewrite Z.geb_leb; apply Z.leb_gt; lia).
  unfold len. simpl. rewrite E. reflexivity.
Qed.

Lemma acquire_after_quiet_witness :
  RateLimiter.acquire (5 # 2)
    (snd (RateLimiter.acquire_all [0; 0; 1; 1] (RateLimiter.init 2 1)))
  = (true, RateLimiter.mk 2 1 [5 # 2]).
Proof.
  apply (acquire_after_quiet 2 1 (5 # 2) [0; 0; 1; 1]).
  - lia.
  - repeat constructor.
Defined.

(** X4. With a clock that does not run backwards and a window that is not
    negative, the deque of a gate holds, in order, exactly the admitted calls
    that are within [time_window] seconds of the last call. *)
Theorem acquire_deque_is_window
    (max_requests : Z) (time_window : Q) (times : list Q) :
  0 <= time_window ->
  clock_monotone times = true ->
  let run := RateLimiter.acquire_all times (RateLimiter.init max_requests time_window) in
  RateLimiter.requests (snd run)
  = filter (fun t => Qle_bool (last times 0 - t) time_window)
           (admitted_times (fst run)).
Proof.
  intros Hwin Hmono run. subst run.
  destruct times as [| first later]; [reflexivity |].
  assert (Hfrom : clock_monotone_from first (first :: later) = true).
  { simpl. apply andb_true_iff. split; [| exact Hmono].
    apply Qle_bool_iff. apply Qle_refl. }
  rewrite (acquire_all_window time_window (first :: later) first []
             (RateLimiter.init max_requests time_window)
             eq_refl Hwin Hfrom (Forall_nil _) (SSorted_nil _)
             (Forall_nil _) (Forall_nil _)).
  simpl app. rewrite !last_cons. reflexivity.
Qed.

Lemma acquire_deque_is_window_witness :
  let run := RateLimiter.acquire_all [0; 0; 1 # 2; 1; 3 # 2; 2] (RateLimiter.init 2 1) in
  RateLimiter.requests (snd run) = [3 # 2; 2]
  /\ RateLimiter.requests (snd run)
     = filter (fun t => Qle_bool (last [0; 0; 1 # 2; 1; 3 # 2; 2] 0 - t) 1)
              (admitted_times (fst run)).
Proof.
  intros run. split; [reflexivity |].
  apply (acquire_deque_is_window 2 1 [0; 0; 1 # 2; 1; 3 # 2; 2]).
  - discriminate.
  - reflexivity.
Defined.

(** ** grok_client.py: the retry loop and the gating *)

Section LoopBounds.

Import GrokClient.

Variable str_to_float : string -> option Q.
Variable service : nat -> string -> attempt_outcome.
Variable text : string.

(** A turn of the loop either ends the call right after its request, or
    sleeps and goes on with the attempts that are left. *)
Lemma for_attempt_cases (attempt : Z) (later : list Z) (w : world) :
  (exists r, for_attempt str_to_float service text (attempt :: later) w
             = (r, posted text w))
  \/ (exists d, for_attempt str_to_float service text (attempt :: later) w
                = for_attempt str_to_float service text later
                    (slept d (posted text w))).
Proof.
  rewrite for_attempt_step.
  destruct (match service (posts w) text with
            | Loaded analysis => normalize str_to_float analysis
            | Failed e => inr e
            end) as [a | e].
  - left. eexists. reflexivity.
  - destruct e as [m | m | m | m | code header | m | m];
      try (destruct (attempt <? max_retries - 1)%Z;
           [right; eexists; reflexivity | left; eexists; reflexivity]).
    destruct (code =? 429)%Z; [| left; eexists; reflexivity].
    destruct header;
      [right; eexists; reflexivity | right; eexists; reflexivity
       | left; eexists; reflexivity].
Qed.

Lemma clock_slept (d : Q) (w : world) : clock w <= clock (slept d w).
Proof.
  unfold slept. simpl. destruct (Qgtb d 0) eqn:E; [| apply Qle_refl].
  apply Qgtb_true in E. lra.
Qed.

Lemma for_attempt_bounds (attempts : list Z) :
  forall w : world,
    let w' := snd (for_attempt str_to_float service text attempts w) in
    (posts w <= posts w' <= posts w + List.length attempts)%nat
    /\ (attempts <> [] -> posts w + 1 <= posts w')%nat
    /\ (exists suffix, trace w' = trace w ++ suffix)
    /\ clock w <= clock w'
    /\ _last_call_times w' = _last_call_times w.
Proof.
  induction attempts as [| attempt later IH]; intros w.
  - simpl. repeat split; try lia; try apply Qle_refl.
    + intros H. contradiction H. reflexivity.
    + exists []. rewrite app_nil_r. reflexivity.
  - cbv zeta. simpl List.length.
    destruct (for_attempt_cases attempt later w) as [[r H] | [d H]]; rewrite H.
    + simpl. rewrite posts_posted. repeat split; try lia; try apply Qle_refl.
      exists [Post text]. reflexivity.
    + specialize (IH (slept d (posted text w))). cbv zeta in IH.
      rewrite posts_slept, posts_posted in IH.
      destruct IH as (Hposts & _ & [suffix Htrace] & Hclock & Hcalls).
      repeat split; try lia.
      * exists (Post text :: Sleep d :: suffix). rewrite Htrace. simpl.
        rewrite <- !app_assoc. reflexivity.
      * eapply Qle_trans; [| exact Hclock].
        apply (clock_slept d (posted text w)).
      * rewrite Hcalls. reflexivity.
Qed.

End LoopBounds.

Section LoopTurns.

Import GrokClient.

Variable str_to_float : string -> option Q.
Variable service : nat -> string -> attempt_outcome.
Variable text : string.

(** The first two attempts go on after every outcome that [retry_wait]
    gives a wait for, and sleep that long. *)
Lemma for_attempt_retry (attempt : Z) (later : list Z) (w : world) (d : Q) :
  (attempt <? max_retries - 1)%Z = true ->
  retry_wait attempt (service (posts w) text) = Some d ->
  for_attempt str_to_float service text (attempt :: later) w
  = for_attempt str_to_float service text later (slept d (posted text w)).
Proof.
  intros Hearly Hwait. rewrite for_attempt_step.
  destruct (service (posts w) text) as [doc | e]; [discriminate Hwait |].
  destruct e as [m | m | m | m | code header | m | m]; simpl in Hwait;
    try (injection Hwait as <-; rewrite Hearly; reflexivity).
  destruct (code =? 429)%Z; [| discriminate Hwait].
  destruct header; try discriminate Hwait; injection Hwait as <-; reflexivity.
Qed.

Lemma for_attempt_loaded (attempt : Z) (later : list Z) (w : world)
    (doc : json) (a : Analysis) :
  service (posts w) text = Loaded doc ->
  normalize str_to_float doc = inl a ->
  for_attempt str_to_float service text (attempt :: later) w
  = (Return (Some a), posted text w).
Proof.
  intros Hdoc Hnorm. rewrite for_attempt_step, Hdoc, Hnorm. reflexivity.
Qed.

(** What [normalize] raises is handled by [except Exception]. *)
Lemma normalize_error_class (doc : json) (e : exn) :
  normalize str_to_float doc = inr e ->
  match e with
  | JSONDecodeError _ | HTTPStatusError _ _ => False
  | _ => True
  end.
Proof.
  assert (Hfloat : forall v x, float str_to_float v = inr x ->
                   match x with
                   | JSONDecodeError _ | HTTPStatusError _ _ => False
                   | _ => True
                   end).
  { intros v x. unfold float.
    destruct v as [| b | q | s | items | members];
      try destruct (str_to_float s);
      intros H; inversion H; exact I. }
  unfold normalize, get.
  destruct doc as [| b | q | s | items | members];
    try (intros H; inversion H; exact I).
  destruct (float str_to_float _) as [sentiment | x] eqn:E1;
    [| intros H; inversion H; subst; exact (Hfloat _ _ E1)].
  destruct (float str_to_float
              match dict_lookup "confidence" members with
              | Some v => v
              | None => JNumber (1 # 2)
              end) as [conf | x] eqn:E2;
    [| intros H; inversion H; subst; exact (Hfloat _ _ E2)].
  intros H. inversion H.
Qed.

Lemma for_attempt_wrong_shape (attempt : Z) (later : list Z) (w : world)
    (doc : json) (e : exn) :
  service (posts w) text = Loaded doc ->
  normalize str_to_float doc = inr e ->
  for_attempt str_to_float service text (attempt :: later) w
  = if (attempt <? max_retries - 1)%Z
    then for_attempt str_to_float service text later
           (slept (backoff attempt) (posted text w))
    else (Raise e, posted text w).
Proof.
  intros Hdoc Hnorm. pose proof (normalize_error_class doc e Hnorm) as Hclass.
  rewrite for_attempt_step, Hdoc, Hnorm.
  destruct e; try contradiction; reflexivity.
Qed.

End LoopTurns.

Lemma rate_limit_trace (w : GrokClient.world) :
  (exists suffix,
      GrokClient.trace (snd (GrokClient.rate_limit w)) = GrokClient.trace w ++ suffix)
  /\ GrokClient.clock w <= GrokClient.clock (snd (GrokClient.rate_limit w)).
Proof.
  rewrite rate_limit_world. cbv zeta.
  destruct (_ && _) eqn:E; simpl.
  - split; [eexists; reflexivity |].
    apply andb_true_iff in E. destruct E as [_ E]. apply Qgtb_true in E. lra.
  - split; [exists []; rewrite app_nil_r; reflexivity | apply Qle_refl].
Qed.

(** X5. One call of [analyze_conversation] never makes more than three
    requests, only adds to the record of requests and sleeps, and does not
    set the clock back. Without [GROK_KEY] it raises [ValueError] and
    touches nothing; with it, it makes at least one request. *)
Theorem analyze_conversation_bounded
    (str_to_float : string -> option Q) (GROK_API_KEY : option string)
    (service : nat -> string -> GrokClient.attempt_outcome)
    (text : string) (w : GrokClient.world) :
  let run := GrokClient.analyze_conversation str_to_float GROK_API_KEY service text w in
  (GrokClient.posts (snd run) <= GrokClient.posts w + 3)%nat
  /\ (exists suffix, GrokClient.trace (snd run) = GrokClient.trace w ++ suffix)
  /\ GrokClient.clock w <= GrokClient.clock (snd run)
  /\ (if GrokClient.key_missing GROK_API_KEY
      then run = (GrokClient.Raise
                    (GrokClient.ValueError "GROK_KEY environment variable not set"),
                  w)
      else (GrokClient.posts w + 1 <= GrokClient.posts (snd run))%nat).
Proof.
  intros run. subst run.
  destruct (GrokClient.key_missing GROK_API_KEY) eqn:Hkey.
  - unfold GrokClient.analyze_conversation. rewrite Hkey. simpl.
    repeat split; try lia; try apply Qle_refl.
    exists []. rewrite app_nil_r. reflexivity.
  - rewrite (analyze_conversation_loop str_to_float GROK_API_KEY service text Hkey).
    pose proof (for_attempt_bounds str_to_float service text [0; 1; 2]%Z
                  (snd (GrokClient.rate_limit w)))
      as (Hposts & Hone & [suffix Htrace] & Hclock & _).
    cbv zeta in *. rewrite posts_rate_limit in Hposts, Hone.
    destruct (rate_limit_trace w) as [[gate Hgate] Hgclock].
    simpl List.length in Hposts.
    repeat split; try lia.
    + exists (gate ++ suffix). rewrite Htrace, Hgate, app_assoc. reflexivity.
    + eapply Qle_trans; eassumption.
    + apply Hone. discriminate.
Qed.

(** X6. When the first [k <= 2] attempts of a call end in outcomes after
    which the loop retries, and the next request is answered with a document
    that [normalize] accepts, the caller gets the analysis of that document;
    the call made [k + 1] requests and slept after each of the first [k] for
    the time the handler of its outcome sets. *)
Theorem analyze_conversation_recovers
    (str_to_float : string -> option Q) (GROK_API_KEY : option string)
    (service : nat -> string -> GrokClient.attempt_outcome)
    (text : string) (w : GrokClient.world)
    (k : nat) (waits : nat -> Q) (doc : GrokClient.json) (a : GrokClient.Analysis) :
  GrokClient.key_missing GROK_API_KEY = false ->
  (k <= 2)%nat ->
  (forall i, (i < k)%nat ->
     retry_wait (Z.of_nat i) (service (GrokClient.posts w + i)%nat text)
     = Some (waits i)) ->
  service (GrokClient.posts w + k)%nat text = GrokClient.Loaded doc ->
  GrokClient.normalize str_to_float doc = inl a ->
  let run := GrokClient.analyze_conversation str_to_float GROK_API_KEY service text w in
  fst run = GrokClient.Return (Some a)
  /\ GrokClient.trace (snd run)
     = GrokClient.trace (snd (GrokClient.rate_limit w))
       ++ retried_trace text (map waits (seq 0 k)).
Proof.
  intros Hkey Hk Hretry Hdoc Hnorm run. subst run.
  rewrite (analyze_conversation_loop str_to_float GROK_API_KEY service text Hkey).
  rewrite <- (posts_rate_limit w) in Hretry, Hdoc.
  remember (snd (GrokClient.rate_limit w)) as w0 eqn:Ew0. clear Ew0.
  destruct k as [| [| [| k]]]; try lia.
  - rewrite Nat.add_0_r in Hdoc.
    rewrite (for_attempt_loaded str_to_float service text 0%Z [1; 2]%Z w0 doc a
               Hdoc Hnorm).
    split; reflexivity.
  - pose proof (Hretry 0%nat ltac:(lia)) as H0. rewrite Nat.add_0_r in H0.
    rewrite (for_attempt_retry str_to_float service text 0%Z [1; 2]%Z w0
               (waits 0%nat) eq_refl H0).
    set (w1 := GrokClient.slept (waits 0%nat) (GrokClient.posted text w0)).
    assert (P1 : GrokClient.posts w1 = (GrokClient.posts w0 + 1)%nat)
      by (unfold w1; rewrite posts_slept, posts_posted; lia).
    rewrite <- P1 in Hdoc.
    rewrite (for_attempt_loaded str_to_float service text 1%Z [2]%Z w1 doc a
               Hdoc Hnorm).
    split; [reflexivity |]. simpl. rewrite <- !app_assoc. reflexivity.
  - pose proof (Hretry 0%nat ltac:(lia)) as H0. rewrite Nat.add_0_r in H0.
    pose proof (Hretry 1%nat ltac:(lia)) as H1.
    rewrite (for_attempt_retry str_to_float service text 0%Z [1; 2]%Z w0
               (waits 0%nat) eq_refl H0).
    set (w1 := GrokClient.slept (waits 0%nat) (GrokClient.posted text w0)).
    assert (P1 : GrokClient.posts w1 = (GrokClient.posts w0 + 1)%nat)
      by (unfold w1; rewrite posts_slept, posts_posted; lia).
    rewrite <- P1 in H1.
    rewrite (for_attempt_retry str_to_float service text 1%Z [2]%Z w1
               (waits 1%nat) eq_refl H1).
    set (w2 := GrokClient.slept (waits 1%nat) (GrokClient.posted text w1)).
    assert (P2 : GrokClient.posts w2 = (GrokClient.posts w0 + 2)%nat)
      by (unfold w2; rewrite posts_slept, posts_posted; lia).
    rewrite <- P2 in Hdoc.
    rewrite (for_attempt_loaded str_to_float service text 2%Z []%Z w2 doc a
               Hdoc Hnorm).
    split; [reflexivity |]. simpl. rewrite <- !app_assoc. reflexivity.
Qed.

Lemma analyze_conversation_recovers_witness :
  let service := fun (n : nat) (_ : string) =>
    match n with
    | O => GrokClient.Failed (GrokClient.RequestError "connection reset")
    | S O => GrokClient.rate_limited (Some 3%Z)
    | _ => GrokClient.Loaded
             (GrokClient.JObject
                [("sentiment_score"%string, GrokClient.JNumber (-1 # 2));
                 ("clusters"%string,
                  GrokClient.JArray [GrokClient.JString "delivery_problems"])])
    end in
  let run :=
    GrokClient.analyze_conversation (fun _ => None) (Some "key"%string) service
      "late again"%string (GrokClient.mkWorld 0 [] []) in
  fst run
  = GrokClient.Return
      (Some (GrokClient.mkAnalysis (-1 # 2)
               (GrokClient.JArray [GrokClient.JString "delivery_problems"])
               (1 # 2) (GrokClient.JString "Analysis completed")))
  /\ GrokClient.trace (snd run)
     = [GrokClient.Post "late again"%string; GrokClient.Sleep 1;
        GrokClient.Post "late again"%string; GrokClient.Sleep 3;
        GrokClient.Post "late again"%string].
Proof.
  intros service.
  apply (analyze_conversation_recovers (fun _ => None) (Some "key"%string) service
           "late again"%string (GrokClient.mkWorld 0 [] []) 2
           (fun i => match i with O => 1 | _ => 3 end)
           (GrokClient.JObject
              [("sentiment_score"%string, GrokClient.JNumber (-1 # 2));
               ("clusters"%string,
                GrokClient.JArray [GrokClient.JString "delivery_problems"])])).
  - reflexivity.
  - lia.
  - intros [| [| i]] Hi; [reflexivity | reflexivity | lia].
  - reflexivity.
  - reflexivity.
Defined.

(** X7. A response that [json.loads] reads but [normalize] rejects (a
    document that is not an object, a score that [float] cannot read)
    does not get the parse fallback: when every request is answered with it,
    the exception of [normalize] reaches the caller after three requests with
    sleeps of 1 s and 2 s between them. *)
Theorem analyze_conversation_wrong_shape
    (str_to_float : string -> option Q) (GROK_API_KEY : option string)
    (service : nat -> string -> GrokClient.attempt_outcome)
    (text : string) (w : GrokClient.world) (doc : GrokClient.json) (e : GrokClient.exn) :
  GrokClient.key_missing GROK_API_KEY = false ->
  (forall n, service n text = GrokClient.Loaded doc) ->
  GrokClient.normalize str_to_float doc = inr e ->
  let run := GrokClient.analyze_conversation str_to_float GROK_API_KEY service text w in
  fst run = GrokClient.Raise e
  /\ GrokClient.trace (snd run)
     = GrokClient.trace (snd (GrokClient.rate_limit w))
       ++ [GrokClient.Post text; GrokClient.Sleep 1; GrokClient.Post text;
           GrokClient.Sleep 2; GrokClient.Post text].
Proof.
  intros Hkey Hdoc Hnorm run. subst run.
  rewrite (analyze_conversation_loop str_to_float GROK_API_KEY service text Hkey).
  rewrite (for_attempt_wrong_shape str_to_float service text 0%Z [1; 2]%Z _ doc e
             (Hdoc _) Hnorm).
  change (0 <? GrokClient.max_retries - 1)%Z with true. cbv iota.
  rewrite (for_attempt_wrong_shape str_to_float service text 1%Z [2]%Z _ doc e
             (Hdoc _) Hnorm).
  change (1 <? GrokClient.max_retries - 1)%Z with true. cbv iota.
  rewrite (for_attempt_wrong_shape str_to_float service text 2%Z []%Z _ doc e
             (Hdoc _) Hnorm).
  change (2 <? GrokClient.max_retries - 1)%Z with false. cbv iota.
  split; [reflexivity | apply trace_three_posts].
Qed.

Lemma analyze_conversation_wrong_shape_witness :
  let run :=
    GrokClient.analyze_conversation (fun _ => None) (Some "key"%string)
      (fun _ _ => GrokClient.Loaded
                    (GrokClient.JArray [GrokClient.JString "praise"]))
      "hello"%string (GrokClient.mkWorld 0 [] []) in
  fst run
  = GrokClient.Raise (GrokClient.AttributeError "object has no attribute 'get'")
  /\ GrokClient.trace (snd run)
     = [GrokClient.Post "hello"%string; GrokClient.Sleep 1;
        GrokClient.Post "hello"%string; GrokClient.Sleep 2;
        GrokClient.Post "hello"%string].
Proof.
  apply (analyze_conversation_wrong_shape (fun _ => None) (Some "key"%string)
           (fun _ _ => GrokClient.Loaded
                         (GrokClient.JArray [GrokClient.JString "praise"]))
           "hello"%string (GrokClient.mkWorld 0 [] [])
           (GrokClient.JArray [GrokClient.JString "praise"]));
    reflexivity.
Defined.

(** X8. When ten or more recorded calls are less than a second old, the
    gating of [analyze_conversation] always sleeps (the wait it computes is
    positive), until the oldest of them is exactly one second old, and then
    records the call at that time on top of all of them. *)
Theorem rate_limit_waits_for_oldest (w : GrokClient.world) :
  let kept :=
    filter (fun t => Qltb (GrokClient.clock w - t) 1) (GrokClient._last_call_times w) in
  (10 <= len kept)%Z ->
  exists oldest later,
    kept = oldest :: later
    /\ 0 < 1 - (GrokClient.clock w - oldest)
    /\ GrokClient.clock w + (1 - (GrokClient.clock w - oldest)) == oldest + 1
    /\ GrokClient.rate_limit w
       = (tt,
          GrokClient.mkWorld
            (GrokClient.clock w + (1 - (GrokClient.clock w - oldest)))
            (kept ++ [GrokClient.clock w + (1 - (GrokClient.clock w - oldest))])
            (GrokClient.trace w
               ++ [GrokClient.Sleep (1 - (GrokClient.clock w - oldest))])).
Proof.
  intros kept Hfull.
  rewrite rate_limit_world. cbv zeta. fold kept.
  destruct kept as [| oldest later] eqn:Ekept; [unfold len in Hfull; simpl in Hfull; lia |].
  exists oldest, later.
  assert (Hin : In oldest (filter (fun t => Qltb (GrokClient.clock w - t) 1)
                             (GrokClient._last_call_times w))).
  { fold kept. rewrite Ekept. left. reflexivity. }
  apply filter_In in Hin. destruct Hin as [_ Hyoung]. apply Qltb_true in Hyoung.
  assert (Hpos : 0 < 1 - (GrokClient.clock w - oldest)) by lra.
  repeat split; try assumption; [lra |].
  simpl hd.
  assert (E1 : (len (oldest :: later) >=? 10)%Z = true)
    by (rewrite Z.geb_leb; apply Z.leb_le; exact Hfull).
  apply Qgtb_true in Hpos. rewrite E1, Hpos. reflexivity.
Qed.

Lemma rate_limit_waits_for_oldest_witness :
  let w := GrokClient.mkWorld 1 (0 :: repeat (1 # 2) 10) [] in
  exists oldest later,
    filter (fun t => Qltb (GrokClient.clock w - t) 1) (GrokClient._last_call_times w)
    = oldest :: later
    /\ 0 < 1 - (GrokClient.clock w - oldest)
    /\ GrokClient.clock w + (1 - (GrokClient.clock w - oldest)) == oldest + 1
    /\ GrokClient.rate_limit w
       = (tt,
          GrokClient.mkWorld
            (GrokClient.clock w + (1 - (GrokClient.clock w - oldest)))
            (filter (fun t => Qltb (GrokClient.clock w - t) 1)
                    (GrokClient._last_call_times w)
             ++ [GrokClient.clock w + (1 - (GrokClient.clock w - oldest))])
            (GrokClient.trace w
               ++ [GrokClient.Sleep (1 - (GrokClient.clock w - oldest))])).
Proof.
  intros w.
  apply (rate_limit_waits_for_oldest w). vm_compute. discriminate.
Defined.

(** ** batch_processor.py: stopping, and batches without a key *)

Lemma cancel_twice (handle : nat) (l : list BatchProcessor.task_state) :
  BatchProcessor.cancel handle (BatchProcessor.cancel handle l)
  = BatchProcessor.cancel handle l.
Proof.
  revert handle. induction l as [| first rest IH]; intros handle; [reflexivity |].
  destruct handle as [| h]; simpl; [reflexivity |].
  rewrite IH. reflexivity.
Qed.

Lemma cancel_length (handle : nat) (l : list BatchProcessor.task_state) :
  List.length (BatchProcessor.cancel handle l) = List.length l.
Proof.
  revert handle. induction l as [| first rest IH]; intros handle; [reflexivity |].
  destruct handle as [| h]; simpl; [reflexivity |].
  rewrite IH. reflexivity.
Qed.

(** X9. After any sequence of [start] and [stop] calls on a new processor,
    [stop] leaves it not running with no processing loop alive; a second
    [stop] changes nothing; and a [start] after it brings exactly one loop to
    life, as a new task of the event loop. *)
Theorem stop_ends_the_loop (batch_size : Z) (calls : list BatchProcessor.call) :
  let s := BatchProcessor.run calls (BatchProcessor.init batch_size) in
  BatchProcessor.running (BatchProcessor.self (BatchProcessor.stop s)) = false
  /\ BatchProcessor.live_loops (BatchProcessor.stop s) = 0%nat
  /\ BatchProcessor.stop (BatchProcessor.stop s) = BatchProcessor.stop s
  /\ BatchProcessor.live_loops (BatchProcessor.start (BatchProcessor.stop s)) = 1%nat
  /\ BatchProcessor.task (BatchProcessor.self (BatchProcessor.start (BatchProcessor.stop s)))
     = Some (List.length (BatchProcessor.tasks s)).
Proof.
  intros s.
  assert (Hs : BatchProcessor.consistent s)
    by (apply consistent_run, consistent_init).
  assert (Hstop : BatchProcessor.consistent (BatchProcessor.stop s))
    by (apply (consistent_step s BatchProcessor.Stop Hs)).
  assert (Hstart : BatchProcessor.consistent
                     (BatchProcessor.start (BatchProcessor.stop s)))
    by (apply (consistent_step _ BatchProcessor.Start Hstop)).
  apply consistent_live_loops in Hstop. apply consistent_live_loops in Hstart.
  split; [reflexivity |]. split; [exact Hstop |].
  split.
  - unfold BatchProcessor.stop. simpl.
    destruct (BatchProcessor.task (BatchProcessor.self s)) as [handle |];
      [rewrite cancel_twice |]; reflexivity.
  - split; [exact Hstart |].
    unfold BatchProcessor.start, BatchProcessor.stop. simpl.
    destruct (BatchProcessor.task (BatchProcessor.self s)) as [handle |];
      [rewrite cancel_length |]; reflexivity.
Qed.

Section BatchShape.

Import GrokClient BatchProcessor.

Variable str_to_float : string -> option Q.
Variable GROK_API_KEY : option string.
Variable service : nat -> string -> attempt_outcome.

Lemma process_single_resolved (db : Session.t) (conv : Conversation.t) (w : world) :
  let run := _process_single str_to_float GROK_API_KEY service db conv w in
  resolved conv (snd (fst run))
  /\ Session.stored (fst (fst run)) = Session.stored db
  /\ map Insight.conversation_id (Session.new (fst (fst run)))
     = map Insight.conversation_id (Session.new db)
       ++ (if has_status completed (snd (fst run))
           then [Conversation.id conv] else []).
Proof.
  cbv zeta. rewrite process_single_outcome. unfold resolved.
  destruct (fst (analyze_conversation str_to_float GROK_API_KEY service
                   (Conversation.text conv) w)) as [[analysis |] | e]; simpl.
  - split; [left; reflexivity |]. split; [reflexivity |].
    rewrite map_app. reflexivity.
  - split; [right; reflexivity |]. split; [reflexivity |].
    rewrite app_nil_r. reflexivity.
  - split; [right; reflexivity |]. split; [reflexivity |].
    rewrite app_nil_r. reflexivity.
Qed.

Lemma gather_resolved (conversations : list Conversation.t) :
  forall (db : Session.t) (w : world),
    let run := gather str_to_float GROK_API_KEY service db conversations w in
    Forall2 resolved conversations (snd (fst run))
    /\ Session.stored (fst (fst run)) = Session.stored db
    /\ map Insight.conversation_id (Session.new (fst (fst run)))
       = map Insight.conversation_id (Session.new db)
         ++ map Conversation.id (filter (has_status completed) (snd (fst run))).
Proof.
  induction conversations as [| conv rest IH]; intros db w; cbv zeta; simpl.
  - unfold ret. simpl. rewrite app_nil_r. repeat split. constructor.
  - unfold bind.
    pose proof (process_single_resolved db conv w) as Hsingle. cbv zeta in Hsingle.
    destruct (_process_single str_to_float GROK_API_KEY service db conv w)
      as [[db1 conv1] w1].
    cbn [fst snd] in Hsingle. destruct Hsingle as [Hres [Hstored Hnew]].
    specialize (IH db1 w1). cbv zeta in IH.
    destruct (gather str_to_float GROK_API_KEY service db1 rest w1)
      as [[db2 rest1] w2].
    cbn [fst snd] in *. destruct IH as [IHres [IHstored IHnew]].
    unfold ret. cbn [fst snd filter]. split; [constructor; assumption |].
    split; [congruence |].
    rewrite IHnew, Hnew, <- app_assoc.
    destruct (has_status completed conv1) eqn:E; cbn [map app].
    + f_equal. f_equal.
      destruct Hres as [-> | ->]; reflexivity.
    + reflexivity.
Qed.

Lemma set_status_twice (conv : Conversation.t) (s1 s2 : Status) :
  Conversation.set_status (Conversation.set_status conv s1) s2
  = Conversation.set_status conv s2.
Proof. reflexivity. Qed.

(** A batch started on a new session. *)
Lemma process_batch_resolved (batch : list Conversation.t) (w : world) :
  let run :=
    _process_batch str_to_float GROK_API_KEY service Session.empty batch w in
  Forall2 resolved batch (snd (fst run))
  /\ map Insight.conversation_id (Session.stored (fst (fst run)))
     = map Conversation.id (filter (has_status completed) (snd (fst run))).
Proof.
  cbv zeta. unfold _process_batch, bind.
  pose proof (gather_resolved
                (map (fun conv => Conversation.set_status conv processing) batch)
                Session.empty w) as H.
  cbv zeta in H.
  destruct (gather str_to_float GROK_API_KEY service Session.empty _ w)
    as [[db1 done] w1].
  simpl in *. destruct H as [Hres [Hstored Hnew]].
  unfold ret. simpl. rewrite Hstored. simpl. split; [| exact Hnew].
  clear - Hres. revert done Hres.
  induction batch as [| conv rest IH]; intros done Hres; simpl in Hres;
    inversion Hres as [| ? c' ? rest' Hc Hrest]; subst; constructor.
  - unfold resolved in *. rewrite !set_status_twice in Hc. exact Hc.
  - apply IH. exact Hrest.
Qed.

(** Without a key nothing is asked of the service. *)
Lemma gather_without_key (conversations : list Conversation.t) :
  key_missing GROK_API_KEY = true ->
  forall (db : Session.t) (w : world),
    gather str_to_float GROK_API_KEY service db conversations w
    = ((db, map (fun conv => Conversation.set_status conv failed) conversations), w).
Proof.
  intros Hkey. induction conversations as [| conv rest IH]; intros db w; simpl;
    [reflexivity |].
  unfold bind. rewrite process_single_outcome.
  unfold analyze_conversation. rewrite Hkey. simpl.
  rewrite IH. reflexivity.
Qed.

End BatchShape.

(** X10. Without [GROK_KEY] a batch asks nothing of the service: every
    conversation ends failed, no insight is added, the clock and the record
    of requests stay as they were, and the session is still committed. *)
Theorem process_batch_without_key
    (str_to_float : string -> option Q) (GROK_API_KEY : option string)
    (service : nat -> string -> GrokClient.attempt_outcome)
    (db : Session.t) (conversations : list Conversation.t) (w : GrokClient.world) :
  GrokClient.key_missing GROK_API_KEY = true ->
  BatchProcessor._process_batch str_to_float GROK_API_KEY service db conversations w
  = ((Session.commit db,
      map (fun conv => Conversation.set_status conv failed) conversations),
     w).
Proof.
  intros Hkey. unfold BatchProcessor._process_batch, GrokClient.bind.
  rewrite (gather_without_key str_to_float GROK_API_KEY service _ Hkey).
  unfold GrokClient.ret. rewrite map_map. reflexivity.
Qed.

Lemma process_batch_without_key_witness :
  BatchProcessor._process_batch (fun _ => None) None
    (fun _ _ => GrokClient.Loaded (GrokClient.JObject []))
    Session.empty
    [Conversation.mk "c0" "hello" 0 pending; Conversation.mk "c1" "bye" 1 pending]
    (GrokClient.mkWorld 0 [] [])
  = ((Session.mk [] [] 1,
      [Conversation.mk "c0" "hello" 0 failed; Conversation.mk "c1" "bye" 1 failed]),
     GrokClient.mkWorld 0 [] []).
Proof.
  apply (process_batch_without_key (fun _ => None) None
           (fun _ _ => GrokClient.Loaded (GrokClient.JObject []))
           Session.empty
           [Conversation.mk "c0" "hello" 0 pending; Conversation.mk "c1" "bye" 1 pending]
           (GrokClient.mkWorld 0 [] [])).
  reflexivity.
Defined.

(** ** batch_processor.py: the cycles of [_process_loop] *)

Section Rows.

Import ProcessLoop.

Lemma find_by_id_some (id : string) (rows : list Conversation.t) (c : Conversation.t) :
  find_by_id id rows = Some c -> In c rows /\ Conversation.id c = id.
Proof.
  induction rows as [| row rest IH]; simpl; [discriminate |].
  destruct (String.eqb (Conversation.id row) id) eqn:E.
  - intros H. injection H as <-. apply String.eqb_eq in E. split; [left |]; tauto.
  - intros H. destruct (IH H) as [Hin Hid]. split; [right |]; assumption.
Qed.

Lemma find_by_id_none (id : string) (rows : list Conversation.t) :
  find_by_id id rows = None <-> ~ In id (map Conversation.id rows).
Proof.
  induction rows as [| row rest IH]; simpl; [tauto |].
  destruct (String.eqb (Conversation.id row) id) eqn:E.
  - apply String.eqb_eq in E. split; [discriminate | intros H; exfalso; tauto].
  - apply String.eqb_neq in E. rewrite IH. tauto.
Qed.

Lemma ids_injective (rows : list Conversation.t) (a b : Conversation.t) :
  NoDup (map Conversation.id rows) ->
  In a rows -> In b rows -> Conversation.id a = Conversation.id b -> a = b.
Proof.
  induction rows as [| row rest IH]; simpl; [tauto |].
  intros Hnd Ha Hb Hid. inversion Hnd as [| ? ? Hnotin Hrest]; subst.
  destruct Ha as [-> | Ha]; destruct Hb as [-> | Hb]; try reflexivity.
  - exfalso. apply Hnotin. rewrite Hid. apply in_map. exact Hb.
  - exfalso. apply Hnotin. rewrite <- Hid. apply in_map. exact Ha.
  - apply IH; assumption.
Qed.

Lemma resolved_id (before after : Conversation.t) :
  resolved before after -> Conversation.id after = Conversation.id before.
Proof. intros [-> | ->]; reflexivity. Qed.

Lemma resolved_not_pending (before after : Conversation.t) :
  resolved before after ->
  BatchProcessor.has_status pending after = false
  /\ BatchProcessor.has_status processing after = false.
Proof. intros [-> | ->]; split; reflexivity. Qed.

Lemma resolved_ids (batch done : list Conversation.t) :
  Forall2 resolved batch done ->
  map Conversation.id done = map Conversation.id batch.
Proof.
  induction 1 as [| c c' batch done Hc _ IH]; simpl; [reflexivity |].
  rewrite (resolved_id c c' Hc), IH. reflexivity.
Qed.

(** In a batch of distinct conversations, each is found again by its key. *)
Lemma find_resolved (batch done : list Conversation.t) (c : Conversation.t) :
  Forall2 resolved batch done ->
  NoDup (map Conversation.id batch) ->
  In c batch ->
  exists c', find_by_id (Conversation.id c) done = Some c' /\ resolved c c'.
Proof.
  induction 1 as [| b b' batch done Hb _ IH]; simpl; [tauto |].
  intros Hnd Hin. inversion Hnd as [| ? ? Hnotin Hrest]; subst.
  rewrite (resolved_id b b' Hb).
  destruct Hin as [-> | Hin].
  - rewrite String.eqb_refl. exists b'. split; [reflexivity | exact Hb].
  - destruct (String.eqb (Conversation.id b) (Conversation.id c)) eqn:E.
    + apply String.eqb_eq in E. exfalso. apply Hnotin. rewrite E.
      apply in_map. exact Hin.
    + apply IH; assumption.
Qed.

Lemma NoDup_ids_filter (P : Conversation.t -> bool) (rows : list Conversation.t) :
  NoDup (map Conversation.id rows) ->
  NoDup (map Conversation.id (filter P rows)).
Proof.
  induction rows as [| row rest IH]; simpl; [constructor |].
  intros Hnd. inversion Hnd as [| ? ? Hnotin Hrest]; subst.
  destruct (P row); simpl; [| apply IH; exact Hrest].
  constructor; [| apply IH; exact Hrest].
  intros Hin. apply Hnotin. apply in_map_iff in Hin.
  destruct Hin as [c [Hid Hc]]. apply filter_In in Hc. destruct Hc as [Hc _].
  rewrite <- Hid. apply in_map. exact Hc.
Qed.

Lemma NoDup_ids_firstn (n : nat) (rows : list Conversation.t) :
  NoDup (map Conversation.id rows) ->
  NoDup (map Conversation.id (firstn n rows)).
Proof.
  intros Hnd. rewrite <- (firstn_skipn n rows), map_app in Hnd.
  apply NoDup_app_remove_r in Hnd. exact Hnd.
Qed.

Lemma fetch_pending_facts (batch_size : Z) (rows : list Conversation.t) :
  NoDup (map Conversation.id rows) ->
  NoDup (map Conversation.id (fetch_pending batch_size rows))
  /\ (forall c, In c (fetch_pending batch_size rows) ->
        In c rows /\ Conversation.status c = pending).
Proof.
  intros Hnd. unfold fetch_pending. split.
  - apply NoDup_ids_firstn, NoDup_ids_filter. exact Hnd.
  - intros c Hin.
    assert (Hin' : In c (filter (BatchProcessor.has_status pending) rows)).
    { rewrite <- (firstn_skipn (Z.to_nat batch_size)). apply in_or_app. left.
      exact Hin. }
    clear Hin. rename Hin' into Hin. apply filter_In in Hin.
    destruct Hin as [Hin Hp]. split; [exact Hin |].
    unfold BatchProcessor.has_status in Hp.
    destruct (Conversation.status c); try discriminate. reflexivity.
Qed.

(** The rows that a batch does not hold, among distinct rows. *)
Lemma filter_not_in_firstn (n : nat) (rows : list Conversation.t) :
  NoDup (map Conversation.id rows) ->
  filter (fun row =>
            match find_by_id (Conversation.id row) (firstn n rows) with
            | Some _ => false
            | None => true
            end) rows
  = skipn n rows.
Proof.
  revert n. induction rows as [| row rest IH]; intros n Hnd.
  - destruct n; reflexivity.
  - inversion Hnd as [| ? ? Hnotin Hrest]; subst.
    destruct n as [| n].
    + simpl firstn. simpl skipn.
      transitivity (filter (fun _ : Conversation.t => true) (row :: rest)).
      * apply filter_ext. reflexivity.
      * clear. induction (row :: rest) as [| x l IHl]; simpl; [| rewrite IHl];
          reflexivity.
    + simpl firstn. simpl skipn. simpl filter. rewrite String.eqb_refl.
      rewrite <- (IH n Hrest). apply filter_ext_in.
      intros r Hr. simpl.
      destruct (String.eqb (Conversation.id row) (Conversation.id r)) eqn:E;
        [| reflexivity].
      apply String.eqb_eq in E. exfalso. apply Hnotin. rewrite E.
      apply in_map. exact Hr.
Qed.

Lemma resolved_in_right (batch done : list Conversation.t) (c' : Conversation.t) :
  Forall2 resolved batch done ->
  In c' done ->
  exists c, In c batch /\ resolved c c'.
Proof.
  induction 1 as [| b b' batch done Hb _ IH]; simpl; [tauto |].
  intros [<- | Hin].
  - exists b. split; [left; reflexivity | exact Hb].
  - destruct (IH Hin) as [c [Hc Hres]]. exists c. split; [right |]; assumption.
Qed.

End Rows.

Section WriteBack.

Import ProcessLoop.

Variable batch_size : Z.
Variable rows done : list Conversation.t.

Hypothesis distinct : NoDup (map Conversation.id rows).
Hypothesis batch_resolved : Forall2 resolved (fetch_pending batch_size rows) done.

Lemma Forall2_in_right (c' : Conversation.t) :
  In c' done ->
  exists c, In c (fetch_pending batch_size rows) /\ resolved c c'.
Proof. apply resolved_in_right. exact batch_resolved. Qed.

(** What the commit does to one row of the table. *)
Lemma write_back_row (row : Conversation.t) :
  In row rows ->
  match find_by_id (Conversation.id row) done with
  | Some c' => Conversation.status row = pending /\ resolved row c'
  | None => ~ In row (fetch_pending batch_size rows)
  end.
Proof.
  intros Hrow.
  destruct (fetch_pending_facts batch_size rows distinct) as [Hnd Hbatch].
  destruct (find_by_id (Conversation.id row) done) as [c' |] eqn:E.
  - apply find_by_id_some in E. destruct E as [Hin Hid].
    destruct (Forall2_in_right c' Hin) as [c [Hc Hres]].
    destruct (Hbatch c Hc) as [Hcrows Hpending].
    assert (c = row).
    { apply (ids_injective rows); try assumption.
      rewrite <- Hid. symmetry. apply resolved_id. exact Hres. }
    subst c. split; assumption.
  - intros Hin.
    destruct (find_resolved _ _ row batch_resolved Hnd Hin) as [c' [Hfind _]].
    congruence.
Qed.

Lemma write_back_ids :
  map Conversation.id (write_back done rows) = map Conversation.id rows.
Proof.
  unfold write_back. rewrite map_map. apply map_ext_in.
  intros row Hrow. pose proof (write_back_row row Hrow) as H.
  destruct (find_by_id (Conversation.id row) done) as [c' |]; [| reflexivity].
  apply resolved_id. tauto.
Qed.

Lemma write_back_rows :
  Forall2 (fun row row' =>
             row' = row \/ (Conversation.status row = pending /\ resolved row row'))
          rows (write_back done rows).
Proof.
  unfold write_back.
  assert (H : forall row, In row rows ->
                match find_by_id (Conversation.id row) done with
                | Some c' => Conversation.status row = pending /\ resolved row c'
                | None => True
                end).
  { intros row Hrow. pose proof (write_back_row row Hrow) as H.
    destruct (find_by_id (Conversation.id row) done); [exact H | exact I]. }
  clear distinct batch_resolved.
  induction rows as [| row rest IH]; simpl; constructor.
  - specialize (H row (or_introl eq_refl)).
    destruct (find_by_id (Conversation.id row) done); [right; exact H | left; reflexivity].
  - apply IH. intros r Hr. apply H. right. exact Hr.
Qed.

Lemma count_status_map_rows (s : Status) (f : Conversation.t -> Conversation.t)
    (g : Conversation.t -> bool) (l : list Conversation.t) :
  (forall row, In row l -> BatchProcessor.has_status s (f row) = g row) ->
  BatchProcessor.count_status s (map f l) = List.length (filter g l).
Proof.
  unfold BatchProcessor.count_status.
  induction l as [| row rest IH]; intros H; simpl; [reflexivity |].
  rewrite (H row (or_introl eq_refl)).
  destruct (g row); simpl; rewrite IH; try reflexivity;
    intros r Hr; apply H; right; exact Hr.
Qed.

Lemma filter_and (f g : Conversation.t -> bool) (l : list Conversation.t) :
  filter (fun x => f x && g x) l = filter g (filter f l).
Proof.
  induction l as [| x l IH]; simpl; [reflexivity |].
  destruct (f x); simpl; [destruct (g x) |]; rewrite IH; reflexivity.
Qed.

Lemma write_back_pending :
  BatchProcessor.count_status pending (write_back done rows)
  = (BatchProcessor.count_status pending rows - Z.to_nat batch_size)%nat.
Proof.
  unfold write_back.
  rewrite (count_status_map_rows pending _
             (fun row => BatchProcessor.has_status pending row
                         && match find_by_id (Conversation.id row)
                                  (firstn (Z.to_nat batch_size)
                                     (filter (BatchProcessor.has_status pending) rows))
                            with
                            | Some _ => false
                            | None => true
                            end)).
  - rewrite filter_and.
    rewrite (filter_not_in_firstn (Z.to_nat batch_size)
               (filter (BatchProcessor.has_status pending) rows)
               (NoDup_ids_filter _ rows distinct)).
    rewrite length_skipn. reflexivity.
  - intros row Hrow. pose proof (write_back_row row Hrow) as H.
    fold (fetch_pending batch_size rows).
    destruct (find_by_id (Conversation.id row) done) as [c' |] eqn:E.
    + destruct H as [Hp Hres].
      destruct (resolved_not_pending row c' Hres) as [Hnp _]. rewrite Hnp.
      assert (Hfound : find_by_id (Conversation.id row) (fetch_pending batch_size rows)
                       <> None).
      { rewrite find_by_id_none, <- (resolved_ids _ _ batch_resolved).
        intros Hnot. apply Hnot. apply find_by_id_some in E.
        destruct E as [Hin Hid]. rewrite <- Hid. apply in_map. exact Hin. }
      destruct (find_by_id (Conversation.id row) (fetch_pending batch_size rows));
        [rewrite andb_false_r; reflexivity | contradiction Hfound; reflexivity].
    + assert (Hnone : find_by_id (Conversation.id row) (fetch_pending batch_size rows)
                      = None).
      { rewrite find_by_id_none, <- (resolved_ids _ _ batch_resolved).
        apply find_by_id_none. exact E. }
      rewrite Hnone, andb_true_r. reflexivity.
Qed.

Lemma write_back_processing :
  BatchProcessor.count_status processing (write_back done rows)
  = BatchProcessor.count_status processing rows.
Proof.
  unfold write_back.
  rewrite (count_status_map_rows processing _ (BatchProcessor.has_status processing));
    [reflexivity |].
  intros row Hrow. pose proof (write_back_row row Hrow) as H.
  destruct (find_by_id (Conversation.id row) done) as [c' |]; [| reflexivity].
  destruct H as [Hp Hres].
  destruct (resolved_not_pending row c' Hres) as [_ Hnp]. rewrite Hnp.
  unfold BatchProcessor.has_status. rewrite Hp. reflexivity.
Qed.

End WriteBack.

Section Cycles.

Import GrokClient ProcessLoop.

Variable str_to_float : string -> option Q.
Variable GROK_API_KEY : option string.
Variable service : nat -> string -> attempt_outcome.

Local Abbreviation process_batch :=
  (BatchProcessor._process_batch str_to_float GROK_API_KEY service Session.empty).
Local Abbreviation turn := (cycle str_to_float GROK_API_KEY service).
Local Abbreviation turns := (_process_loop str_to_float GROK_API_KEY service).

(** The tables after a cycle. *)
Lemma cycle_database (fault : store_fault) (self : BatchProcessor.t)
    (db : database) (w : world) :
  fst (turn fault self db w)
  = match fault, fetch_pending (BatchProcessor.batch_size self) (conversations db) with
    | NoFault, (_ :: _) as batch =>
        mkDatabase
          (write_back (snd (fst (process_batch batch w))) (conversations db))
          (insights db ++ Session.stored (fst (fst (process_batch batch w))))
    | _, _ => db
    end.
Proof.
  unfold cycle.
  destruct fault;
    destruct (fetch_pending (BatchProcessor.batch_size self) (conversations db))
      as [| conv batch]; try reflexivity;
    unfold bind;
    destruct (process_batch (conv :: batch) w) as [[session done] w1]; reflexivity.
Qed.

(** The world after a cycle: the batch, if there was one, then one sleep. *)
Lemma cycle_world (fault : store_fault) (self : BatchProcessor.t)
    (db : database) (w : world) :
  snd (turn fault self db w)
  = match fault, fetch_pending (BatchProcessor.batch_size self) (conversations db) with
    | QueryFails, _ => slept 5 w
    | _, [] => slept 5 w
    | NoFault, batch => slept 1 (snd (process_batch batch w))
    | CommitFails, batch => slept 5 (snd (process_batch batch w))
    end.
Proof.
  unfold cycle.
  destruct fault;
    destruct (fetch_pending (BatchProcessor.batch_size self) (conversations db))
      as [| conv batch]; try reflexivity;
    unfold bind;
    destruct (process_batch (conv :: batch) w) as [[session done] w1]; reflexivity.
Qed.

Lemma no_pending_no_batch (batch_size : Z) (rows : list Conversation.t) :
  BatchProcessor.count_status pending rows = 0%nat ->
  fetch_pending batch_size rows = [].
Proof.
  unfold BatchProcessor.count_status, fetch_pending. intros H.
  apply length_zero_iff_nil in H. rewrite H. apply firstn_nil.
Qed.

(** One fault-free cycle over distinct rows. *)
Lemma cycle_rows (self : BatchProcessor.t) (db : database) (w : world) :
  NoDup (map Conversation.id (conversations db)) ->
  let rows := conversations db in
  let rows' := conversations (fst (turn NoFault self db w)) in
  map Conversation.id rows' = map Conversation.id rows
  /\ Forall2 (fun row row' =>
                row' = row
                \/ (Conversation.status row = pending /\ resolved row row'))
             rows rows'
  /\ BatchProcessor.count_status pending rows'
     = (BatchProcessor.count_status pending rows
        - Z.to_nat (BatchProcessor.batch_size self))%nat
  /\ BatchProcessor.count_status processing rows'
     = BatchProcessor.count_status processing rows.
Proof.
  intros Hnd rows rows'. subst rows rows'. rewrite cycle_database.
  destruct (fetch_pending (BatchProcessor.batch_size self) (conversations db))
    as [| conv batch] eqn:Ebatch.
  - repeat split.
    + clear. induction (conversations db) as [| row rest IH]; constructor;
        [left; reflexivity | exact IH].
    + unfold fetch_pending in Ebatch.
      unfold BatchProcessor.count_status.
      assert (Hlen : List.length
                       (firstn (Z.to_nat (BatchProcessor.batch_size self))
                          (filter (BatchProcessor.has_status pending) (conversations db)))
                     = 0%nat) by (rewrite Ebatch; reflexivity).
      rewrite length_firstn in Hlen. lia.
  - destruct (process_batch_resolved str_to_float GROK_API_KEY service
                (conv :: batch) w) as [Hres _].
    cbv zeta in Hres. rewrite <- Ebatch in Hres at 1. simpl conversations.
    repeat split.
    + apply (write_back_ids _ _ _ Hnd Hres).
    + apply (write_back_rows _ _ _ Hnd Hres).
    + apply (write_back_pending _ _ _ Hnd Hres).
    + apply (write_back_processing _ _ _ Hnd Hres).
Qed.

(** A cycle that meets a fault leaves the tables alone. *)
Lemma cycle_fault_database (fault : store_fault) (self : BatchProcessor.t)
    (db : database) (w : world) :
  match fault with NoFault => False | _ => True end ->
  fst (turn fault self db w) = db.
Proof.
  intros Hfault. rewrite cycle_database.
  destruct fault; [contradiction | reflexivity |].
  destruct (fetch_pending (BatchProcessor.batch_size self) (conversations db));
    reflexivity.
Qed.

Lemma process_loop_cons (fault : store_fault) (later : list store_fault)
    (self : BatchProcessor.t) (db : database) (w : world) :
  turns (fault :: later) self db w
  = turns later self (fst (turn fault self db w)) (snd (turn fault self db w)).
Proof.
  simpl. unfold bind. destruct (turn fault self db w) as [db1 w1]. reflexivity.
Qed.

(** A cycle never changes the keys of the table, whatever the fault. *)
Lemma cycle_ids (fault : store_fault) (self : BatchProcessor.t)
    (db : database) (w : world) :
  NoDup (map Conversation.id (conversations db)) ->
  map Conversation.id (conversations (fst (turn fault self db w)))
  = map Conversation.id (conversations db).
Proof.
  intros Hnd. destruct fault.
  - apply (cycle_rows self db w Hnd).
  - rewrite cycle_fault_database; [reflexivity | exact I].
  - rewrite cycle_fault_database; [reflexivity | exact I].
Qed.

Lemma process_loop_ids (faults : list store_fault) :
  forall (self : BatchProcessor.t) (db : database) (w : world),
    NoDup (map Conversation.id (conversations db)) ->
    map Conversation.id (conversations (fst (turns faults self db w)))
    = map Conversation.id (conversations db).
Proof.
  induction faults as [| fault later IH]; intros self db w Hnd; [reflexivity |].
  rewrite process_loop_cons.
  pose proof (cycle_ids fault self db w Hnd) as Hids.
  rewrite IH; [exact Hids | rewrite Hids; exact Hnd].
Qed.

(** Fault-free cycles in a row. *)
Lemma process_loop_pending (n : nat) :
  forall (self : BatchProcessor.t) (db : database) (w : world),
    NoDup (map Conversation.id (conversations db)) ->
    BatchProcessor.count_status pending
      (conversations (fst (turns (repeat NoFault n) self db w)))
    = (BatchProcessor.count_status pending (conversations db)
       - n * Z.to_nat (BatchProcessor.batch_size self))%nat.
Proof.
  induction n as [| n IH]; intros self db w Hnd.
  - simpl. lia.
  - simpl repeat. rewrite process_loop_cons.
    destruct (cycle_rows self db w Hnd) as (Hids & _ & Hpending & _).
    cbv zeta in Hids, Hpending.
    rewrite IH; [| rewrite Hids; exact Hnd].
    rewrite Hpending. lia.
Qed.

End Cycles.

Section InsightsPerRow.

Import GrokClient ProcessLoop.

Variable str_to_float : string -> option Q.
Variable GROK_API_KEY : option string.
Variable service : nat -> string -> attempt_outcome.

Local Abbreviation process_batch :=
  (BatchProcessor._process_batch str_to_float GROK_API_KEY service Session.empty).
Local Abbreviation turn := (cycle str_to_float GROK_API_KEY service).
Local Abbreviation turns := (_process_loop str_to_float GROK_API_KEY service).

Local Arguments BatchProcessor.has_status : simpl never.

Lemma insights_for_occurrences (id : string) (l : list Insight.t) :
  insights_for id l = occurrences id (map Insight.conversation_id l).
Proof.
  unfold insights_for, occurrences.
  induction l as [| i l IH]; simpl; [reflexivity |].
  destruct (String.eqb (Insight.conversation_id i) id); simpl; rewrite IH; reflexivity.
Qed.

Lemma occurrences_app (id : string) (l1 l2 : list string) :
  occurrences id (l1 ++ l2) = (occurrences id l1 + occurrences id l2)%nat.
Proof. unfold occurrences. rewrite filter_app, length_app. reflexivity. Qed.

Lemma occurrences_absent (id : string) (ids : list string) :
  ~ In id ids -> occurrences id ids = 0%nat.
Proof.
  unfold occurrences. induction ids as [| j ids IH]; simpl; [reflexivity |].
  intros Hnot. destruct (String.eqb j id) eqn:E.
  - apply String.eqb_eq in E. exfalso. apply Hnot. left. exact E.
  - apply IH. intros Hin. apply Hnot. right. exact Hin.
Qed.

Lemma in_ids_filter (P : Conversation.t -> bool) (id : string)
    (l : list Conversation.t) :
  In id (map Conversation.id (filter P l)) -> In id (map Conversation.id l).
Proof.
  intros H. apply in_map_iff in H. destruct H as [c [Hid Hc]].
  apply filter_In in Hc. rewrite <- Hid. apply in_map. tauto.
Qed.

(** Among distinct conversations, the completed ones hold each key once. *)
Lemma occurrences_completed (done : list Conversation.t) (c : Conversation.t) :
  NoDup (map Conversation.id done) ->
  In c done ->
  occurrences (Conversation.id c)
    (map Conversation.id (filter (BatchProcessor.has_status completed) done))
  = if BatchProcessor.has_status completed c then 1%nat else 0%nat.
Proof.
  induction done as [| d rest IH]; simpl; [tauto |].
  intros Hnd Hin. inversion Hnd as [| ? ? Hnotin Hrest]; subst.
  destruct Hin as [-> | Hin].
  - assert (Hzero : occurrences (Conversation.id c)
                      (map Conversation.id
                         (filter (BatchProcessor.has_status completed) rest)) = 0%nat).
    { apply occurrences_absent. intros H. apply Hnotin.
      apply (in_ids_filter _ _ _ H). }
    destruct (BatchProcessor.has_status completed c); simpl; [| exact Hzero].
    unfold occurrences in *. simpl. rewrite String.eqb_refl. simpl.
    rewrite Hzero. reflexivity.
  - specialize (IH Hrest Hin).
    destruct (BatchProcessor.has_status completed d); simpl; [| exact IH].
    unfold occurrences in *. simpl.
    destruct (String.eqb (Conversation.id d) (Conversation.id c)) eqn:E;
      [| exact IH].
    apply String.eqb_eq in E. exfalso. apply Hnotin. rewrite E.
    apply in_map. exact Hin.
Qed.

Lemma cycle_insights (fault : store_fault) (self : BatchProcessor.t)
    (db : database) (w : world) :
  NoDup (map Conversation.id (conversations db)) ->
  one_insight_per_completed db ->
  one_insight_per_completed (fst (turn fault self db w)).
Proof.
  intros Hnd [Hrows Hinsights]. rewrite cycle_database.
  destruct fault; try exact (conj Hrows Hinsights).
  destruct (fetch_pending (BatchProcessor.batch_size self) (conversations db))
    as [| conv batch] eqn:Ebatch; [exact (conj Hrows Hinsights) |].
  destruct (process_batch_resolved str_to_float GROK_API_KEY service
              (conv :: batch) w) as [Hres Hstored].
  cbv zeta in Hres, Hstored. rewrite <- Ebatch in Hres at 1.
  cbv beta iota zeta.
  remember (snd (fst (process_batch (conv :: batch) w))) as done eqn:Edone in *.
  remember (Session.stored (fst (fst (process_batch (conv :: batch) w))))
    as stored eqn:Estored in *.
  clear Edone Estored.
  destruct (fetch_pending_facts (BatchProcessor.batch_size self)
              (conversations db) Hnd) as [Hbnd Hbatch].
  assert (Hdnd : NoDup (map Conversation.id done))
    by (rewrite (resolved_ids _ _ Hres); exact Hbnd).
  split; simpl.
  - intros row' Hrow'. unfold write_back in Hrow'. apply in_map_iff in Hrow'.
    destruct Hrow' as [row [Hf Hrow]].
    pose proof (write_back_row _ _ _ Hnd Hres row Hrow) as Hcase.
    rewrite insights_for_occurrences, map_app, occurrences_app, Hstored.
    rewrite <- insights_for_occurrences.
    destruct (find_by_id (Conversation.id row) done) as [c' |] eqn:E.
    + subst row'. destruct Hcase as [Hp Hr].
      apply find_by_id_some in E. destruct E as [Hin Hid].
      rewrite (occurrences_completed done c' Hdnd Hin).
      rewrite Hid, (Hrows row Hrow).
      unfold BatchProcessor.has_status at 1. rewrite Hp. reflexivity.
    + subst row'. rewrite (Hrows row Hrow).
      rewrite occurrences_absent; [lia |].
      intros H. apply in_ids_filter in H. apply find_by_id_none in E. tauto.
  - intros i Hi. rewrite (write_back_ids _ _ _ Hnd Hres).
    apply in_app_or in Hi. destruct Hi as [Hi | Hi]; [apply Hinsights; exact Hi |].
    assert (H : In (Insight.conversation_id i) (map Insight.conversation_id stored))
      by (apply in_map; exact Hi).
    rewrite Hstored in H. apply in_ids_filter in H.
    rewrite (resolved_ids _ _ Hres) in H.
    apply in_map_iff in H. destruct H as [c [Hid Hc]].
    rewrite <- Hid. apply in_map. apply Hbatch. exact Hc.
Qed.

Lemma process_loop_insights (faults : list store_fault) :
  forall (self : BatchProcessor.t) (db : database) (w : world),
    NoDup (map Conversation.id (conversations db)) ->
    one_insight_per_completed db ->
    one_insight_per_completed (fst (turns faults self db w)).
Proof.
  induction faults as [| fault later IH]; intros self db w Hnd Hinv; [exact Hinv |].
  rewrite process_loop_cons. apply IH.
  - rewrite (cycle_ids str_to_float GROK_API_KEY service fault self db w Hnd).
    exact Hnd.
  - apply cycle_insights; assumption.
Qed.

End InsightsPerRow.

Section LoopRows.

Import GrokClient ProcessLoop.

Variable str_to_float : string -> option Q.
Variable GROK_API_KEY : option string.
Variable service : nat -> string -> attempt_outcome.

Lemma advanced_refl (rows : list Conversation.t) : Forall2 advanced rows rows.
Proof. induction rows; constructor; [left; reflexivity | assumption]. Qed.

Lemma advanced_trans (l1 l2 l3 : list Conversation.t) :
  Forall2 advanced l1 l2 -> Forall2 advanced l2 l3 -> Forall2 advanced l1 l3.
Proof.
  intros H12. revert l3. induction H12 as [| a b l1 l2 Hab _ IH]; intros l3 H23;
    inversion H23 as [| ? c ? l3' Hbc Hrest]; subst; constructor.
  - destruct Hab as [-> | [Hp Hres]]; [exact Hbc |].
    destruct Hbc as [-> | [Hp' _]]; [right; split; assumption |].
    destruct Hres as [-> | ->]; discriminate Hp'.
  - apply IH. exact Hrest.
Qed.

Lemma cycle_advanced (fault : store_fault) (self : BatchProcessor.t)
    (db : database) (w : world) :
  NoDup (map Conversation.id (conversations db)) ->
  Forall2 advanced (conversations db)
    (conversations (fst (cycle str_to_float GROK_API_KEY service fault self db w))).
Proof.
  intros Hnd. destruct fault.
  - apply (cycle_rows str_to_float GROK_API_KEY service self db w Hnd).
  - rewrite cycle_fault_database; [apply advanced_refl | exact I].
  - rewrite cycle_fault_database; [apply advanced_refl | exact I].
Qed.

Lemma process_loop_advanced (faults : list store_fault) :
  forall (self : BatchProcessor.t) (db : database) (w : world),
    NoDup (map Conversation.id (conversations db)) ->
    Forall2 advanced (conversations db)
      (conversations
         (fst (_process_loop str_to_float GROK_API_KEY service faults self db w))).
Proof.
  induction faults as [| fault later IH]; intros self db w Hnd;
    [apply advanced_refl |].
  rewrite process_loop_cons.
  eapply advanced_trans; [apply (cycle_advanced fault self db w Hnd) |].
  apply IH.
  rewrite (cycle_ids str_to_float GROK_API_KEY service fault self db w Hnd).
  exact Hnd.
Qed.

End LoopRows.

(** X11. A cycle that finds no pending conversation asks nothing of the
    service and writes nothing: the tables stay as they are and the only
    thing that happens is a sleep of 5 s. *)
Theorem cycle_idle
    (str_to_float : string -> option Q) (GROK_API_KEY : option string)
    (service : nat -> string -> GrokClient.attempt_outcome)
    (fault : ProcessLoop.store_fault) (self : BatchProcessor.t)
    (db : database) (w : GrokClient.world) :
  BatchProcessor.count_status pending (conversations db) = 0%nat ->
  ProcessLoop.cycle str_to_float GROK_API_KEY service fault self db w
  = (db, GrokClient.slept 5 w).
Proof.
  intros Hnone. unfold ProcessLoop.cycle.
  rewrite (no_pending_no_batch _ _ Hnone). destruct fault; reflexivity.
Qed.

Lemma cycle_idle_witness :
  let db :=
    mkDatabase [Conversation.mk "c0" "hello" 0 completed;
                Conversation.mk "c1" "bye" 1 processing] [] in
  ProcessLoop.cycle (fun _ => None) (Some "key"%string)
    (fun _ _ => GrokClient.Loaded (GrokClient.JObject []))
    ProcessLoop.NoFault (BatchProcessor.mk 10 true (Some 0%nat)) db
    (GrokClient.mkWorld 7 [] [])
  = (db, GrokClient.mkWorld 12 [] [GrokClient.Sleep 5]).
Proof.
  intros db.
  apply (cycle_idle (fun _ => None) (Some "key"%string)
           (fun _ _ => GrokClient.Loaded (GrokClient.JObject []))
           ProcessLoop.NoFault (BatchProcessor.mk 10 true (Some 0%nat)) db
           (GrokClient.mkWorld 7 [] [])).
  reflexivity.
Defined.

(** X12. One cycle without a database fault over a table with distinct
    keys: the keys stay as they are and in order; a row is either left as
    it is, or it was pending and is now completed or failed; the number of
    pending rows goes down by [batch_size], or to zero when fewer were
    pending; and the number of rows in processing does not change. *)
Theorem cycle_resolves_batch
    (str_to_float : string -> option Q) (GROK_API_KEY : option string)
    (service : nat -> string -> GrokClient.attempt_outcome)
    (self : BatchProcessor.t) (db : database) (w : GrokClient.world) :
  (0 <= BatchProcessor.batch_size self)%Z ->
  NoDup (map Conversation.id (conversations db)) ->
  let rows := conversations db in
  let rows' :=
    conversations
      (fst (ProcessLoop.cycle str_to_float GROK_API_KEY service
              ProcessLoop.NoFault self db w)) in
  map Conversation.id rows' = map Conversation.id rows
  /\ Forall2 (fun row row' =>
                row' = row
                \/ (Conversation.status row = pending /\ resolved row row'))
             rows rows'
  /\ Z.of_nat (BatchProcessor.count_status pending rows')
     = Z.max 0 (Z.of_nat (BatchProcessor.count_status pending rows)
                - BatchProcessor.batch_size self)
  /\ BatchProcessor.count_status processing rows'
     = BatchProcessor.count_status processing rows.
Proof.
  intros Hsize Hnd rows rows'. subst rows rows'.
  destruct (cycle_rows str_to_float GROK_API_KEY service self db w Hnd)
    as (Hids & Hrows & Hpending & Hprocessing).
  cbv zeta in *. repeat split; try assumption.
  rewrite Hpending. lia.
Qed.

Lemma cycle_resolves_batch_witness :
  let service := fun (n : nat) (text : string) =>
    if String.eqb text "bad"
    then GrokClient.Failed (GrokClient.HTTPStatusError 500 GrokClient.NoRetryAfter)
    else GrokClient.Loaded (GrokClient.JObject []) in
  let db :=
    mkDatabase [Conversation.mk "c0" "old" 0 completed;
                Conversation.mk "c1" "good" 1 pending;
                Conversation.mk "c2" "stuck" 2 processing;
                Conversation.mk "c3" "bad" 3 pending;
                Conversation.mk "c4" "late" 4 pending] [] in
  let rows' :=
    conversations
      (fst (ProcessLoop.cycle (fun _ => None) (Some "key"%string) service
              ProcessLoop.NoFault (BatchProcessor.mk 2 true (Some 0%nat)) db
              (GrokClient.mkWorld 0 [] []))) in
  rows' = [Conversation.mk "c0" "old" 0 completed;
           Conversation.mk "c1" "good" 1 completed;
           Conversation.mk "c2" "stuck" 2 processing;
           Conversation.mk "c3" "bad" 3 failed;
           Conversation.mk "c4" "late" 4 pending]
  /\ Z.of_nat (BatchProcessor.count_status pending rows')
     = Z.max 0 (Z.of_nat (BatchProcessor.count_status pending (conversations db)) - 2).
Proof.
  intros service db rows'. split; [reflexivity |].
  apply (cycle_resolves_batch (fun _ => None) (Some "key"%string) service
           (BatchProcessor.mk 2 true (Some 0%nat)) db (GrokClient.mkWorld 0 [] [])).
  - simpl. lia.
  - simpl. repeat constructor; simpl; intuition discriminate.
Defined.

(** X13. With a batch size of at least one and distinct keys, [n] cycles
    without a database fault leave no conversation pending as soon as
    [n * batch_size] reaches the number of pending conversations. *)
Theorem process_loop_drains
    (str_to_float : string -> option Q) (GROK_API_KEY : option string)
    (service : nat -> string -> GrokClient.attempt_outcome)
    (n : nat) (self : BatchProcessor.t) (db : database) (w : GrokClient.world) :
  (1 <= BatchProcessor.batch_size self)%Z ->
  NoDup (map Conversation.id (conversations db)) ->
  (Z.of_nat (BatchProcessor.count_status pending (conversations db))
   <= Z.of_nat n * BatchProcessor.batch_size self)%Z ->
  BatchProcessor.count_status pending
    (conversations
       (fst (ProcessLoop._process_loop str_to_float GROK_API_KEY service
               (repeat ProcessLoop.NoFault n) self db w)))
  = 0%nat.
Proof.
  intros Hsize Hnd Henough.
  rewrite (process_loop_pending str_to_float GROK_API_KEY service n self db w Hnd).
  nia.
Qed.

Lemma process_loop_drains_witness :
  BatchProcessor.count_status pending
    (conversations
       (fst (ProcessLoop._process_loop (fun _ => None) (Some "key"%string)
               (fun _ _ => GrokClient.Loaded (GrokClient.JObject []))
               (repeat ProcessLoop.NoFault 2)
               (BatchProcessor.mk 2 true (Some 0%nat))
               (mkDatabase [Conversation.mk "c1" "one" 1 pending;
                            Conversation.mk "c2" "two" 2 pending;
                            Conversation.mk "c3" "three" 3 pending] [])
               (GrokClient.mkWorld 0 [] []))))
  = 0%nat.
Proof.
  apply (process_loop_drains (fun _ => None) (Some "key"%string)
           (fun _ _ => GrokClient.Loaded (GrokClient.JObject []))
           2 (BatchProcessor.mk 2 true (Some 0%nat))
           (mkDatabase [Conversation.mk "c1" "one" 1 pending;
                        Conversation.mk "c2" "two" 2 pending;
                        Conversation.mk "c3" "three" 3 pending] [])
           (GrokClient.mkWorld 0 [] [])).
  - simpl. lia.
  - simpl. repeat constructor; simpl; intuition discriminate.
  - simpl. lia.
Defined.

(** X14. Whatever the database faults, the cycles of [_process_loop] over a
    table with distinct keys touch pending rows only, and only to complete or
    fail them: after any number of cycles every row is the row it was, or it
    was pending and is now completed or failed with nothing else changed; so
    a row that is processing, completed or failed when the loop starts is
    never touched. The keys of the table stay as they are. *)
Theorem process_loop_touches_pending_only
    (str_to_float : string -> option Q) (GROK_API_KEY : option string)
    (service : nat -> string -> GrokClient.attempt_outcome)
    (faults : list ProcessLoop.store_fault) (self : BatchProcessor.t)
    (db : database) (w : GrokClient.world) :
  NoDup (map Conversation.id (conversations db)) ->
  let rows' :=
    conversations
      (fst (ProcessLoop._process_loop str_to_float GROK_API_KEY service
              faults self db w)) in
  Forall2 advanced (conversations db) rows'
  /\ map Conversation.id rows' = map Conversation.id (conversations db).
Proof.
  intros Hnd rows'. subst rows'. split.
  - apply process_loop_advanced. exact Hnd.
  - apply process_loop_ids. exact Hnd.
Qed.

Lemma process_loop_touches_pending_only_witness :
  let db :=
    mkDatabase [Conversation.mk "c0" "old" 0 failed;
                Conversation.mk "c1" "stuck" 1 processing;
                Conversation.mk "c2" "new" 2 pending] [] in
  let rows' :=
    conversations
      (fst (ProcessLoop._process_loop (fun _ => None) (Some "key"%string)
              (fun _ _ => GrokClient.Loaded (GrokClient.JObject []))
              [ProcessLoop.CommitFails; ProcessLoop.NoFault; ProcessLoop.NoFault]
              (BatchProcessor.mk 10 true (Some 0%nat)) db
              (GrokClient.mkWorld 0 [] []))) in
  rows' = [Conversation.mk "c0" "old" 0 failed;
           Conversation.mk "c1" "stuck" 1 processing;
           Conversation.mk "c2" "new" 2 completed]
  /\ Forall2 advanced (conversations db) rows'
  /\ map Conversation.id rows' = map Conversation.id (conversations db).
Proof.
  intros db rows'. split; [reflexivity |].
  apply (process_loop_touches_pending_only (fun _ => None) (Some "key"%string)
           (fun _ _ => GrokClient.Loaded (GrokClient.JObject []))
           [ProcessLoop.CommitFails; ProcessLoop.NoFault; ProcessLoop.NoFault]
           (BatchProcessor.mk 10 true (Some 0%nat)) db (GrokClient.mkWorld 0 [] [])).
  simpl. repeat constructor; simpl; intuition discriminate.
Defined.

(** X15. Whatever the database faults, the cycles of [_process_loop] keep
    one insight per completed conversation: over a table with distinct keys
    in which every completed row has exactly one insight, every other row
    has none and every insight belongs to a row, the same holds after any
    number of cycles. *)
Theorem process_loop_one_insight_per_completed
    (str_to_float : string -> option Q) (GROK_API_KEY : option string)
    (service : nat -> string -> GrokClient.attempt_outcome)
    (faults : list ProcessLoop.store_fault) (self : BatchProcessor.t)
    (db : database) (w : GrokClient.world) :
  NoDup (map Conversation.id (conversations db)) ->
  one_insight_per_completed db ->
  one_insight_per_completed
    (fst (ProcessLoop._process_loop str_to_float GROK_API_KEY service
            faults self db w)).
Proof.
  intros Hnd Hinv. apply process_loop_insights; assumption.
Qed.

Lemma process_loop_one_insight_per_completed_witness :
  one_insight_per_completed
    (fst (ProcessLoop._process_loop (fun _ => None) (Some "key"%string)
            (fun n _ =>
               if Nat.eqb n 0
               then GrokClient.Failed
                      (GrokClient.HTTPStatusError 500 GrokClient.NoRetryAfter)
               else GrokClient.Loaded (GrokClient.JObject []))
            [ProcessLoop.NoFault; ProcessLoop.QueryFails; ProcessLoop.NoFault]
            (BatchProcessor.mk 2 true (Some 0%nat))
            (mkDatabase [Conversation.mk "c1" "one" 1 pending;
                         Conversation.mk "c2" "two" 2 pending;
                         Conversation.mk "c3" "three" 3 pending] [])
            (GrokClient.mkWorld 0 [] []))).
Proof.
  apply (process_loop_one_insight_per_completed (fun _ => None) (Some "key"%string)
           (fun n _ =>
              if Nat.eqb n 0
              then GrokClient.Failed
                     (GrokClient.HTTPStatusError 500 GrokClient.NoRetryAfter)
              else GrokClient.Loaded (GrokClient.JObject []))
           [ProcessLoop.NoFault; ProcessLoop.QueryFails; ProcessLoop.NoFault]
           (BatchProcessor.mk 2 true (Some 0%nat))
           (mkDatabase [Conversation.mk "c1" "one" 1 pending;
                        Conversation.mk "c2" "two" 2 pending;
                        Conversation.mk "c3" "three" 3 pending] [])
           (GrokClient.mkWorld 0 [] [])).
  - simpl. repeat constructor; simpl; intuition discriminate.
  - split; simpl.
    + intros row [<- | [<- | [<- | []]]]; reflexivity.
    + intros i [].
Defined.

Section RequestBudget.

Import GrokClient BatchProcessor.

Variable str_to_float : string -> option Q.
Variable GROK_API_KEY : option string.
Variable service : nat -> string -> attempt_outcome.

Hypothesis key_set : key_missing GROK_API_KEY = false.

Lemma analyze_posts (text : string) (w : world) :
  (posts w + 1
   <= posts (snd (analyze_conversation str_to_float GROK_API_KEY service text w))
   <= posts w + 3)%nat.
Proof.
  rewrite (analyze_conversation_loop str_to_float GROK_API_KEY service text key_set).
  pose proof (for_attempt_bounds str_to_float service text [0; 1; 2]%Z
                (snd (rate_limit w))) as (Hposts & Hone & _).
  cbv zeta in *. rewrite posts_rate_limit in Hposts, Hone.
  simpl List.length in Hposts.
  assert (Hne : [0; 1; 2]%Z <> []) by discriminate. specialize (Hone Hne). lia.
Qed.

Lemma gather_posts (conversations : list Conversation.t) :
  forall (db : Session.t) (w : world),
    (posts w + List.length conversations
     <= posts (snd (gather str_to_float GROK_API_KEY service db conversations w))
     <= posts w + 3 * List.length conversations)%nat.
Proof.
  induction conversations as [| conv rest IH]; intros db w; simpl; [lia |].
  unfold bind.
  pose proof (process_single_outcome str_to_float GROK_API_KEY service db conv w)
    as Hout.
  apply (f_equal snd) in Hout. simpl in Hout.
  pose proof (analyze_posts (Conversation.text conv) w) as Hone.
  destruct (_process_single str_to_float GROK_API_KEY service db conv w)
    as [[db1 conv1] w1].
  simpl in Hout. subst w1.
  specialize (IH db1
                (snd (analyze_conversation str_to_float GROK_API_KEY service
                        (Conversation.text conv) w))).
  destruct (gather str_to_float GROK_API_KEY service db1 rest _) as [[db2 rest1] w2].
  simpl in *. lia.
Qed.

Lemma process_batch_posts (db : Session.t) (batch : list Conversation.t) (w : world) :
  (posts w + List.length batch
   <= posts (snd (_process_batch str_to_float GROK_API_KEY service db batch w))
   <= posts w + 3 * List.length batch)%nat.
Proof.
  unfold _process_batch, bind.
  pose proof (gather_posts
                (map (fun conv => Conversation.set_status conv processing) batch)
                db w) as H.
  rewrite length_map in H.
  destruct (gather str_to_float GROK_API_KEY service db _ w) as [[db1 done] w1].
  exact H.
Qed.

End RequestBudget.

(** X16. With [GROK_KEY] set, a batch of [n] conversations makes at least
    [n] and at most [3 n] requests to the service. *)
Theorem process_batch_request_budget
    (str_to_float : string -> option Q) (GROK_API_KEY : option string)
    (service : nat -> string -> GrokClient.attempt_outcome)
    (db : Session.t) (conversations : list Conversation.t) (w : GrokClient.world) :
  GrokClient.key_missing GROK_API_KEY = false ->
  let w' :=
    snd (BatchProcessor._process_batch str_to_float GROK_API_KEY service
           db conversations w) in
  (GrokClient.posts w + List.length conversations <= GrokClient.posts w')%nat
  /\ (GrokClient.posts w' <= GrokClient.posts w + 3 * List.length conversations)%nat.
Proof.
  intros Hkey w'. subst w'.
  pose proof (process_batch_posts str_to_float GROK_API_KEY service Hkey
                db conversations w).
  lia.
Qed.

Lemma process_batch_request_budget_witness :
  let w' :=
    snd (BatchProcessor._process_batch (fun _ => None) (Some "key"%string)
           (fun n _ =>
              if Nat.eqb n 0
              then GrokClient.Failed (GrokClient.RequestError "timed out")
              else GrokClient.Loaded (GrokClient.JObject []))
           Session.empty
           [Conversation.mk "c1" "one" 1 pending; Conversation.mk "c2" "two" 2 pending]
           (GrokClient.mkWorld 0 [] [])) in
  GrokClient.posts w' = 3%nat
  /\ (GrokClient.posts (GrokClient.mkWorld 0 [] []) + 2 <= GrokClient.posts w')%nat
  /\ (GrokClient.posts w' <= GrokClient.posts (GrokClient.mkWorld 0 [] []) + 3 * 2)%nat.
Proof.
  intros w'. split; [reflexivity |].
  apply (process_batch_request_budget (fun _ => None) (Some "key"%string)
           (fun n _ =>
              if Nat.eqb n 0
              then GrokClient.Failed (GrokClient.RequestError "timed out")
              else GrokClient.Loaded (GrokClient.JObject []))
           Session.empty
           [Conversation.mk "c1" "one" 1 pending; Conversation.mk "c2" "two" 2 pending]
           (GrokClient.mkWorld 0 [] [])).
  reflexivity.
Defined.

(** X17. When the database fails during a cycle the tables are left as they
    were and the loop sleeps 5 s before its next turn. A failing query costs
    no request. A failing commit costs the requests of the whole batch, at
    least one per claimed conversation when [GROK_KEY] is set, and the
    conversations are still pending, to be claimed again. *)
Theorem cycle_store_fault
    (str_to_float : string -> option Q) (GROK_API_KEY : option string)
    (service : nat -> string -> GrokClient.attempt_outcome)
    (self : BatchProcessor.t) (db : database) (w : GrokClient.world) :
  GrokClient.key_missing GROK_API_KEY = false ->
  let failed_commit :=
    ProcessLoop.cycle str_to_float GROK_API_KEY service ProcessLoop.CommitFails
      self db w in
  ProcessLoop.cycle str_to_float GROK_API_KEY service ProcessLoop.QueryFails self db w
  = (db, GrokClient.slept 5 w)
  /\ fst failed_commit = db
  /\ (exists w1, snd failed_commit = GrokClient.slept 5 w1)
  /\ (GrokClient.posts w
      + List.length (ProcessLoop.fetch_pending (BatchProcessor.batch_size self)
                       (conversations db))
      <= GrokClient.posts (snd failed_commit))%nat.
Proof.
  intros Hkey failed_commit. subst failed_commit.
  split; [reflexivity |].
  split; [apply cycle_fault_database; exact I |].
  rewrite cycle_world.
  destruct (ProcessLoop.fetch_pending (BatchProcessor.batch_size self)
              (conversations db)) as [| conv batch].
  - split; [eexists; reflexivity |]. rewrite posts_slept. simpl. lia.
  - split; [eexists; reflexivity |]. rewrite posts_slept.
    apply (process_batch_posts str_to_float GROK_API_KEY service Hkey).
Qed.

Lemma cycle_store_fault_witness :
  let db :=
    mkDatabase [Conversation.mk "c1" "one" 1 pending;
                Conversation.mk "c2" "two" 2 pending] [] in
  let failed_commit :=
    ProcessLoop.cycle (fun _ => None) (Some "key"%string)
      (fun _ _ => GrokClient.Loaded (GrokClient.JObject []))
      ProcessLoop.CommitFails (BatchProcessor.mk 10 true (Some 0%nat)) db
      (GrokClient.mkWorld 0 [] []) in
  fst failed_commit = db
  /\ GrokClient.trace (snd failed_commit)
     = [GrokClient.Post "one"%string; GrokClient.Post "two"%string; GrokClient.Sleep 5]
  /\ (GrokClient.posts (GrokClient.mkWorld 0 [] [])
      + List.length (ProcessLoop.fetch_pending 10 (conversations db))
      <= GrokClient.posts (snd failed_commit))%nat.
Proof.
  intros db failed_commit.
  destruct (cycle_store_fault (fun _ => None) (Some "key"%string)
              (fun _ _ => GrokClient.Loaded (GrokClient.JObject []))
              (BatchProcessor.mk 10 true (Some 0%nat)) db
              (GrokClient.mkWorld 0 [] []) eq_refl)
    as (_ & Hdb & _ & Hposts).
  split; [exact Hdb |]. split; [reflexivity | exact Hposts].
Defined.

(** ** Stripping *)

Section Stripping.

Import Str.

Variable isspace : ascii -> bool.

Local Abbreviation lstrip := (Str.lstrip isspace).
Local Abbreviation rstrip := (Str.rstrip isspace).
Local Abbreviation strip := (Str.strip isspace).

Lemma lstrip_split (s : list ascii) :
  exists ws, forallb isspace ws = true /\ s = ws ++ lstrip s.
Proof.
  induction s as [| c rest IH]; simpl.
  - exists []. split; reflexivity.
  - destruct (isspace c) eqn:E.
    + destruct IH as [ws [Hws Heq]]. exists (c :: ws). simpl. rewrite E, Hws.
      split; [reflexivity | f_equal; exact Heq].
    + exists []. split; reflexivity.
Qed.

Lemma lstrip_spaces (ws s : list ascii) :
  forallb isspace ws = true -> lstrip (ws ++ s) = lstrip s.
Proof.
  induction ws as [| c ws IH]; simpl; [reflexivity |].
  intros H. apply andb_true_iff in H. destruct H as [Hc Hws].
  rewrite Hc. apply IH. exact Hws.
Qed.

(** What [lstrip] returns is empty or starts with a character that is not
    white space. *)
Lemma lstrip_head (s : list ascii) :
  match lstrip s with
  | [] => True
  | c :: _ => isspace c = false
  end.
Proof.
  induction s as [| c rest IH]; simpl; [exact I |].
  destruct (isspace c) eqn:E; [exact IH | exact E].
Qed.

Lemma lstrip_idempotent (s : list ascii) : lstrip (lstrip s) = lstrip s.
Proof.
  pose proof (lstrip_head s) as H. destruct (lstrip s) as [| c rest]; [reflexivity |].
  simpl. rewrite H. reflexivity.
Qed.

Lemma lstrip_nil (s : list ascii) : lstrip s = [] <-> forallb isspace s = true.
Proof.
  induction s as [| c rest IH]; simpl; [tauto |].
  destruct (isspace c); simpl; [exact IH |].
  split; discriminate.
Qed.

Lemma lstrip_app (p q : list ascii) :
  lstrip p <> [] -> lstrip (p ++ q) = lstrip p ++ q.
Proof.
  induction p as [| c rest IH]; simpl; [intros H; contradiction H; reflexivity |].
  destruct (isspace c); [exact IH | reflexivity].
Qed.

Lemma forallb_rev (l : list ascii) : forallb isspace (rev l) = forallb isspace l.
Proof.
  induction l as [| c l IH]; simpl; [reflexivity |].
  rewrite forallb_app, IH. simpl. rewrite andb_true_r. apply andb_comm.
Qed.

Lemma rstrip_spaces (s ws : list ascii) :
  forallb isspace ws = true -> rstrip (s ++ ws) = rstrip s.
Proof.
  intros H. unfold Str.rstrip. rewrite rev_app_distr, lstrip_spaces; [reflexivity |].
  rewrite forallb_rev. exact H.
Qed.

Lemma rstrip_idempotent (s : list ascii) : rstrip (rstrip s) = rstrip s.
Proof. unfold Str.rstrip. rewrite rev_involutive, lstrip_idempotent. reflexivity. Qed.

Lemma rstrip_split (s : list ascii) :
  exists ws, forallb isspace ws = true /\ s = rstrip s ++ ws.
Proof.
  destruct (lstrip_split (rev s)) as [ws [Hws Heq]].
  exists (rev ws). rewrite forallb_rev. split; [exact Hws |].
  unfold Str.rstrip. rewrite <- rev_app_distr, <- Heq, rev_involutive. reflexivity.
Qed.

Lemma rstrip_nil (s : list ascii) : rstrip s = [] <-> forallb isspace s = true.
Proof.
  unfold Str.rstrip. rewrite <- forallb_rev, <- lstrip_nil. split.
  - intros H. apply (f_equal (@rev ascii)) in H. rewrite rev_involutive in H. exact H.
  - intros H. rewrite H. reflexivity.
Qed.

Lemma rstrip_last (s : list ascii) (c : ascii) :
  isspace c = false -> rstrip (s ++ [c]) = s ++ [c].
Proof.
  intros H. unfold Str.rstrip. rewrite rev_app_distr. simpl. rewrite H.
  simpl. rewrite rev_involutive. reflexivity.
Qed.

(** Stripping at the right leaves the left end alone. *)
Lemma lstrip_rstrip (s : list ascii) : lstrip (rstrip (lstrip s)) = rstrip (lstrip s).
Proof.
  pose proof (lstrip_head s) as Hhead.
  destruct (rstrip_split (lstrip s)) as [ws [Hws Heq]].
  destruct (rstrip (lstrip s)) as [| c rest] eqn:E; [reflexivity |].
  rewrite Heq in Hhead. simpl in Hhead. simpl. rewrite Hhead. reflexivity.
Qed.

Lemma strip_trimmed (s : list ascii) :
  lstrip (strip s) = strip s /\ rstrip (strip s) = strip s.
Proof.
  unfold Str.strip. split; [apply lstrip_rstrip | apply rstrip_idempotent].
Qed.

Lemma strip_idempotent (s : list ascii) : strip (strip s) = strip s.
Proof.
  destruct (strip_trimmed s) as [Hl Hr].
  unfold Str.strip at 1. rewrite Hl. exact Hr.
Qed.

Lemma strip_fixed (s : list ascii) : lstrip s = s -> rstrip s = s -> strip s = s.
Proof. intros Hl Hr. unfold Str.strip. rewrite Hl. exact Hr. Qed.

Lemma strip_nil (s : list ascii) : strip s = [] <-> forallb isspace s = true.
Proof.
  unfold Str.strip. rewrite rstrip_nil. split.
  - intros H. apply lstrip_nil.
    pose proof (lstrip_head s) as Hhead.
    destruct (lstrip s) as [| c rest]; [reflexivity |].
    simpl in H. rewrite Hhead in H. discriminate H.
  - intros H. apply lstrip_nil in H. rewrite H. reflexivity.
Qed.

(** White space around a text does not change what [strip] returns. *)
Lemma strip_pad (ws1 p ws2 : list ascii) :
  forallb isspace ws1 = true ->
  forallb isspace ws2 = true ->
  strip (ws1 ++ p ++ ws2) = strip p.
Proof.
  intros H1 H2. unfold Str.strip. rewrite (lstrip_spaces ws1 _ H1).
  destruct (lstrip p) as [| c rest] eqn:E.
  - assert (Hall : forallb isspace (p ++ ws2) = true).
    { rewrite forallb_app, H2, andb_true_r. apply lstrip_nil. exact E. }
    apply lstrip_nil in Hall. rewrite Hall. reflexivity.
  - rewrite lstrip_app; [| rewrite E; discriminate].
    rewrite E. apply rstrip_spaces. exact H2.
Qed.

End Stripping.

Section Fences.

Import Str.

Lemma startswith_app (p s : list ascii) : startswith p (p ++ s) = true.
Proof.
  induction p as [| c p IH]; simpl; [reflexivity |].
  rewrite Ascii.eqb_refl. exact IH.
Qed.

Lemma skipn_prefix (p s : list ascii) : skipn (List.length p) (p ++ s) = s.
Proof. induction p as [| c p IH]; simpl; [reflexivity | exact IH]. Qed.

Lemma endswith_app (s p : list ascii) : endswith p (s ++ p) = true.
Proof. unfold endswith. rewrite rev_app_distr. apply startswith_app. Qed.

Lemma drop_last_suffix (s p : list ascii) : drop_last (List.length p) (s ++ p) = s.
Proof.
  unfold drop_last. rewrite length_app.
  replace (List.length s + List.length p - List.length p)%nat with (List.length s)
    by lia.
  rewrite firstn_app, Nat.sub_diag, firstn_all. simpl. apply app_nil_r.
Qed.

Lemma startswith_head (a b : ascii) (p s : list ascii) :
  Ascii.eqb a b = false -> startswith (a :: p) (b :: s) = false.
Proof. intros H. simpl. rewrite H. reflexivity. Qed.

End Fences.

(** X18. The validator of [ConversationRequest.text] rejects exactly the
    texts that are empty or all white space; what it accepts it returns
    stripped: not empty, without white space at either end, and accepted
    unchanged when validated again. *)
Theorem text_not_empty_stripped (isspace : ascii -> bool) (v : list ascii) :
  match text_not_empty isspace v with
  | inl t =>
      forallb isspace v = false
      /\ t = Str.strip isspace v
      /\ t <> []
      /\ Str.lstrip isspace t = t
      /\ Str.rstrip isspace t = t
      /\ text_not_empty isspace t = inl t
  | inr e =>
      forallb isspace v = true /\ e = GrokClient.ValueError "text cannot be empty"
  end.
Proof.
  unfold text_not_empty at 1.
  destruct v as [| c rest]; [split; reflexivity |].
  destruct (Str.strip isspace (c :: rest)) as [| d t] eqn:E.
  - split; [apply strip_nil; exact E | reflexivity].
  - destruct (strip_trimmed isspace (c :: rest)) as [Hl Hr]. rewrite E in Hl, Hr.
    repeat split; try assumption; try discriminate.
    + destruct (forallb isspace (c :: rest)) eqn:Hall; [| reflexivity].
      apply strip_nil in Hall. rewrite Hall in E. discriminate E.
    + unfold text_not_empty. rewrite (strip_fixed isspace _ Hl Hr). reflexivity.
Qed.

(** X19. A document wrapped in a Markdown fence tagged [json], with any white
    space around the fence and around the document, reaches the parser as
    the document alone, when the document is stripped, is not empty and
    does not begin with a backtick, and a backtick is not white space. *)
Theorem unwrap_fences_fenced
    (isspace : ascii -> bool) (lead ws1 payload ws2 trail : list ascii) :
  isspace "`"%char = false ->
  forallb isspace lead = true ->
  forallb isspace ws1 = true ->
  forallb isspace ws2 = true ->
  forallb isspace trail = true ->
  Str.strip isspace payload = payload ->
  payload <> [] ->
  Str.startswith ["`"%char] payload = false ->
  unwrap_fences isspace
    (lead ++ (json_fence ++ ws1 ++ payload ++ ws2 ++ fence) ++ trail)
  = payload.
Proof.
  intros Htick Hlead Hws1 Hws2 Htrail Hstripped Hne Hstart.
  unfold unwrap_fences.
  rewrite (strip_pad isspace lead _ trail Hlead Htrail).
  assert (Hfixed : Str.strip isspace (json_fence ++ ws1 ++ payload ++ ws2 ++ fence)
                   = json_fence ++ ws1 ++ payload ++ ws2 ++ fence).
  { apply strip_fixed.
    - change json_fence with ("`"%char :: list_ascii_of_string "``json").
      cbn [app Str.lstrip]. rewrite Htick. reflexivity.
    - replace (json_fence ++ ws1 ++ payload ++ ws2 ++ fence)
        with ((json_fence ++ ws1 ++ payload ++ ws2 ++ ["`"%char; "`"%char])
              ++ ["`"%char])
        by (rewrite <- !app_assoc; reflexivity).
      apply rstrip_last. exact Htick. }
  rewrite Hfixed. cbv zeta.
  rewrite startswith_app.
  change 7%nat with (List.length json_fence). rewrite skipn_prefix.
  assert (Hnofence : Str.startswith fence (ws1 ++ payload ++ ws2 ++ fence) = false).
  { change fence with ("`"%char :: ["`"%char; "`"%char]).
    destruct ws1 as [| s ws1].
    - destruct payload as [| c rest]; [contradiction Hne; reflexivity |].
      cbn [Str.startswith] in Hstart. rewrite andb_true_r in Hstart.
      cbn [app]. apply startswith_head. exact Hstart.
    - cbn [forallb] in Hws1. apply andb_true_iff in Hws1. destruct Hws1 as [Hs _].
      cbn [app]. apply startswith_head.
      destruct (Ascii.eqb "`" s) eqn:E; [| reflexivity].
      apply Ascii.eqb_eq in E. subst s. congruence. }
  rewrite Hnofence.
  replace (ws1 ++ payload ++ ws2 ++ fence) with ((ws1 ++ payload ++ ws2) ++ fence)
    by (rewrite <- !app_assoc; reflexivity).
  rewrite endswith_app.
  change 3%nat with (List.length fence). rewrite drop_last_suffix.
  rewrite (strip_pad isspace ws1 payload ws2 Hws1 Hws2). exact Hstripped.
Qed.

Lemma unwrap_fences_fenced_witness :
  let isspace := fun c => Ascii.eqb c " " || Ascii.eqb c "010" in
  unwrap_fences isspace
    (list_ascii_of_string " " ++
     (json_fence ++ list_ascii_of_string "
" ++ list_ascii_of_string "{}" ++ list_ascii_of_string "
" ++ fence) ++ list_ascii_of_string "
")
  = list_ascii_of_string "{}".
Proof.
  intros isspace.
  apply (unwrap_fences_fenced isspace); try reflexivity; discriminate.
Defined.

(** X20. A response without a fence reaches the parser stripped and
    otherwise unchanged: when the stripped content neither begins nor ends
    with three backticks, [unwrap_fences] is [strip]. *)
Theorem unwrap_fences_plain (isspace : ascii -> bool) (content : list ascii) :
  Str.startswith fence (Str.strip isspace content) = false ->
  Str.endswith fence (Str.strip isspace content) = false ->
  unwrap_fences isspace content = Str.strip isspace content.
Proof.
  intros Hstart Hend. unfold unwrap_fences. cbv zeta.
  assert (Hjson : Str.startswith json_fence (Str.strip isspace content) = false).
  { destruct (Str.strip isspace content) as [| c1 [| c2 [| c3 rest]]];
      try reflexivity.
    - cbn [json_fence list_ascii_of_string Str.startswith].
      destruct (Ascii.eqb "`" c1); reflexivity.
    - cbn [json_fence list_ascii_of_string Str.startswith].
      destruct (Ascii.eqb "`" c1); [| reflexivity].
      destruct (Ascii.eqb "`" c2); reflexivity.
    - cbn [json_fence fence list_ascii_of_string Str.startswith] in *.
      destruct (Ascii.eqb "`" c1); [| reflexivity].
      destruct (Ascii.eqb "`" c2); [| reflexivity].
      destruct (Ascii.eqb "`" c3); [discriminate Hstart | reflexivity]. }
  rewrite Hjson, Hstart, Hend. apply strip_idempotent.
Qed.

Lemma unwrap_fences_plain_witness :
  let isspace := fun c => Ascii.eqb c " " || Ascii.eqb c "010" in
  unwrap_fences isspace (list_ascii_of_string "  {} ")
  = Str.strip isspace (list_ascii_of_string "  {} ").
Proof.
  intros isspace.
  apply (unwrap_fences_plain isspace (list_ascii_of_string "  {} ")); reflexivity.
Defined.

(** ** main.py: submissions *)

Lemma python_int_above_minus_one (x : Q) : -1 < x -> (0 <= python_int x)%Z.
Proof.
  destruct x as [n d]. unfold Qlt. simpl. intros H.
  destruct (Z_lt_le_dec n 0) as [Hn | Hn].
  - rewrite (python_int_neg n d Hn).
    assert (Hsmall : ((- n) / Zpos d = 0)%Z) by (apply Z.div_small; lia).
    rewrite Hsmall. lia.
  - rewrite (python_int_nonneg n d Hn). apply Z.div_pos; lia.
Qed.

Section Submissions.

Import Main.

Lemma submit_gate (env : environment) (request : ConversationRequest) (s : server) :
  limiter (snd (submit_conversation env request s))
  = snd (RateLimiter.acquire (now_acquire env) (limiter s))
  /\ is_rate_limited (fst (submit_conversation env request s))
     = negb (fst (RateLimiter.acquire (now_acquire env) (limiter s))).
Proof.
  unfold submit_conversation.
  destruct (RateLimiter.acquire (now_acquire env) (limiter s)) as [[|] l1]; simpl.
  - destruct (ProcessLoop.find_by_id _ _); [split; reflexivity |].
    destruct (outcome env); split; reflexivity.
  - split; reflexivity.
Qed.

Lemma submit_all_gate (lo hi : Q) (calls : list (environment * ConversationRequest)) :
  forall s : server,
    served_within lo hi calls (fst (submit_all calls s))
    = admitted_within lo hi
        (fst (RateLimiter.acquire_all (map (fun c => now_acquire (fst c)) calls)
                (limiter s))).
Proof.
  induction calls as [| [env request] later IH]; intros s; [reflexivity |].
  simpl submit_all. simpl map. simpl RateLimiter.acquire_all.
  pose proof (submit_gate env request s) as [Hlim Hresp].
  destruct (submit_conversation env request s) as [r s1].
  destruct (RateLimiter.acquire (now_acquire env) (limiter s)) as [ok l1].
  simpl in Hlim, Hresp. subst l1.
  specialize (IH s1).
  destruct (submit_all later s1) as [rs final].
  destruct (RateLimiter.acquire_all _ (limiter s1)) as [log g].
  simpl in *. unfold admitted_within in *. simpl.
  rewrite Hresp, negb_involutive, IH.
  destruct (ok && within lo hi (now_acquire env)); reflexivity.
Qed.

(** What one submission does to the tables. *)
Lemma submit_store (env : environment) (request : ConversationRequest) (s : server) :
  NoDup (map Conversation.id (conversations (db s))) ->
  let s' := snd (submit_conversation env request s) in
  NoDup (map Conversation.id (conversations (db s')))
  /\ insights (db s') = insights (db s)
  /\ (exists added,
         conversations (db s') = conversations (db s) ++ added
         /\ Forall (fun row => Conversation.status row = pending
                               /\ Conversation.text row = text request) added
         /\ match fst (submit_conversation env request s) with
            | Accepted id => map Conversation.id added = [id]
            | RateLimited _ => added = []
            | BadRequest _ => True
            end).
Proof.
  intros Hnd. cbv zeta. unfold submit_conversation.
  destruct (RateLimiter.acquire (now_acquire env) (limiter s)) as [[|] l1]; simpl.
  - destruct (ProcessLoop.find_by_id (new_id env) (conversations (db s))) eqn:E.
    + simpl. split; [exact Hnd |]. split; [reflexivity |].
      exists []. rewrite app_nil_r. repeat split. constructor.
    + apply find_by_id_none in E.
      assert (Hnd' : NoDup (map Conversation.id
                              (conversations (db s)
                               ++ [Conversation.mk (new_id env) (text request)
                                     match timestamp request with
                                     | Some t => t
                                     | None => utcnow env
                                     end pending]))).
      { rewrite map_app. simpl.
        apply NoDup_app; [exact Hnd | repeat constructor; simpl; tauto |].
        intros i Hi [<- | []]. apply E. exact Hi. }
      destruct (outcome env); simpl.
      * split; [exact Hnd' |]. split; [reflexivity |].
        eexists. split; [reflexivity |]. split; [| reflexivity].
        repeat constructor.
      * split; [exact Hnd |]. split; [reflexivity |].
        exists []. rewrite app_nil_r. repeat split. constructor.
      * split; [exact Hnd' |]. split; [reflexivity |].
        eexists. split; [reflexivity |]. split; [| exact I].
        repeat constructor.
  - split; [exact Hnd |]. split; [reflexivity |].
    exists []. rewrite app_nil_r. repeat split. constructor.
Qed.

End Submissions.

(** X21. Under a clock that does not run backwards, [submit_conversation]
    lets at most 100 calls past [inbound_limiter] in any interval of one
    second, whatever becomes of them in the database; every other call is
    answered 429. *)
Theorem submit_throttled
    (calls : list (Main.environment * Main.ConversationRequest)) (d : database)
    (start : Q) :
  clock_monotone (map (fun c => Main.now_acquire (fst c)) calls) = true ->
  (Main.served_within start (start + 1) calls
     (fst (Main.submit_all calls (Main.mkServer RateLimiter.inbound_limiter d)))
   <= 100)%nat.
Proof.
  intros Hmono. rewrite submit_all_gate. simpl Main.limiter.
  remember (map (fun c => Main.now_acquire (fst c)) calls) as times eqn:Etimes.
  clear Etimes calls.
  destruct times as [| first later]; [unfold admitted_within; simpl; lia |].
  assert (Hfrom : clock_monotone_from first (first :: later) = true).
  { simpl. apply andb_true_iff. split; [| exact Hmono].
    apply Qle_bool_iff. apply Qle_refl. }
  pose proof (acquire_all_bound 100 1 (first :: later) first []
                RateLimiter.inbound_limiter eq_refl eq_refl Hfrom (Forall_nil _)) as H.
  simpl app in H.
  assert (Hbase : forall a : Q,
             (Z.of_nat (count_within a (a + 1)
                          (RateLimiter.requests RateLimiter.inbound_limiter)) <= 100)%Z)
    by (intros a; simpl; lia).
  specialize (H Hbase start).
  unfold count_within in H. simpl filter in H. simpl List.length in H. lia.
Qed.

Lemma submit_throttled_witness :
  let call := fun t : Q =>
    (Main.mkEnvironment t t 0 "c" "taken" Main.Stored, Main.mkRequest "hello" None) in
  (Main.served_within 0 (0 + 1) (map call (repeat (0 : Q) 120 ++ [1 # 2; 2 # 1]))
     (fst (Main.submit_all (map call (repeat (0 : Q) 120 ++ [1 # 2; 2 # 1]))
             (Main.mkServer RateLimiter.inbound_limiter (mkDatabase [] []))))
   <= 100)%nat.
Proof.
  intros call.
  apply (submit_throttled (map call (repeat (0 : Q) 120 ++ [1 # 2; 2 # 1]))
           (mkDatabase [] []) 0).
  vm_compute. reflexivity.
Defined.

(** The table of conversations after a run of submissions. *)
Lemma submit_all_store
    (calls : list (Main.environment * Main.ConversationRequest)) (s : Main.server) :
  NoDup (map Conversation.id (conversations (Main.db s))) ->
  let run := Main.submit_all calls s in
  NoDup (map Conversation.id (conversations (Main.db (snd run))))
  /\ insights (Main.db (snd run)) = insights (Main.db s)
  /\ exists added,
       conversations (Main.db (snd run)) = conversations (Main.db s) ++ added
       /\ Forall (fun row => Conversation.status row = pending) added
       /\ forall id, In (Main.Accepted id) (fst run) ->
                     In id (map Conversation.id added).
Proof.
  revert s. induction calls as [| [env request] later IH]; intros s Hnd; cbv zeta.
  - simpl. split; [exact Hnd |]. split; [reflexivity |].
    exists []. rewrite app_nil_r. repeat split; [constructor | intros id []].
  - simpl Main.submit_all.
    pose proof (submit_store env request s Hnd) as Hone. cbv zeta in Hone.
    destruct (Main.submit_conversation env request s) as [r s1].
    simpl in Hone. destruct Hone as (Hnd1 & Hins1 & added1 & Hrows1 & Hall1 & Hresp).
    specialize (IH s1 Hnd1). cbv zeta in IH.
    destruct (Main.submit_all later s1) as [rs final].
    simpl in *. destruct IH as (Hnd2 & Hins2 & added2 & Hrows2 & Hall2 & Hids).
    split; [exact Hnd2 |]. split; [congruence |].
    exists (added1 ++ added2). rewrite Hrows2, Hrows1, <- app_assoc.
    split; [reflexivity |]. split.
    + apply Forall_app. split; [| exact Hall2].
      eapply Forall_impl; [| exact Hall1]. simpl. tauto.
    + intros id [-> | Hin]; rewrite map_app; apply in_or_app.
      * left. rewrite Hresp. left. reflexivity.
      * right. apply Hids. exact Hin.
Qed.

(** X22. Submissions only add to the table of conversations: the rows that
    were there stay as they are, every new row is pending, the keys stay
    distinct, the insights are not touched, and the key answered with a 202
    is the key of a new row. *)
Theorem submit_all_appends_pending
    (calls : list (Main.environment * Main.ConversationRequest)) (s : Main.server) :
  NoDup (map Conversation.id (conversations (Main.db s))) ->
  let run := Main.submit_all calls s in
  NoDup (map Conversation.id (conversations (Main.db (snd run))))
  /\ insights (Main.db (snd run)) = insights (Main.db s)
  /\ exists added,
       conversations (Main.db (snd run)) = conversations (Main.db s) ++ added
       /\ Forall (fun row => Conversation.status row = pending) added
       /\ forall id, In (Main.Accepted id) (fst run) ->
                     In id (map Conversation.id added).
Proof. exact (submit_all_store calls s). Qed.

Lemma submit_all_appends_pending_witness :
  let s :=
    Main.mkServer RateLimiter.inbound_limiter
      (mkDatabase [Conversation.mk "c0" "old" 0 completed] []) in
  let run :=
    Main.submit_all
      [(Main.mkEnvironment 0 0 5 "c1" "taken" Main.Stored, Main.mkRequest "one" None);
       (Main.mkEnvironment 0 0 6 "c1" "taken" Main.Stored, Main.mkRequest "again" None);
       (Main.mkEnvironment 0 0 7 "c2" "taken" (Main.CommitRaises "disk full"),
        Main.mkRequest "two" (Some 3%Z))] s in
  fst run = [Main.Accepted "c1";
             Main.BadRequest "taken";
             Main.BadRequest "disk full"]
  /\ conversations (Main.db (snd run))
     = [Conversation.mk "c0" "old" 0 completed; Conversation.mk "c1" "one" 5 pending]
  /\ NoDup (map Conversation.id (conversations (Main.db (snd run)))).
Proof.
  intros s run. split; [reflexivity |]. split; [reflexivity |].
  apply (submit_all_appends_pending
           [(Main.mkEnvironment 0 0 5 "c1" "taken" Main.Stored, Main.mkRequest "one" None);
            (Main.mkEnvironment 0 0 6 "c1" "taken" Main.Stored, Main.mkRequest "again" None);
            (Main.mkEnvironment 0 0 7 "c2" "taken" (Main.CommitRaises "disk full"),
             Main.mkRequest "two" (Some 3%Z))] s).
  simpl. repeat constructor. simpl. tauto.
Defined.

(** X23. A call refused by a gate with room for at least one request is
    told to wait at least one second, when [get_retry_after] reads the
    clock less than a second after [acquire] did. *)
Theorem submit_refused_hint
    (env : Main.environment) (request : Main.ConversationRequest) (s : Main.server)
    (retry_after : Z) :
  (1 <= RateLimiter.max_requests (Main.limiter s))%Z ->
  Main.now_acquire env <= Main.now_retry env ->
  Main.now_retry env < Main.now_acquire env + 1 ->
  fst (Main.submit_conversation env request s) = Main.RateLimited retry_after ->
  (1 <= retry_after)%Z.
Proof.
  intros Hcap Hle Hlt. unfold Main.submit_conversation, RateLimiter.acquire.
  destruct (len (RateLimiter.purge (RateLimiter.time_window (Main.limiter s))
                   (Main.now_acquire env) (RateLimiter.requests (Main.limiter s)))
            >=? RateLimiter.max_requests (Main.limiter s))%Z eqn:Efull; simpl.
  - intros H. injection H as <-.
    unfold RateLimiter.get_retry_after. simpl.
    rewrite Z.geb_leb in Efull. apply Z.leb_le in Efull.
    destruct (RateLimiter.purge (RateLimiter.time_window (Main.limiter s))
                (Main.now_acquire env) (RateLimiter.requests (Main.limiter s)))
      as [| oldest later] eqn:Epurge; [unfold len in Efull; simpl in Efull; lia |].
    apply purge_head in Epurge.
    assert (Habove : -1 < RateLimiter.time_window (Main.limiter s)
                          - (Main.now_retry env - oldest)) by lra.
    apply python_int_above_minus_one in Habove. lia.
  - destruct (ProcessLoop.find_by_id _ _); [discriminate |].
    destruct (Main.outcome env); discriminate.
Qed.

Lemma submit_refused_hint_witness :
  let s :=
    Main.mkServer (RateLimiter.mk 2 1 [1 # 4; 1 # 2]) (mkDatabase [] []) in
  let env := Main.mkEnvironment 1 (11 # 10) 0 "c" "taken" Main.Stored in
  fst (Main.submit_conversation env (Main.mkRequest "hello" None) s)
  = Main.RateLimited 1
  /\ (1 <= 1)%Z.
Proof.
  intros s env. split; [reflexivity |].
  apply (submit_refused_hint env (Main.mkRequest "hello" None) s 1).
  - simpl. lia.
  - discriminate.
  - reflexivity.
  - reflexivity.
Defined.

Lemma Forall2_preimage {A B : Type} (R : A -> B -> Prop) (l : list A) (l' : list B)
    (y : B) :
  Forall2 R l l' -> In y l' -> exists x, In x l /\ R x y.
Proof.
  induction 1 as [| a b l l' Hab _ IH]; simpl; [tauto |].
  intros [<- | Hin].
  - exists a. tauto.
  - destruct (IH Hin) as [x [Hx HR]]. exists x. tauto.
Qed.

Lemma NoDup_disjoint {A : Type} (l l' : list A) :
  NoDup (l ++ l') -> forall x, In x l -> In x l' -> False.
Proof.
  induction l as [| a l IH]; simpl; [tauto |].
  intros Hnd x [-> | Hin] Hin'; inversion Hnd as [| ? ? Hfresh Hrest]; subst.
  - apply Hfresh. apply in_or_app. right. exact Hin'.
  - exact (IH Hrest x Hin Hin').
Qed.

Lemma count_status_none (st : Status) (rows : list Conversation.t)
    (row : Conversation.t) :
  BatchProcessor.count_status st rows = 0%nat -> In row rows ->
  BatchProcessor.has_status st row = false.
Proof.
  unfold BatchProcessor.count_status. intros Hnone Hin.
  destruct (BatchProcessor.has_status st row) eqn:E; [| reflexivity].
  assert (Hf : In row (filter (BatchProcessor.has_status st) rows))
    by (apply filter_In; tauto).
  destruct (filter (BatchProcessor.has_status st) rows); [destruct Hf | discriminate].
Qed.

Lemma advanced_id (row row' : Conversation.t) :
  advanced row row' -> Conversation.id row' = Conversation.id row.
Proof. intros [-> | [_ H]]; [reflexivity | apply resolved_id; exact H]. Qed.

(** X24. A conversation answered with a 202 is analysed: once the loop has
    run enough cycles without a database fault to take every pending row,
    the row with the key of the response is completed or failed. *)
Theorem accepted_is_resolved
    (str_to_float : string -> option Q) (GROK_API_KEY : option string)
    (service : nat -> string -> GrokClient.attempt_outcome)
    (calls : list (Main.environment * Main.ConversationRequest)) (s : Main.server)
    (n : nat) (self : BatchProcessor.t) (w : GrokClient.world) (id : string) :
  (1 <= BatchProcessor.batch_size self)%Z ->
  NoDup (map Conversation.id (conversations (Main.db s))) ->
  In (Main.Accepted id) (fst (Main.submit_all calls s)) ->
  (Z.of_nat (BatchProcessor.count_status pending
               (conversations (Main.db (snd (Main.submit_all calls s)))))
   <= Z.of_nat n * BatchProcessor.batch_size self)%Z ->
  exists row,
    In row
      (conversations
         (fst (ProcessLoop._process_loop str_to_float GROK_API_KEY service
                 (repeat ProcessLoop.NoFault n) self
                 (Main.db (snd (Main.submit_all calls s))) w)))
    /\ Conversation.id row = id
    /\ (Conversation.status row = completed \/ Conversation.status row = failed).
Proof.
  intros Hsize Hnd Hacc Henough.
  destruct (submit_all_store calls s Hnd) as (Hnd1 & _ & added & Hrows & Hpend & Hids).
  cbv zeta in Hnd1, Hrows, Hpend, Hids.
  specialize (Hids id Hacc).
  remember (Main.db (snd (Main.submit_all calls s))) as d eqn:Ed. clear Ed Hacc.
  pose proof (process_loop_ids str_to_float GROK_API_KEY service
                (repeat ProcessLoop.NoFault n) self d w Hnd1) as Hsame.
  pose proof (process_loop_advanced str_to_float GROK_API_KEY service
                (repeat ProcessLoop.NoFault n) self d w Hnd1) as Hadv.
  pose proof (process_loop_pending str_to_float GROK_API_KEY service
                n self d w Hnd1) as Hcount.
  assert (Hzero : BatchProcessor.count_status pending
                    (conversations
                       (fst (ProcessLoop._process_loop str_to_float GROK_API_KEY
                               service (repeat ProcessLoop.NoFault n) self d w)))
                  = 0%nat) by (rewrite Hcount; nia).
  clear Hcount Henough.
  remember (conversations
              (fst (ProcessLoop._process_loop str_to_float GROK_API_KEY service
                      (repeat ProcessLoop.NoFault n) self d w))) as rows' eqn:Erows'.
  clear Erows'.
  assert (Hin' : In id (map Conversation.id rows')).
  { rewrite Hsame, Hrows, map_app. apply in_or_app. right. exact Hids. }
  apply in_map_iff in Hin'. destruct Hin' as [row [Hid Hrow]].
  exists row. split; [exact Hrow |]. split; [exact Hid |].
  destruct (Forall2_preimage advanced _ _ row Hadv Hrow) as [before [Hbefore Hstep]].
  pose proof (advanced_id before row Hstep) as Hkey.
  pose proof (count_status_none pending rows' row Hzero Hrow) as Hnot.
  destruct Hstep as [-> | [_ [-> | ->]]]; [| left; reflexivity | right; reflexivity].
  exfalso.
  (* the row is one of the added ones, which are pending *)
  apply in_map_iff in Hids. destruct Hids as [new [Hnewid Hnew]].
  assert (Heq : before = new \/ In before (conversations (Main.db s))).
  { rewrite Hrows in Hbefore. apply in_app_or in Hbefore.
    destruct Hbefore as [Hold | Hadded]; [right; exact Hold |].
    left. rewrite Hrows, map_app in Hnd1.
    apply NoDup_app_remove_l in Hnd1.
    clear -Hnd1 Hadded Hnew Hnewid Hid.
    induction added as [| a added IH]; [destruct Hadded |].
    simpl in Hnd1. inversion Hnd1 as [| key keys Hfresh Hrest]. subst key keys.
    destruct Hadded as [-> | Hadded], Hnew as [-> | Hnew].
    - reflexivity.
    - exfalso. apply Hfresh. rewrite Hid, <- Hnewid. apply in_map. exact Hnew.
    - exfalso. apply Hfresh. rewrite Hnewid, <- Hid. apply in_map. exact Hadded.
    - apply IH; assumption. }
  destruct Heq as [-> | Hold].
  - rewrite Forall_forall in Hpend. specialize (Hpend new Hnew).
    unfold BatchProcessor.has_status in Hnot. rewrite Hpend in Hnot. discriminate.
  - rewrite Hrows, map_app in Hnd1.
    apply (NoDup_disjoint _ _ Hnd1 id).
    + rewrite <- Hid. apply in_map. exact Hold.
    + rewrite <- Hnewid. apply in_map. exact Hnew.
Qed.

Lemma accepted_is_resolved_witness :
  let s := Main.mkServer RateLimiter.inbound_limiter (mkDatabase [] []) in
  let calls :=
    [(Main.mkEnvironment 0 0 5 "c1" "taken" Main.Stored, Main.mkRequest "one" None);
     (Main.mkEnvironment 1 1 6 "c2" "taken" Main.Stored,
      Main.mkRequest "two" (Some 3%Z))] in
  exists row,
    In row
      (conversations
         (fst (ProcessLoop._process_loop (fun _ => None) (Some "key"%string)
                 (fun _ _ => GrokClient.Loaded (GrokClient.JObject []))
                 (repeat ProcessLoop.NoFault 1)
                 (BatchProcessor.mk 10 true (Some 0%nat))
                 (Main.db (snd (Main.submit_all calls s)))
                 (GrokClient.mkWorld 2 [] []))))
    /\ Conversation.id row = "c2"%string
    /\ (Conversation.status row = completed \/ Conversation.status row = failed).
Proof.
  intros s calls.
  apply (accepted_is_resolved (fun _ => None) (Some "key"%string)
           (fun _ _ => GrokClient.Loaded (GrokClient.JObject []))
           calls s 1 (BatchProcessor.mk 10 true (Some 0%nat))
           (GrokClient.mkWorld 2 [] []) "c2"%string).
  - simpl. lia.
  - simpl. constructor.
  - simpl. right. left. reflexivity.
  - vm_compute. discriminate.
Defined.

(** ** The query of [get_insights] *)

Section Queries.

Import Insights.

Local Abbreviation newer_first :=
  (fun a b : Insight.t => (Insight.timestamp b <= Insight.timestamp a)%Z).

Lemma insert_desc_length (insight : Insight.t) (sorted : list Insight.t) :
  List.length (insert_desc insight sorted) = S (List.length sorted).
Proof.
  induction sorted as [| other rest IH]; simpl; [reflexivity |].
  destruct (Insight.timestamp other <=? Insight.timestamp insight)%Z; simpl;
    [reflexivity | rewrite IH; reflexivity].
Qed.

Lemma insert_desc_In (insight x : Insight.t) (sorted : list Insight.t) :
  In x (insert_desc insight sorted) <-> x = insight \/ In x sorted.
Proof.
  induction sorted as [| other rest IH]; simpl; [intuition congruence |].
  destruct (Insight.timestamp other <=? Insight.timestamp insight)%Z; simpl;
    [intuition congruence |].
  rewrite IH. intuition congruence.
Qed.

Lemma insert_desc_sorted (insight : Insight.t) (sorted : list Insight.t) :
  StronglySorted newer_first sorted ->
  StronglySorted newer_first (insert_desc insight sorted).
Proof.
  induction 1 as [| other rest Hrest IH Hall]; simpl.
  - constructor; constructor.
  - destruct (Insight.timestamp other <=? Insight.timestamp insight)%Z eqn:E.
    + apply Z.leb_le in E. constructor; [constructor; assumption |].
      constructor; [exact E |].
      eapply Forall_impl; [| exact Hall]. simpl. intros b Hb. lia.
    + apply Z.leb_gt in E. constructor; [exact IH |].
      apply Forall_forall. intros b Hb. apply insert_desc_In in Hb.
      destruct Hb as [-> | Hb]; [lia |].
      rewrite Forall_forall in Hall. apply Hall. exact Hb.
Qed.

Lemma order_by_length (rows : list Insight.t) :
  List.length (order_by_timestamp_desc rows) = List.length rows.
Proof.
  induction rows as [| r rows IH]; simpl; [reflexivity |].
  rewrite insert_desc_length, IH. reflexivity.
Qed.

Lemma order_by_In (x : Insight.t) (rows : list Insight.t) :
  In x (order_by_timestamp_desc rows) <-> In x rows.
Proof.
  induction rows as [| r rows IH]; simpl; [tauto |].
  rewrite insert_desc_In, IH. intuition congruence.
Qed.

Lemma order_by_sorted (rows : list Insight.t) :
  StronglySorted newer_first (order_by_timestamp_desc rows).
Proof.
  induction rows as [| r rows IH]; simpl; [constructor |].
  apply insert_desc_sorted. exact IH.
Qed.

Lemma sorted_firstn (n : nat) (l : list Insight.t) :
  StronglySorted newer_first l ->
  StronglySorted newer_first (firstn n l)
  /\ forall a b, In a (firstn n l) -> In b (skipn n l) -> newer_first a b.
Proof.
  revert l. induction n as [| n IH]; intros l Hs; simpl.
  - split; [constructor | intros a b []].
  - destruct l as [| x l]; [split; [constructor | intros a b []] |].
    inversion Hs as [| ? ? Hrest Hall]; subst.
    destruct (IH l Hrest) as [Hfirst Hsplit]. split.
    + constructor; [exact Hfirst |].
      apply Forall_forall. intros b Hb. rewrite Forall_forall in Hall.
      apply Hall. rewrite <- (firstn_skipn n l). apply in_or_app. left. exact Hb.
    + intros a b [<- | Ha] Hb.
      * rewrite Forall_forall in Hall. apply Hall.
        rewrite <- (firstn_skipn n l). apply in_or_app. right. exact Hb.
      * apply Hsplit; assumption.
Qed.

Lemma query_length (start_time end_time limit : Z) (min_confidence : option Q)
    (sentiment : option SentimentFilter.t) (table : list Insight.t) :
  List.length (query start_time end_time limit min_confidence sentiment table)
  = Nat.min (Z.to_nat limit)
      (List.length (count_query start_time end_time min_confidence sentiment table)).
Proof.
  unfold query, count_query. rewrite length_firstn, order_by_length. reflexivity.
Qed.

Variable list_of_str : GrokClient.json -> option (list string).
Variable optional_str : GrokClient.json -> option (option string).

Lemma insight_item_fields (insight : Insight.t) (item : InsightItem) :
  insight_item list_of_str optional_str insight = Some item ->
  conversation_id item = Insight.conversation_id insight
  /\ timestamp item = Insight.timestamp insight
  /\ text item = Insight.text insight
  /\ sentiment_score (grok_analysis item) = Insight.sentiment_score insight
  /\ confidence (grok_analysis item) = Insight.confidence insight
  /\ in_range (Insight.sentiment_score insight) (Insight.confidence insight) = true.
Proof.
  unfold insight_item.
  destruct (in_range _ _); [| discriminate].
  destruct (list_of_str _); [| discriminate].
  destruct (optional_str _); [| discriminate].
  intros H. injection H as <-. simpl. repeat split; reflexivity.
Qed.

Lemma insight_items_each (rows : list Insight.t) :
  forall items,
    insight_items list_of_str optional_str rows = Some items ->
    Forall2 (fun insight item => insight_item list_of_str optional_str insight = Some item)
      rows items.
Proof.
  induction rows as [| r rows IH]; simpl; intros items H.
  - injection H as <-. constructor.
  - destruct (insight_item list_of_str optional_str r) as [item |] eqn:E;
      [| discriminate].
    destruct (insight_items list_of_str optional_str rows) as [rest |];
      [| discriminate].
    injection H as <-. constructor; [exact E | apply IH; reflexivity].
Qed.

Lemma insight_items_raises (rows : list Insight.t) (insight : Insight.t) :
  In insight rows ->
  insight_item list_of_str optional_str insight = None ->
  insight_items list_of_str optional_str rows = None.
Proof.
  induction rows as [| r rows IH]; simpl; [tauto |].
  intros [-> | Hin] Hnone.
  - rewrite Hnone. reflexivity.
  - rewrite (IH Hin Hnone).
    destruct (insight_item list_of_str optional_str r); reflexivity.
Qed.

Lemma get_insights_ok (start_time end_time limit : Z) (min_confidence : option Q)
    (sentiment : option SentimentFilter.t) (execute_raises : bool) (d : database)
    (items : list InsightItem) (meta : metadata) :
  get_insights list_of_str optional_str start_time end_time limit min_confidence
    sentiment execute_raises d = Ok items meta ->
  insight_items list_of_str optional_str
    (query start_time end_time limit min_confidence sentiment (insights d)) = Some items
  /\ meta = mkMetadata
              (List.length
                 (count_query start_time end_time min_confidence sentiment (insights d)))
              (List.length items) start_time end_time.
Proof.
  unfold get_insights. destruct execute_raises; [discriminate |].
  destruct (insight_items _ _ _) as [found |]; [| discriminate].
  intros H. injection H as <- <-. split; reflexivity.
Qed.

End Queries.



(** X25. A 200 of [get_insights] for a [limit] between 1 and 1000 returns
    [limit] items or all the insights that meet the conditions, whichever is
    less: [total_count] is the number of insights of the table that meet the
    conditions, [returned_count] is the number of items and the smaller of
    [limit] and [total_count]. *)
Theorem get_insights_counts
    (list_of_str : GrokClient.json -> option (list string))
    (optional_str : GrokClient.json -> option (option string))
    (start_time end_time limit : Z) (min_confidence : option Q)
    (sentiment : option SentimentFilter.t) (execute_raises : bool) (d : database)
    (items : list Insights.InsightItem) (meta : Insights.metadata) :
  (1 <= limit <= 1000)%Z ->
  Insights.get_insights list_of_str optional_str start_time end_time limit
    min_confidence sentiment execute_raises d = Insights.Ok items meta ->
  Insights.total_count meta
  = List.length
      (filter (Insights.conditions start_time end_time min_confidence sentiment)
         (insights d))
  /\ Insights.returned_count meta = List.length items
  /\ Z.of_nat (Insights.returned_count meta)
     = Z.min limit (Z.of_nat (Insights.total_count meta))
  /\ (Insights.returned_count meta <= 1000)%nat.
Proof.
  intros Hlimit Hok. apply get_insights_ok in Hok. destruct Hok as [Hitems ->].
  apply insight_items_each in Hitems. apply Forall2_length in Hitems.
  simpl. pose proof (query_length start_time end_time limit min_confidence sentiment
                       (insights d)) as Hlen.
  rewrite Hitems in Hlen. unfold Insights.count_query in *.
  split; [reflexivity |]. split; [reflexivity |]. lia.
Qed.

Lemma get_insights_counts_witness :
  let row := fun (id : string) (t : Z) =>
    Insight.mk id t "text" 0 (GrokClient.JArray []) (1 # 2) GrokClient.JNull
      (GrokClient.mkAnalysis 0 (GrokClient.JArray []) (1 # 2) GrokClient.JNull) in
  let item := fun (id : string) (t : Z) =>
    Insights.mkInsightItem id t "text" (Insights.mkGrokAnalysis 0 [] (1 # 2) None) in
  let d := mkDatabase [] [row "c1"%string 1%Z; row "c2"%string 3%Z; row "c3"%string 2%Z; row "c4"%string 20%Z] in
  Insights.get_insights (fun _ => Some []) (fun _ => Some None) 0 10 2 None None false d
  = Insights.Ok [item "c2"%string 3%Z; item "c3"%string 2%Z] (Insights.mkMetadata 3 2 0 10)
  /\ Z.of_nat 2 = Z.min 2 (Z.of_nat 3).
Proof.
  intros row item d. split; [reflexivity |].
  apply (get_insights_counts (fun _ => Some []) (fun _ => Some None) 0 10 2 None None
           false d [item "c2"%string 3%Z; item "c3"%string 2%Z] (Insights.mkMetadata 3 2 0 10));
    [lia | reflexivity].
Defined.

Lemma sorted_items
    (list_of_str : GrokClient.json -> option (list string))
    (optional_str : GrokClient.json -> option (option string))
    (rows : list Insight.t) (items : list Insights.InsightItem) :
  Forall2 (fun insight item =>
             Insights.insight_item list_of_str optional_str insight = Some item)
    rows items ->
  StronglySorted
    (fun a b : Insight.t => (Insight.timestamp b <= Insight.timestamp a)%Z) rows ->
  StronglySorted
    (fun a b : Insights.InsightItem =>
       (Insights.timestamp b <= Insights.timestamp a)%Z) items.
Proof.
  induction 1 as [| r item rows items Hitem Hrest IH]; intros Hs; [constructor |].
  inversion Hs as [| ? ? Hsorted Hall]; subst.
  constructor; [apply IH; exact Hsorted |].
  apply insight_item_fields in Hitem. destruct Hitem as (_ & Hts & _).
  rewrite Hts. clear IH Hs Hsorted.
  induction Hrest as [| r' item' rows items Hitem' _ IH]; [constructor |].
  inversion Hall as [| ? ? Hle Hall']; subst.
  apply insight_item_fields in Hitem'. destruct Hitem' as (_ & Hts' & _).
  constructor; [rewrite Hts'; exact Hle | apply IH; exact Hall'].
Qed.

Lemma Forall2_image {A B : Type} (R : A -> B -> Prop) (l : list A) (l' : list B)
    (x : A) :
  Forall2 R l l' -> In x l -> exists y, In y l' /\ R x y.
Proof.
  induction 1 as [| a b l l' Hab _ IH]; simpl; [tauto |].
  intros [<- | Hin].
  - exists b. tauto.
  - destruct (IH Hin) as [y [Hy HR]]. exists y. tauto.
Qed.

(** X26. A 200 of [get_insights] lists the newest insights that meet the
    conditions, newest first: the items are in descending order of
    timestamp, each is built from an insight of the table that meets the
    conditions, and an insight that meets the conditions and is left out is
    no newer than any item returned. *)
Theorem get_insights_newest_first
    (list_of_str : GrokClient.json -> option (list string))
    (optional_str : GrokClient.json -> option (option string))
    (start_time end_time limit : Z) (min_confidence : option Q)
    (sentiment : option SentimentFilter.t) (execute_raises : bool) (d : database)
    (items : list Insights.InsightItem) (meta : Insights.metadata) :
  (1 <= limit <= 1000)%Z ->
  Insights.get_insights list_of_str optional_str start_time end_time limit
    min_confidence sentiment execute_raises d = Insights.Ok items meta ->
  StronglySorted
    (fun a b : Insights.InsightItem =>
       (Insights.timestamp b <= Insights.timestamp a)%Z) items
  /\ (forall item, In item items ->
        exists insight,
          In insight (insights d)
          /\ Insights.conditions start_time end_time min_confidence sentiment insight
             = true
          /\ Insights.insight_item list_of_str optional_str insight = Some item)
  /\ (forall insight,
        In insight (insights d) ->
        Insights.conditions start_time end_time min_confidence sentiment insight
        = true ->
        (exists item,
            In item items
            /\ Insights.insight_item list_of_str optional_str insight = Some item)
        \/ Forall (fun item => (Insight.timestamp insight <= Insights.timestamp item)%Z)
             items).
Proof.
  intros _ Hok. apply get_insights_ok in Hok. destruct Hok as [Hitems _].
  apply insight_items_each in Hitems. unfold Insights.query in Hitems.
  set (found := Insights.order_by_timestamp_desc
                  (filter (Insights.conditions start_time end_time min_confidence
                             sentiment) (insights d))) in *.
  destruct (sorted_firstn (Z.to_nat limit) found (order_by_sorted _))
    as [Hsorted Hsplit].
  split; [exact (sorted_items _ _ _ _ Hitems Hsorted) |]. split.
  - intros item Hin.
    destruct (Forall2_preimage _ _ _ item Hitems Hin) as [insight [Hrow Hitem]].
    exists insight.
    assert (Hfound : In insight found).
    { rewrite <- (firstn_skipn (Z.to_nat limit) found). apply in_or_app. tauto. }
    apply order_by_In, filter_In in Hfound. tauto.
  - intros insight Hin Hcond.
    assert (Hfound : In insight found)
      by (apply order_by_In, filter_In; tauto).
    rewrite <- (firstn_skipn (Z.to_nat limit) found) in Hfound.
    apply in_app_or in Hfound. destruct Hfound as [Hfirst | Hlater].
    + left. destruct (Forall2_image _ _ _ insight Hitems Hfirst) as [item [Hi Hitem]].
      exists item. tauto.
    + right. apply Forall_forall. intros item Hi.
      destruct (Forall2_preimage _ _ _ item Hitems Hi) as [r [Hr Hitem]].
      apply insight_item_fields in Hitem. destruct Hitem as (_ & -> & _).
      apply (Hsplit r insight Hr Hlater).
Qed.

Lemma get_insights_newest_first_witness :
  let row := fun (id : string) (t : Z) =>
    Insight.mk id t "text" 0 (GrokClient.JArray []) (1 # 2) GrokClient.JNull
      (GrokClient.mkAnalysis 0 (GrokClient.JArray []) (1 # 2) GrokClient.JNull) in
  let item := fun (id : string) (t : Z) =>
    Insights.mkInsightItem id t "text" (Insights.mkGrokAnalysis 0 [] (1 # 2) None) in
  let d := mkDatabase [] [row "c1"%string 1%Z; row "c2"%string 3%Z; row "c3"%string 2%Z; row "c4"%string 20%Z] in
  Insights.get_insights (fun _ => Some []) (fun _ => Some None) 0 10 2 None None false d
  = Insights.Ok [item "c2"%string 3%Z; item "c3"%string 2%Z] (Insights.mkMetadata 3 2 0 10)
  /\ StronglySorted
       (fun a b : Insights.InsightItem =>
          (Insights.timestamp b <= Insights.timestamp a)%Z)
       [item "c2"%string 3%Z; item "c3"%string 2%Z].
Proof.
  intros row item d. split; [reflexivity |].
  apply (get_insights_newest_first (fun _ => Some []) (fun _ => Some None) 0 10 2
           None None false d [item "c2"%string 3%Z; item "c3"%string 2%Z]
           (Insights.mkMetadata 3 2 0 10));
    [lia | reflexivity].
Defined.



(** X28. An insight whose sentiment score or confidence lies outside the
    bounds of [GrokAnalysis] makes every query that returns it fail:
    [get_insights] answers 400, not 200 with the other items. *)
Theorem get_insights_out_of_range
    (list_of_str : GrokClient.json -> option (list string))
    (optional_str : GrokClient.json -> option (option string))
    (start_time end_time limit : Z) (min_confidence : option Q)
    (sentiment : option SentimentFilter.t) (execute_raises : bool) (d : database)
    (insight : Insight.t) :
  (1 <= limit <= 1000)%Z ->
  In insight
    (Insights.query start_time end_time limit min_confidence sentiment (insights d)) ->
  Insights.in_range (Insight.sentiment_score insight) (Insight.confidence insight)
  = false ->
  Insights.get_insights list_of_str optional_str start_time end_time limit
    min_confidence sentiment execute_raises d = Insights.InvalidQuery.
Proof.
  intros _ Hin Hout. unfold Insights.get_insights.
  destruct execute_raises; [reflexivity |].
  rewrite (insight_items_raises list_of_str optional_str _ insight Hin); [reflexivity |].
  unfold Insights.insight_item. rewrite Hout. reflexivity.
Qed.

Lemma get_insights_out_of_range_witness :
  let service := fun (_ : nat) (text : string) =>
    if String.eqb text "two"
    then GrokClient.Loaded
           (GrokClient.JObject [("sentiment_score"%string, GrokClient.JNumber 5)])
    else GrokClient.Loaded (GrokClient.JObject []) in
  let d :=
    fst (ProcessLoop._process_loop (fun _ => None) (Some "key"%string) service
           [ProcessLoop.NoFault] (BatchProcessor.mk 10 true (Some 0%nat))
           (mkDatabase [Conversation.mk "c1" "one" 1 pending;
                        Conversation.mk "c2" "two" 2 pending] [])
           (GrokClient.mkWorld 0 [] [])) in
  map Conversation.status (conversations d) = [completed; completed]
  /\ Insights.get_insights (fun _ => Some []) (fun _ => Some None) 0 10 100 None None
       false d
     = Insights.InvalidQuery.
Proof.
  intros service d. split; [reflexivity |].
  apply (get_insights_out_of_range (fun _ => Some []) (fun _ => Some None) 0 10 100
           None None false d
           (Insight.mk "c2" 2 "two" 5 (GrokClient.JArray []) (1 # 2)
              (GrokClient.JString "Analysis completed")
              (GrokClient.mkAnalysis 5 (GrokClient.JArray []) (1 # 2)
                 (GrokClient.JString "Analysis completed")))).
  - lia.
  - vm_compute. left. reflexivity.
  - reflexivity.
Defined.
